(** * eessh: the binary packet stream (ssh/stream.c) and the exchange hash
      (ssh/kex_dh.c), embedded and verified.

    Octets and C integers are [Z]; every narrowing conversion the C code
    performs (to [uint8_t], to [uint32_t]) is written out with [mod].
    Buffer lengths and offsets are [nat].  Heap allocation is assumed to
    succeed: the [NULL] / [< 0] returns of the buffer allocator are the only
    failure paths of the source that the model leaves out. *)

From Stdlib Require Import ZArith List Bool Lia.
From Stdlib Require String.
Import ListNotations.
Local Open Scope Z_scope.

(* ------------------------------------------------------------------ *)
(** ** Fixed-width integers *)

Definition u8 (x : Z) : Z := x mod 256.
Definition u32 (x : Z) : Z := x mod 4294967296.

(* ------------------------------------------------------------------ *)
(** ** Byte buffers (ssh/buffer.c is not among the sources) *)

Module Buf.

(** Modelled from the spec: [struct SSH_BUFFER] of ssh/buffer.h, "a mutable
    ordered sequence of octets with a logical length distinct from allocated
    capacity".  [data] is the content of the backing store, [len] the
    logical length. *)
Record SSH_BUFFER : Type := mkbuf { data : list Z; len : nat }.

(** [memcpy]/[memset]-style store of [src] at offset [off] of a memory
    region; the region is extended when the store runs past its end. *)
Definition poke (off : nat) (src : list Z) (mem : list Z) : list Z :=
  firstn off mem ++ src ++ skipn (off + length src) mem.

(** Modelled from the spec: [ssh_buf_set_u32], the [u32] (big-endian) writer
    of ssh/buffer.c, at a raw pointer. *)
Definition ssh_buf_set_u32 (v : Z) : list Z :=
  [ (v / 16777216) mod 256; (v / 65536) mod 256; (v / 256) mod 256; v mod 256 ].

(** Modelled from the spec: [ssh_buf_get_u32], the [u32] (big-endian) reader
    of ssh/buffer.c, at a raw pointer; what it reads are [uint8_t]. *)
Definition ssh_buf_get_u32 (p : list Z) : Z :=
  u8 (nth 0 p 0) * 16777216 + u8 (nth 1 p 0) * 65536
  + u8 (nth 2 p 0) * 256 + u8 (nth 3 p 0).

(** Modelled from the spec: [ssh_buf_new] of ssh/buffer.c, the empty buffer. *)
Definition ssh_buf_new : SSH_BUFFER := mkbuf [] 0.

(** Modelled from the spec: [ssh_buf_clear] ("clear") of ssh/buffer.c. *)
Definition ssh_buf_clear (b : SSH_BUFFER) : SSH_BUFFER := mkbuf [] 0.

(** Modelled from the spec: [ssh_buf_get_write_pointer] of ssh/buffer.c:
    reserves [n] octets past the logical end, advances the logical length
    over them and returns the offset of the reserved region. *)
Definition ssh_buf_get_write_pointer (b : SSH_BUFFER) (n : nat)
  : SSH_BUFFER * nat :=
  (mkbuf (firstn (len b) (data b) ++ repeat 0 n) (len b + n), len b).

(** Modelled from the spec: [ssh_buf_grow] ("grow(n)") of ssh/buffer.c: makes
    room for [n] octets past the logical end, which stays where it is. *)
Definition ssh_buf_grow (b : SSH_BUFFER) (n : nat) : SSH_BUFFER :=
  mkbuf (data b ++ repeat 0 (len b + n - length (data b))) (len b).

(** Modelled from the spec: "append(bytes)" of ssh/buffer.c. *)
Definition ssh_buf_append_data (b : SSH_BUFFER) (bytes : list Z) : SSH_BUFFER :=
  let '(b1, p) := ssh_buf_get_write_pointer b (length bytes) in
  mkbuf (poke p bytes (data b1)) (len b1).

(** Modelled from the spec: [ssh_buf_write_u8] ("write_u8"). *)
Definition ssh_buf_write_u8 (b : SSH_BUFFER) (v : Z) : SSH_BUFFER :=
  ssh_buf_append_data b [u8 v].

(** Modelled from the spec: [ssh_buf_write_u32] ("write_u32_be"). *)
Definition ssh_buf_write_u32 (b : SSH_BUFFER) (v : Z) : SSH_BUFFER :=
  ssh_buf_append_data b (ssh_buf_set_u32 v).

(** Modelled from the spec: [ssh_buf_write_data], [ssh_buf_write_string] and
    [ssh_buf_write_buffer] of ssh/buffer.c, the writers of the SSH [string]
    type: "writes 4-byte length then bytes". *)
Definition ssh_buf_write_data (b : SSH_BUFFER) (bytes : list Z) : SSH_BUFFER :=
  ssh_buf_append_data (ssh_buf_write_u32 b (Z.of_nat (length bytes))) bytes.

Definition ssh_buf_write_string := ssh_buf_write_data.

Definition ssh_buf_write_buffer (b : SSH_BUFFER) (src : SSH_BUFFER) : SSH_BUFFER :=
  ssh_buf_write_data b (firstn (len src) (data src)).

(** Modelled from the spec: [ssh_buf_remove_data] of ssh/buffer.c: removes
    [n] octets at offset [off]; fails when they are not all inside the
    logical content. *)
Definition ssh_buf_remove_data (b : SSH_BUFFER) (off n : nat) : option SSH_BUFFER :=
  if (off + n <=? len b)%nat
  then Some (mkbuf (firstn off (data b) ++ skipn (off + n) (data b)) (len b - n))
  else None.

(** The logical content of a buffer. *)
Definition contents (b : SSH_BUFFER) : list Z := firstn (len b) (data b).

End Buf.
Import Buf.

(** [memcmp] of the C library on the first [n] octets of two regions: the
    difference of the first pair of octets that differ, 0 when there is
    none. *)
Fixpoint memcmp (a b : list Z) (n : nat) : Z :=
  match n with
  | O => 0
  | S n' =>
      let x := hd 0 a in
      let y := hd 0 b in
      if x =? y then memcmp (tl a) (tl b) n' else x - y
  end.

(** The number of octet pairs a byte-wise [memcmp] looks at before its
    result is known: it stops at the first pair that differs. *)
Fixpoint memcmp_examined (a b : list Z) (n : nat) : nat :=
  match n with
  | O => O
  | S n' =>
      if hd 0 a =? hd 0 b then S (memcmp_examined (tl a) (tl b) n') else 1%nat
  end.

(* ------------------------------------------------------------------ *)
(** ** The environment of a stream: socket and random generator *)

(** Modelled from the spec: the socket behind [ssh_net_read_all] and
    [ssh_net_write_all] of common/network.c ("read_exact(n)" and
    "write_all(bytes)"; both may fail with an I/O error; no partial reads
    exposed) and the generator behind [crypto_random_gen] of
    crypto/random.c ("fill(out)").  [net_rx] are the octets still to arrive,
    [net_tx] the octets written so far, [net_wr_ok] tells whether writes
    succeed, [rand_pool] are the octets the generator will hand out. *)
Record WORLD : Type := mkworld {
  net_rx : list Z;
  net_tx : list Z;
  net_wr_ok : bool;
  rand_pool : list Z
}.

Definition ssh_net_write_all (w : WORLD) (bytes : list Z) : option WORLD :=
  if net_wr_ok w
  then Some (mkworld (net_rx w) (net_tx w ++ bytes) (net_wr_ok w) (rand_pool w))
  else None.

Definition ssh_net_read_all (w : WORLD) (n : nat) : option (list Z * WORLD) :=
  if (n <=? length (net_rx w))%nat
  then Some (firstn n (net_rx w),
             mkworld (skipn n (net_rx w)) (net_tx w) (net_wr_ok w) (rand_pool w))
  else None.

Definition crypto_random_gen (w : WORLD) (n : nat) : list Z * WORLD :=
  (firstn n (map u8 (rand_pool w) ++ repeat 0 n),
   mkworld (net_rx w) (net_tx w) (net_wr_ok w) (skipn n (rand_pool w))).

(** Modelled from the spec: [enum SSH_CIPHER_TYPE] of ssh/cipher.h; stream.c
    names only [SSH_CIPHER_NONE], the other enumerators ("3des-cbc,
    aes128-cbc, aes256-ctr, ...") are [SSH_CIPHER_ALGO n]. *)
Inductive SSH_CIPHER_TYPE : Type :=
| SSH_CIPHER_NONE
| SSH_CIPHER_ALGO (id : nat).

(** Modelled from the spec: [enum SSH_MAC_TYPE] of ssh/mac.h; stream.c names
    only [SSH_MAC_NONE], the other enumerators ("hmac-sha1, hmac-sha256,
    ...") are [SSH_MAC_ALGO n]. *)
Inductive SSH_MAC_TYPE : Type :=
| SSH_MAC_NONE
| SSH_MAC_ALGO (id : nat).

Definition is_cipher_none (t : SSH_CIPHER_TYPE) : bool :=
  match t with SSH_CIPHER_NONE => true | _ => false end.

Definition is_mac_none (t : SSH_MAC_TYPE) : bool :=
  match t with SSH_MAC_NONE => true | _ => false end.

(** The places where stream.c returns -1, named after the message each one
    hands to [ssh_set_error] (the returns after a failed collaborator are
    named after the collaborator). *)
Inductive SSH_ERROR : Type :=
| ERR_CIPHER            (* ssh_cipher_crypt(...) < 0 *)
| ERR_MAC               (* ssh_mac_compute(...) < 0 *)
| ERR_IO                (* ssh_net_read_all / ssh_net_write_all < 0 *)
| ERR_BUFFER            (* ssh_buf_remove_data(...) < 0 *)
| ERR_PACKET_SIZE       (* "invalid packet size (%u=0x%x)" *)
| ERR_PAD_LENGTH        (* "bad padding length: packet_length=%d, pad_length=%d" *)
| ERR_PAD_BLOCK         (* "bad padding len in received packet: %d mod %d = %d" *)
| ERR_BAD_MAC.          (* "bad mac in incoming packet" *)

Inductive result (A : Type) : Type :=
| Ok (a : A)
| Err (e : SSH_ERROR).
Arguments Ok {A} a.
Arguments Err {A} e.

Definition is_ok {A} (r : result A) : bool :=
  match r with Ok _ => true | Err _ => false end.

(** [static uint8_t calc_pad_len(uint32_t pack_len_before_padding,
    uint8_t block_size)]; the local [pad_len] is a [uint8_t]. *)
Definition calc_pad_len (pack_len_before_padding block_size : Z) : Z :=
  let block_size := if block_size <? 8 then 8 else block_size in
  let pad_len := u8 (block_size - pack_len_before_padding mod block_size) in
  if pad_len <? 4 then u8 (pad_len + block_size) else pad_len.

Section Stream.

(** The collaborators of crypto/: the cipher context behind
    [ssh_cipher_crypt] (it carries the chaining state, so a call returns the
    next context with the output) and the keyed digest behind
    [ssh_mac_compute]. *)
Variable CIPHER_CTX : Type.
Variable MAC_CTX : Type.
Variable ssh_cipher_crypt : CIPHER_CTX -> list Z -> option (CIPHER_CTX * list Z).
Variable mac_digest : MAC_CTX -> list Z -> option (list Z).

(** Modelled from the spec: [ssh_mac_compute(ctx, out, seq_num, data, len)]
    of ssh/mac.c, "compute(ctx, out, seq_num_u32_be, packet_bytes)": the
    sequence number "must be prepended to the MAC input as a 4-byte
    big-endian integer".  A [NULL] context fails. *)
Definition ssh_mac_compute (ctx : option MAC_CTX) (seq : Z) (bytes : list Z)
  : option (list Z) :=
  match ctx with
  | None => None
  | Some c => mac_digest c (ssh_buf_set_u32 seq ++ bytes)
  end.

(** [struct SSH_STREAM] (ssh/stream.h), with the fields stream.c uses. *)
Record SSH_STREAM : Type := mkstream {
  seq_num : Z;
  pack : SSH_BUFFER;
  pack_enc : SSH_BUFFER;
  net_buffer : SSH_BUFFER;
  cipher_type : SSH_CIPHER_TYPE;
  cipher_block_len : Z;
  cipher_ctx : option CIPHER_CTX;
  mac_type : SSH_MAC_TYPE;
  mac_len : Z;
  mac_ctx : option MAC_CTX
}.

(** Pointers to the three buffers of a stream ([&stream->pack], ...). *)
Inductive BUF_REF : Type := PACK | PACK_ENC | NET_BUFFER.

Definition buf_at (r : BUF_REF) (s : SSH_STREAM) : SSH_BUFFER :=
  match r with
  | PACK => pack s
  | PACK_ENC => pack_enc s
  | NET_BUFFER => net_buffer s
  end.

Definition buf_set (r : BUF_REF) (b : SSH_BUFFER) (s : SSH_STREAM) : SSH_STREAM :=
  match r with
  | PACK =>
      mkstream (seq_num s) b (pack_enc s) (net_buffer s) (cipher_type s)
        (cipher_block_len s) (cipher_ctx s) (mac_type s) (mac_len s) (mac_ctx s)
  | PACK_ENC =>
      mkstream (seq_num s) (pack s) b (net_buffer s) (cipher_type s)
        (cipher_block_len s) (cipher_ctx s) (mac_type s) (mac_len s) (mac_ctx s)
  | NET_BUFFER =>
      mkstream (seq_num s) (pack s) (pack_enc s) b (cipher_type s)
        (cipher_block_len s) (cipher_ctx s) (mac_type s) (mac_len s) (mac_ctx s)
  end.

Definition set_seq_num (n : Z) (s : SSH_STREAM) : SSH_STREAM :=
  mkstream n (pack s) (pack_enc s) (net_buffer s) (cipher_type s)
    (cipher_block_len s) (cipher_ctx s) (mac_type s) (mac_len s) (mac_ctx s).

Definition set_cipher_ctx (c : option CIPHER_CTX) (s : SSH_STREAM) : SSH_STREAM :=
  mkstream (seq_num s) (pack s) (pack_enc s) (net_buffer s) (cipher_type s)
    (cipher_block_len s) c (mac_type s) (mac_len s) (mac_ctx s).

(** *** The state-and-error monad of stream.c

    A C function of stream.c works on [*stream] and on the socket and
    returns 0 or -1; what it did to the stream before it returned -1 stays
    done. *)
Definition ST : Type := (SSH_STREAM * WORLD)%type.
Definition M (A : Type) : Type := ST -> ST * result A.

Definition ret {A} (a : A) : M A := fun st => (st, Ok a).
Definition fail {A} (e : SSH_ERROR) : M A := fun st => (st, Err e).
Definition bind {A B} (m : M A) (k : A -> M B) : M B :=
  fun st =>
    match m st with
    | (st', Ok a) => k a st'
    | (st', Err e) => (st', Err e)
    end.

Notation "x <- m ;; k" := (bind m (fun x => k))
  (at level 61, m at next level, right associativity).
Notation "m ;; k" := (bind m (fun _ => k))
  (at level 61, right associativity).

Definition get_stream : M SSH_STREAM := fun st => (st, Ok (fst st)).
Definition upd_stream (f : SSH_STREAM -> SSH_STREAM) : M unit :=
  fun st => ((f (fst st), snd st), Ok tt).

(** [ssh_buf_clear(r)]. *)
Definition buf_clear (r : BUF_REF) : M unit :=
  upd_stream (fun s => buf_set r (ssh_buf_clear (buf_at r s)) s).

(** [p = ssh_buf_get_write_pointer(r, n)].  The [NULL] result of the
    allocator, on which stream.c returns -1 (lines 117-118, 129-130,
    238-239, 246-247, 261-262 and 269-270), is left out: allocation is
    taken to succeed. *)
Definition buf_get_write_pointer (r : BUF_REF) (n : nat) : M nat :=
  fun st =>
    let '(b, p) := ssh_buf_get_write_pointer (buf_at r (fst st)) n in
    ((buf_set r b (fst st), snd st), Ok p).

(** [ssh_buf_grow(r, n)].  Its negative result, on which stream.c returns
    -1 (lines 138-139), is left out: allocation is taken to succeed. *)
Definition buf_grow (r : BUF_REF) (n : nat) : M unit :=
  upd_stream (fun s => buf_set r (ssh_buf_grow (buf_at r s) n) s).

(** [r->len = n]. *)
Definition buf_set_len (r : BUF_REF) (n : nat) : M unit :=
  upd_stream (fun s => buf_set r (mkbuf (data (buf_at r s)) n) s).

(** A store of [src] at [r->data + p] ([memcpy], [memset], a single octet). *)
Definition store (r : BUF_REF) (p : nat) (src : list Z) : M unit :=
  upd_stream (fun s =>
    buf_set r (mkbuf (poke p src (data (buf_at r s))) (len (buf_at r s))) s).

(** [crypto_random_gen(r->data + p, n)]. *)
Definition random_gen (r : BUF_REF) (p : nat) (n : nat) : M unit :=
  fun st =>
    let '(bytes, w) := crypto_random_gen (snd st) n in
    store r p bytes (fst st, w).

(** [ssh_cipher_crypt(stream->cipher_ctx, r->data + p, input, len) < 0]. *)
Definition cipher_crypt (r : BUF_REF) (p : nat) (input : list Z) : M unit :=
  fun st =>
    match cipher_ctx (fst st) with
    | None => (st, Err ERR_CIPHER)
    | Some c =>
        match ssh_cipher_crypt c input with
        | None => (st, Err ERR_CIPHER)
        | Some (c', out) => store r p out (set_cipher_ctx (Some c') (fst st), snd st)
        end
    end.

(** [ssh_mac_compute(stream->mac_ctx, out, seq, input, len) < 0], the digest
    is returned to the caller, which knows where [out] points. *)
Definition mac_compute (seq : Z) (input : list Z) : M (list Z) :=
  fun st =>
    match ssh_mac_compute (mac_ctx (fst st)) seq input with
    | None => (st, Err ERR_MAC)
    | Some digest => (st, Ok digest)
    end.

(** [ssh_net_write_all(sock, bytes, len) < 0]. *)
Definition net_write_all (bytes : list Z) : M unit :=
  fun st =>
    match ssh_net_write_all (snd st) bytes with
    | None => (st, Err ERR_IO)
    | Some w => ((fst st, w), Ok tt)
    end.

(** [ssh_net_read_all(sock, r->data + p, n) < 0]. *)
Definition net_read_all (r : BUF_REF) (p : nat) (n : nat) : M unit :=
  fun st =>
    match ssh_net_read_all (snd st) n with
    | None => (st, Err ERR_IO)
    | Some (bytes, w) => store r p bytes (fst st, w)
    end.

(** [ssh_buf_remove_data(r, off, n) < 0]. *)
Definition buf_remove_data (r : BUF_REF) (off n : nat) : M unit :=
  fun st =>
    match ssh_buf_remove_data (buf_at r (fst st)) off n with
    | None => (st, Err ERR_BUFFER)
    | Some b => ((buf_set r b (fst st), snd st), Ok tt)
    end.

(** *** stream.c *)

(** [void ssh_stream_init(struct SSH_STREAM *stream)]. *)
Definition ssh_stream_init : SSH_STREAM :=
  mkstream 0 ssh_buf_new ssh_buf_new ssh_buf_new
    SSH_CIPHER_NONE 0 None
    SSH_MAC_NONE 0 None.

(** [struct SSH_BUFFER *ssh_stream_new_packet(struct SSH_STREAM *stream)];
    the returned pointer is [PACK].  The [NULL] result of lines 87-89, when
    one of the two header writes finds no memory, is left out: allocation
    is taken to succeed. *)
Definition ssh_stream_new_packet : M BUF_REF :=
  buf_clear PACK ;;
  upd_stream (fun s => buf_set PACK (ssh_buf_write_u32 (pack s) 0) s) ;;  (* pack_len *)
  upd_stream (fun s => buf_set PACK (ssh_buf_write_u8 (pack s) 0) s) ;;   (* pad_len *)
  ret PACK.

(** What a caller does with the buffer [ssh_stream_new_packet] returned: it
    appends the payload to it. *)
Definition write_payload (r : BUF_REF) (payload : list Z) : M unit :=
  upd_stream (fun s => buf_set r (ssh_buf_append_data (buf_at r s) payload) s).

(** [static int finish_packet(struct SSH_STREAM *stream)], in the three
    parts its comments divide it into.  Lines 115-125: write padding, then
    the two header fields. *)
Definition write_padding : M unit :=
  s <- get_stream ;;
  let pad_len :=
    calc_pad_len (u32 (Z.of_nat (len (pack s)))) (u8 (cipher_block_len s)) in
  p <- buf_get_write_pointer PACK (Z.to_nat pad_len) ;;
  (if is_cipher_none (cipher_type s)
   then store PACK p (repeat 255 (Z.to_nat pad_len))
   else random_gen PACK p (Z.to_nat pad_len)) ;;
  s <- get_stream ;;
  store PACK 0 (ssh_buf_set_u32 (Z.of_nat (len (pack s)) - 4)) ;;
  store PACK 4 [pad_len].

(** Lines 127-133: encrypt the whole packet into [pack_enc]. *)
Definition encrypt_packet : M unit :=
  s <- get_stream ;;
  if negb (is_cipher_none (cipher_type s)) then
    buf_clear PACK_ENC ;;
    p <- buf_get_write_pointer PACK_ENC (len (pack s)) ;;
    cipher_crypt PACK_ENC p (contents (pack s))
  else ret tt.

(** Lines 135-144: write mac past end of packet. *)
Definition write_mac : M unit :=
  s <- get_stream ;;
  if negb (is_mac_none (mac_type s)) then
    let write_pack := if is_cipher_none (cipher_type s) then PACK else PACK_ENC in
    (* only grow buffer, don't change its nominal length *)
    buf_grow write_pack (Z.to_nat (mac_len s)) ;;
    (* calculate MAC *)
    digest <- mac_compute (seq_num s) (contents (pack s)) ;;
    store write_pack (len (buf_at write_pack s)) digest
  else ret tt.

Definition finish_packet : M unit :=
  write_padding ;; encrypt_packet ;; write_mac.

(** [int ssh_stream_send_packet(struct SSH_STREAM *stream, int sock)]. *)
Definition ssh_stream_send_packet : M unit :=
  s <- get_stream ;;
  let write_pack := if is_cipher_none (cipher_type s) then PACK else PACK_ENC in
  finish_packet ;;
  upd_stream (fun s => set_seq_num (u32 (seq_num s + 1)) s) ;;
  s <- get_stream ;;
  net_write_all
    (firstn (len (buf_at write_pack s) + Z.to_nat (mac_len s))
       (data (buf_at write_pack s))).

(** [static int verify_read_packet(struct SSH_STREAM *stream)].  Its only
    caller has made [pack.len >= 5], so the unsigned [pack.len-5] does not
    wrap; [pack.data[4]] is a [uint8_t].  For a [cipher_block_len] that is
    a non-zero multiple of 256 the [uint8_t block_len] is 0 and line 178
    divides by zero, where the model returns the block error: the model
    follows the code for the block lengths of [block_len_ok] (below 256)
    only. *)
Definition verify_read_packet : M unit :=
  s <- get_stream ;;
  let pad := u8 (nth 4 (data (pack s)) 0) in
  (* check padding *)
  if (pad <? 4) || (Z.of_nat (len (pack s)) - 5 <? pad) then fail ERR_PAD_LENGTH
  else
    let block_len :=
      u8 (if negb (cipher_block_len s =? 0) then cipher_block_len s else 8) in
    if negb (Z.of_nat (len (pack s)) mod block_len =? 0) then fail ERR_PAD_BLOCK
    else
      (* check mac *)
      if negb (is_mac_none (mac_type s)) then
        digest <- mac_compute (seq_num s) (contents (pack s)) ;;
        if negb (memcmp digest (skipn (len (pack s)) (data (pack s)))
                   (Z.to_nat (mac_len s)) =? 0)
        then fail ERR_BAD_MAC
        else ret tt
      else ret tt.

(** [static int stream_recv_data(struct SSH_STREAM *stream, int sock,
    uint8_t *data, size_t data_len)], with [data = r->data + p]. *)
Definition stream_recv_data (r : BUF_REF) (p : nat) (data_len : nat) : M unit :=
  s <- get_stream ;;
  left <-
    (if (0 <? len (net_buffer s))%nat then
       let len_from_buffer := Nat.min (len (net_buffer s)) data_len in
       store r p (firstn len_from_buffer (data (net_buffer s))) ;;
       buf_remove_data NET_BUFFER 0 len_from_buffer ;;
       ret ((p + len_from_buffer)%nat, (data_len - len_from_buffer)%nat)
     else ret (p, data_len)) ;;
  let p := fst left in
  let data_len := snd left in
  if (0 <? data_len)%nat then net_read_all r p data_len else ret tt.

(** Lines 233-250 of [ssh_stream_recv_packet]: read the first block and
    decrypt it. *)
Definition recv_first_block : M unit :=
  s <- get_stream ;;
  let read_pack := if is_cipher_none (cipher_type s) then PACK else PACK_ENC in
  (* read first block to discover the packet length *)
  let first_block_len :=
    u32 (if cipher_block_len s =? 0 then 8 else cipher_block_len s) in
  buf_clear read_pack ;;
  p <- buf_get_write_pointer read_pack (Z.to_nat first_block_len) ;;
  stream_recv_data read_pack p (Z.to_nat first_block_len) ;;
  (* decrypt first block *)
  if negb (is_cipher_none (cipher_type s)) then
    buf_clear PACK ;;
    p <- buf_get_write_pointer PACK (Z.to_nat first_block_len) ;;
    s <- get_stream ;;
    cipher_crypt PACK p (contents (buf_at read_pack s))
  else ret tt.

(** Lines 252-265: get packet length and read rest of the packet. *)
Definition recv_remainder : M unit :=
  s <- get_stream ;;
  let read_pack := if is_cipher_none (cipher_type s) then PACK else PACK_ENC in
  let first_block_len :=
    u32 (if cipher_block_len s =? 0 then 8 else cipher_block_len s) in
  let pack_len := ssh_buf_get_u32 (data (pack s)) in
  if (pack_len =? 0) || (65536 <? pack_len) then fail ERR_PACKET_SIZE
  else
    let remainder_len := u32 (pack_len + mac_len s - first_block_len + 4) in
    p <- buf_get_write_pointer read_pack (Z.to_nat remainder_len) ;;
    stream_recv_data read_pack p (Z.to_nat remainder_len) ;;
    buf_set_len read_pack (Z.to_nat (u32 (pack_len + 4))).

(** Lines 267-275: decrypt rest of the packet (excluding mac); [pack_len]
    is the local variable set at line 253.  When [remainder_len < mac_len]
    (a length field too small for the first block) the [uint32_t]
    difference wraps to about 4 GiB, which the C code hands to the
    allocator and to the cipher; the model hands the cipher the octets
    that are there, so it follows the code only for
    [mac_len <= remainder_len]. *)
Definition decrypt_remainder (pack_len : Z) : M unit :=
  s <- get_stream ;;
  let read_pack := if is_cipher_none (cipher_type s) then PACK else PACK_ENC in
  let first_block_len :=
    u32 (if cipher_block_len s =? 0 then 8 else cipher_block_len s) in
  let remainder_len := u32 (pack_len + mac_len s - first_block_len + 4) in
  if negb (is_cipher_none (cipher_type s)) then
    p <- buf_get_write_pointer PACK (Z.to_nat (u32 (remainder_len - mac_len s))) ;;
    cipher_crypt PACK p
      (firstn (Z.to_nat (u32 (remainder_len - mac_len s)))
         (skipn (Z.to_nat first_block_len) (data (buf_at read_pack s)))) ;;
    store PACK (Z.to_nat (u32 (pack_len + 4)))
      (firstn (Z.to_nat (mac_len s))
         (skipn (Z.to_nat (u32 (pack_len + 4))) (data (buf_at read_pack s)))) ;;
    buf_set_len PACK (Z.to_nat (u32 (pack_len + 4)))
  else ret tt.

(** Lines 252-281 of [ssh_stream_recv_packet]. *)
Definition recv_rest : M unit :=
  s <- get_stream ;;
  let pack_len := ssh_buf_get_u32 (data (pack s)) in
  recv_remainder ;;
  decrypt_remainder pack_len ;;
  verify_read_packet ;;
  upd_stream (fun s => set_seq_num (u32 (seq_num s + 1)) s).

(** [int ssh_stream_recv_packet(struct SSH_STREAM *stream, int sock)]. *)
Definition ssh_stream_recv_packet : M unit :=
  recv_first_block ;; recv_rest.

(** Modelled from the spec: the payload accessor of ssh/connection.c, "expose
    the payload as the octets at offset 5 through [pack_len + 4 - pad_len]
    (exclusive)". *)
Definition recv_payload (s : SSH_STREAM) : list Z :=
  let pack_len := ssh_buf_get_u32 (data (pack s)) in
  let pad_len := u8 (nth 4 (data (pack s)) 0) in
  firstn (Z.to_nat (pack_len + 4 - pad_len) - 5) (skipn 5 (data (pack s))).

End Stream.

Arguments mkstream {CIPHER_CTX MAC_CTX}.
Arguments seq_num {CIPHER_CTX MAC_CTX}.
Arguments pack {CIPHER_CTX MAC_CTX}.
Arguments pack_enc {CIPHER_CTX MAC_CTX}.
Arguments net_buffer {CIPHER_CTX MAC_CTX}.
Arguments cipher_type {CIPHER_CTX MAC_CTX}.
Arguments cipher_block_len {CIPHER_CTX MAC_CTX}.
Arguments cipher_ctx {CIPHER_CTX MAC_CTX}.
Arguments mac_type {CIPHER_CTX MAC_CTX}.
Arguments mac_len {CIPHER_CTX MAC_CTX}.
Arguments mac_ctx {CIPHER_CTX MAC_CTX}.
Arguments buf_at {CIPHER_CTX MAC_CTX}.
Arguments buf_set {CIPHER_CTX MAC_CTX}.
Arguments set_seq_num {CIPHER_CTX MAC_CTX}.
Arguments set_cipher_ctx {CIPHER_CTX MAC_CTX}.
Arguments ssh_mac_compute {MAC_CTX}.
Arguments ret {CIPHER_CTX MAC_CTX A}.
Arguments fail {CIPHER_CTX MAC_CTX A}.
Arguments bind {CIPHER_CTX MAC_CTX A B}.
Arguments get_stream {CIPHER_CTX MAC_CTX}.
Arguments upd_stream {CIPHER_CTX MAC_CTX}.
Arguments buf_clear {CIPHER_CTX MAC_CTX}.
Arguments buf_get_write_pointer {CIPHER_CTX MAC_CTX}.
Arguments buf_grow {CIPHER_CTX MAC_CTX}.
Arguments buf_set_len {CIPHER_CTX MAC_CTX}.
Arguments store {CIPHER_CTX MAC_CTX}.
Arguments random_gen {CIPHER_CTX MAC_CTX}.
Arguments cipher_crypt {CIPHER_CTX MAC_CTX}.
Arguments mac_compute {CIPHER_CTX MAC_CTX}.
Arguments net_write_all {CIPHER_CTX MAC_CTX}.
Arguments net_read_all {CIPHER_CTX MAC_CTX}.
Arguments buf_remove_data {CIPHER_CTX MAC_CTX}.
Arguments ssh_stream_init {CIPHER_CTX MAC_CTX}.
Arguments ssh_stream_new_packet {CIPHER_CTX MAC_CTX}.
Arguments write_payload {CIPHER_CTX MAC_CTX}.
Arguments write_padding {CIPHER_CTX MAC_CTX}.
Arguments encrypt_packet {CIPHER_CTX MAC_CTX}.
Arguments write_mac {CIPHER_CTX MAC_CTX}.
Arguments finish_packet {CIPHER_CTX MAC_CTX}.
Arguments ssh_stream_send_packet {CIPHER_CTX MAC_CTX}.
Arguments verify_read_packet {CIPHER_CTX MAC_CTX}.
Arguments stream_recv_data {CIPHER_CTX MAC_CTX}.
Arguments recv_first_block {CIPHER_CTX MAC_CTX}.
Arguments recv_remainder {CIPHER_CTX MAC_CTX}.
Arguments decrypt_remainder {CIPHER_CTX MAC_CTX}.
Arguments recv_rest {CIPHER_CTX MAC_CTX}.
Arguments ssh_stream_recv_packet {CIPHER_CTX MAC_CTX}.
Arguments recv_payload {CIPHER_CTX MAC_CTX}.

Notation "x <- m ;; k" := (bind m (fun x => k))
  (at level 61, m at next level, right associativity).
Notation "m ;; k" := (bind m (fun _ => k))
  (at level 61, right associativity).

(* ------------------------------------------------------------------ *)
(** ** Vocabulary of the statements *)

(** The wire format of a packet before encryption: [uint32 packet_length],
    [byte padding_length], payload, padding. *)
Definition frame (payload : list Z) (pad_len : Z) (fill : list Z) : list Z :=
  ssh_buf_set_u32 (1 + Z.of_nat (length payload) + pad_len)
    ++ pad_len :: payload ++ fill.

(** The padding length [finish_packet] computes for a payload: the packet
    before padding is the 5 header octets and the payload. *)
Definition pad_len_of (payload : list Z) (cipher_block_len : Z) : Z :=
  calc_pad_len (u32 (Z.of_nat (5 + length payload))) (u8 cipher_block_len).

(** The padding octets [finish_packet] writes and what is left of the
    generator: the 0xff filler without a cipher, random octets with one. *)
Definition pad_fill (none : bool) (w : WORLD) (n : nat) : list Z * WORLD :=
  if none then (repeat 255 n, w) else crypto_random_gen w n.

(** What a caller of [ssh_stream_new_packet] does next (as
    [dh_kex_send_init_msg] does through ssh/connection.c): it writes the
    payload into the buffer it was handed. *)
Definition start_packet {CIPHER_CTX MAC_CTX} (payload : list Z)
  : M CIPHER_CTX MAC_CTX unit :=
  r <- ssh_stream_new_packet ;; write_payload r payload.

(** New packet, payload, send. *)
Definition send_payload {CIPHER_CTX MAC_CTX}
    (ssh_cipher_crypt : CIPHER_CTX -> list Z -> option (CIPHER_CTX * list Z))
    (mac_digest : MAC_CTX -> list Z -> option (list Z))
    (payload : list Z) : M CIPHER_CTX MAC_CTX unit :=
  start_packet payload ;; ssh_stream_send_packet ssh_cipher_crypt mac_digest.

(** The fields of a stream that are set when keys are installed and the
    sequence number: nothing but [seq_num++] changes them while packets are
    sent and received. *)
Definition config {CIPHER_CTX MAC_CTX} (s : SSH_STREAM CIPHER_CTX MAC_CTX) :=
  (seq_num s, cipher_type s, cipher_block_len s, mac_type s, mac_len s, mac_ctx s).

(** An action that leaves [config] alone, whether it succeeds or fails. *)
Definition keeps_config {CIPHER_CTX MAC_CTX A} (m : M CIPHER_CTX MAC_CTX A) : Prop :=
  forall st, config (fst (fst (m st))) = config (fst st).

(** An action that never returns the error [e]. *)
Definition never_fails_with {CIPHER_CTX MAC_CTX A} (e : SSH_ERROR)
    (m : M CIPHER_CTX MAC_CTX A) : Prop :=
  forall st st', m st <> (st', Err e).

(** The octets a stream can still read: its read-ahead buffer, then the
    socket. *)
Definition pending {CIPHER_CTX MAC_CTX} (s : SSH_STREAM CIPHER_CTX MAC_CTX)
    (w : WORLD) : list Z :=
  contents (net_buffer s) ++ net_rx w.

(** The block length both directions work with, as [verify_read_packet]
    and the first read of [ssh_stream_recv_packet] compute it. *)
Definition recv_block_len (cipher_block_len : Z) : Z :=
  if cipher_block_len =? 0 then 8 else cipher_block_len.

(** Contract of the cipher: [ssh_cipher_crypt(ctx, out, in, len)] writes
    [len] octets. *)
Definition cipher_keeps_length {CIPHER_CTX}
    (ssh_cipher_crypt : CIPHER_CTX -> list Z -> option (CIPHER_CTX * list Z))
  : Prop :=
  forall c x c' y, ssh_cipher_crypt c x = Some (c', y) -> length y = length x.

(** Contract of the MAC: without a MAC [mac_len] is 0, with one every digest
    has [mac_len] octets ("MAC output length is fixed per algorithm for the
    life of the key"). *)
Definition mac_len_ok {CIPHER_CTX MAC_CTX}
    (mac_digest : MAC_CTX -> list Z -> option (list Z))
    (s : SSH_STREAM CIPHER_CTX MAC_CTX) : Prop :=
  0 <= mac_len s < 2147483648
  /\ (is_mac_none (mac_type s) = true -> mac_len s = 0)
  /\ (forall c x m, mac_ctx s = Some c -> mac_digest c x = Some m ->
        length m = Z.to_nat (mac_len s)).

(** "Cipher block length is >= 8 when a cipher is installed"; the block
    length is handed to [calc_pad_len] as a [uint8_t], and a [uint8_t]
    padding length has room for blocks of up to 252 octets. *)
Definition block_len_ok {CIPHER_CTX MAC_CTX}
    (s : SSH_STREAM CIPHER_CTX MAC_CTX) : Prop :=
  cipher_block_len s = 0 \/ 8 <= cipher_block_len s <= 252.

(** Matching cipher state of a sender and a receiver: what the sender's
    context encrypts in one call, the receiver's context decrypts in two,
    first block and rest. *)
Definition cipher_matching {CIPHER_CTX}
    (ssh_cipher_crypt : CIPHER_CTX -> list Z -> option (CIPHER_CTX * list Z))
    (first_block_len : nat) (enc dec : option CIPHER_CTX) : Prop :=
  forall e plain e' c,
    enc = Some e ->
    (first_block_len <= length plain)%nat ->
    ssh_cipher_crypt e plain = Some (e', c) ->
    exists d d1 d2,
      dec = Some d
      /\ ssh_cipher_crypt d (firstn first_block_len c)
         = Some (d1, firstn first_block_len plain)
      /\ ssh_cipher_crypt d1 (skipn first_block_len c)
         = Some (d2, skipn first_block_len plain).

(** Matching state of a sending and a receiving stream. *)
Definition streams_match {CIPHER_CTX MAC_CTX}
    (ssh_cipher_crypt : CIPHER_CTX -> list Z -> option (CIPHER_CTX * list Z))
    (snd_s rcv_s : SSH_STREAM CIPHER_CTX MAC_CTX) : Prop :=
  config rcv_s = config snd_s
  /\ (is_cipher_none (cipher_type snd_s) = false ->
      cipher_matching ssh_cipher_crypt
        (Z.to_nat (recv_block_len (cipher_block_len snd_s)))
        (cipher_ctx snd_s) (cipher_ctx rcv_s)).

(** A read-ahead buffer whose logical content is all in its store. *)
Definition net_buffer_ok {CIPHER_CTX MAC_CTX}
    (s : SSH_STREAM CIPHER_CTX MAC_CTX) : Prop :=
  (len (net_buffer s) <= length (data (net_buffer s)))%nat.

(** The two rejections of stream.c that are about the packet length: the
    size check after the first block and the block-multiple check of
    [verify_read_packet]. *)
Definition is_invalid_length (r : result unit) : bool :=
  match r with
  | Err ERR_PACKET_SIZE | Err ERR_PAD_BLOCK => true
  | _ => false
  end.

(** Receive-side length validation as the specification words it: once the
    first block is read and decrypted, the packet is rejected for its
    length exactly when [pack_len] is 0, or greater than 65535, or
    [pack_len + 4] is not a multiple of [max(cipher_block_len, 8)]. *)
Definition length_validation_as_specified {CIPHER_CTX MAC_CTX}
    (ssh_cipher_crypt : CIPHER_CTX -> list Z -> option (CIPHER_CTX * list Z))
    (mac_digest : MAC_CTX -> list Z -> option (list Z))
    (st : ST CIPHER_CTX MAC_CTX) : Prop :=
  forall st1,
    recv_first_block ssh_cipher_crypt st = (st1, Ok tt) ->
    let pack_len := ssh_buf_get_u32 (data (pack (fst st1))) in
    let block := Z.max (cipher_block_len (fst st)) 8 in
    is_invalid_length (snd (ssh_stream_recv_packet ssh_cipher_crypt mac_digest st))
      = true
    <-> (pack_len = 0 \/ 65535 < pack_len \/ (pack_len + 4) mod block <> 0).

(** Send-side sequence-number timing as the specification words it: a send
    that does not succeed leaves [seq_num] unchanged. *)
Definition seq_num_after_write_only {CIPHER_CTX MAC_CTX}
    (ssh_cipher_crypt : CIPHER_CTX -> list Z -> option (CIPHER_CTX * list Z))
    (mac_digest : MAC_CTX -> list Z -> option (list Z))
    (st : ST CIPHER_CTX MAC_CTX) : Prop :=
  let out := ssh_stream_send_packet ssh_cipher_crypt mac_digest st in
  snd out <> Ok tt -> seq_num (fst (fst out)) = seq_num (fst st).

(* ------------------------------------------------------------------ *)
(** ** A small cipher and a small MAC to run the model on *)

(** A stream cipher: octet [i] of the stream is xor-ed with the low octet of
    [k + i], and the context moves on by the number of octets. *)
Fixpoint toy_xor (k : Z) (bs : list Z) : list Z :=
  match bs with
  | [] => []
  | b :: t => Z.lxor b (u8 k) :: toy_xor (k + 1) t
  end.

Definition toy_crypt (k : Z) (bs : list Z) : option (Z * list Z) :=
  Some (k + Z.of_nat (length bs), toy_xor k bs).

(** A keyed checksum of 4 octets. *)
Definition toy_mac (k : Z) (bs : list Z) : option (list Z) :=
  Some (ssh_buf_set_u32 (fold_left (fun acc b => u32 (acc * 31 + b)) bs k)).

Definition TOY_STREAM : Type := SSH_STREAM Z Z.

(** A stream with the small cipher (block length 16) and MAC installed. *)
Definition toy_keyed (seq key mkey : Z) : TOY_STREAM :=
  mkstream seq ssh_buf_new ssh_buf_new ssh_buf_new
    (SSH_CIPHER_ALGO 1) 16 (Some key)
    (SSH_MAC_ALGO 1) 4 (Some mkey).

Definition quiet_world : WORLD := mkworld [] [] true [].

(** The payload of the null-cipher scenario: [{0x05, 'h', 'e', 'l', 'l', 'o'}]. *)
Definition hello : list Z := [5; 104; 101; 108; 108; 111].

(** The null-cipher scenario: what [hello] leaves on the socket when it is
    sent on a fresh stream, and a fresh stream about to read these octets. *)
Definition hello_sent : ST Z Z * result unit :=
  send_payload toy_crypt toy_mac hello (ssh_stream_init, quiet_world).

Definition hello_wire : list Z := net_tx (snd (fst hello_sent)).

(** The wire octets the specification's scenario 1 expects for [hello]. *)
Definition hello_wire_specified : list Z :=
  [0; 0; 0; 12; 6; 5; 104; 101; 108; 108; 111; 255; 255; 255; 255; 255; 255].

(** A world whose socket delivers [bytes]. *)
Definition incoming (bytes : list Z) : WORLD := mkworld bytes [] true [].

(** The keyed scenario: [hello] sent on a stream with the small cipher and
    MAC, sequence number 7, and the generator handing out 1, 2, 3, ... *)
Definition keyed_world : WORLD :=
  mkworld [] [] true [1; 2; 3; 4; 5; 6; 7; 8; 9; 10; 11; 12; 13; 14; 15; 16].

Definition keyed_sent : ST Z Z * result unit :=
  send_payload toy_crypt toy_mac hello (toy_keyed 7 3 9, keyed_world).

Definition keyed_wire : list Z := net_tx (snd (fst keyed_sent)).

(** [keyed_wire] with the last bit of the last payload octet flipped in
    transit (the octet at offset 10 of the ciphertext). *)
Definition keyed_wire_flipped : list Z :=
  firstn 10 keyed_wire ++ Z.lxor (nth 10 keyed_wire 0) 1 :: skipn 11 keyed_wire.

(** [keyed_wire] with a forged MAC that is wrong in its first octet, and
    with one that is wrong only in its last octet. *)
Definition keyed_wire_forged_first : list Z :=
  firstn 16 keyed_wire ++ Z.lxor (nth 16 keyed_wire 0) 1 :: skipn 17 keyed_wire.

Definition keyed_wire_forged_last : list Z :=
  firstn 19 keyed_wire ++ [Z.lxor (nth 19 keyed_wire 0) 1].

(** A payload too long for the receiver: its packet_length exceeds 65536. *)
Definition big_payload : list Z := repeat 0 (Z.to_nat 65528).

Definition big_sent : ST Z Z * result unit :=
  send_payload toy_crypt toy_mac big_payload (ssh_stream_init, quiet_world).

(** A first block that announces [pack_len = 13] with a padding length of
    0, followed by the rest of such a packet. *)
Definition odd_length_wire : list Z :=
  [0; 0; 0; 13; 0; 0; 0; 0; 0; 0; 0; 0; 0; 0; 0; 0; 0].

(** The specification's scenario 3: [FF FF FF FF 04 ...]. *)
Definition huge_length_wire : list Z := [255; 255; 255; 255; 4; 0; 0; 0].

(** A fresh stream holding a packet for [hello], on a socket that refuses
    writes. *)
Definition closed_world : WORLD := mkworld [] [] false [].

Definition hello_on_closed_socket : ST Z Z :=
  fst (start_packet hello (ssh_stream_init, closed_world)).

(** The null-cipher scenario as the specification words it: the wire
    octets are [hello_wire_specified], and receiving them reproduces the
    payload. *)
Definition null_cipher_example_as_specified : Prop :=
  snd hello_sent = Ok tt
  /\ hello_wire = hello_wire_specified
  /\ recv_payload
       (fst (fst (ssh_stream_recv_packet toy_crypt toy_mac
                    (ssh_stream_init, incoming hello_wire_specified))))
     = hello.

(* ------------------------------------------------------------------ *)
(** ** ssh/kex_dh.c: the exchange hash *)

Module KexDh.

Section Hash.

(** [enum SSH_HASH_TYPE] and [ssh_hash_compute] of ssh/hash.c, the hash
    collaborator ("stateless compute(algo, out, in)"). *)
Variable SSH_HASH_TYPE : Type.
Variable ssh_hash_compute : SSH_HASH_TYPE -> list Z -> option (list Z).

(** [struct SSH_VERSION_STRING]: [buf] and [len]. *)
Record SSH_VERSION_STRING : Type := mkversion {
  buf : list Z;
  vlen : nat
}.

(** [struct SSH_CONN], with what [ssh_conn_get_client_version_string] and
    [ssh_conn_get_server_version_string] return. *)
Record SSH_CONN : Type := mkconn {
  client_version : SSH_VERSION_STRING;
  server_version : SSH_VERSION_STRING
}.

(** [struct SSH_KEX], with the fields [dh_kex_hash] reads. *)
Record SSH_KEX : Type := mkkex {
  client_kexinit : SSH_BUFFER;
  server_kexinit : SSH_BUFFER
}.

(** [static int dh_kex_hash(struct SSH_STRING *ret_hash, enum SSH_HASH_TYPE
    hash_type, const struct SSH_STRING *server_host_key, const struct
    SSH_STRING *client_pubkey, const struct SSH_STRING *server_pubkey, const
    struct SSH_STRING *shared_secret, struct SSH_CONN *conn, struct SSH_KEX
    *kex)]; [Some] is [*ret_hash] at return 0, [None] is return -1.  The
    return -1 of lines 113-121, when a buffer write finds no memory, and of
    lines 132-133, when [ssh_str_dup_string] does, are left out:
    allocation is taken to succeed. *)
Definition dh_kex_hash (hash_type : SSH_HASH_TYPE)
    (server_host_key client_pubkey server_pubkey shared_secret : list Z)
    (conn : SSH_CONN) (kex : SSH_KEX) : option (list Z) :=
  let client_version := client_version conn in
  let server_version := server_version conn in
  let data := ssh_buf_new in
  let data := ssh_buf_write_data data
                (firstn (vlen client_version) (buf client_version)) in
  let data := ssh_buf_write_data data
                (firstn (vlen server_version) (buf server_version)) in
  let data := ssh_buf_write_buffer data (client_kexinit kex) in
  let data := ssh_buf_write_buffer data (server_kexinit kex) in
  let data := ssh_buf_write_string data server_host_key in
  let data := ssh_buf_write_string data client_pubkey in
  let data := ssh_buf_write_string data server_pubkey in
  let data := ssh_buf_write_string data shared_secret in
  (* hash data *)
  let data_str := contents data in
  match ssh_hash_compute hash_type data_str with
  | None => None
  | Some hash => Some hash
  end.

End Hash.

(** The SSH [string] type: "u32 length prefix + bytes". *)
Definition ssh_string (bytes : list Z) : list Z :=
  ssh_buf_set_u32 (Z.of_nat (length bytes)) ++ bytes.

(** The exchange hash as RFC 4253 section 8 and the specification have it:
    [Hash(V_C || V_S || I_C || I_S || K_S || e || f || K)], every element an
    SSH string. *)
Definition exchange_hash_input (V_C V_S I_C I_S K_S e f K : list Z) : list Z :=
  ssh_string V_C ++ ssh_string V_S ++ ssh_string I_C ++ ssh_string I_S
    ++ ssh_string K_S ++ ssh_string e ++ ssh_string f ++ ssh_string K.

End KexDh.

(* ------------------------------------------------------------------ *)
(** ** Vocabulary of the further properties *)

(** An action that leaves the observation [f] of the state alone, whether
    it succeeds or fails. *)
Definition keeps {CIPHER_CTX MAC_CTX X A} (f : ST CIPHER_CTX MAC_CTX -> X)
    (m : M CIPHER_CTX MAC_CTX A) : Prop :=
  forall st, f (fst (m st)) = f st.

(** What the receive path works on: the socket's incoming octets and the
    read-ahead buffer. *)
Definition recv_side {CIPHER_CTX MAC_CTX} (st : ST CIPHER_CTX MAC_CTX) :=
  (net_rx (snd st), net_buffer (fst st)).

(** What the send path works on: the socket's outgoing octets, whether it
    takes more, and the random generator. *)
Definition send_side {CIPHER_CTX MAC_CTX} (st : ST CIPHER_CTX MAC_CTX) :=
  (net_tx (snd st), net_wr_ok (snd st), rand_pool (snd st)).

(** The algorithms of a stream and its MAC key: [config] without the
    sequence number. *)
Definition algorithms {CIPHER_CTX MAC_CTX} (s : SSH_STREAM CIPHER_CTX MAC_CTX) :=
  (cipher_type s, cipher_block_len s, mac_type s, mac_len s, mac_ctx s).


(* ------------------------------------------------------------------ *)
(** ** ssh/stream.c: installing keys *)

Section Keys.

Variable CIPHER_CTX : Type.
Variable MAC_CTX : Type.

(** The collaborators of ssh/cipher.c and ssh/mac.c that stream.c calls to
    install keys: [enum SSH_CIPHER_DIRECTION], [ssh_cipher_get_block_len]
    and [ssh_mac_get_len] (an [int], negative for an unknown algorithm),
    [ssh_cipher_new] and [ssh_mac_new] ([NULL] on failure). *)
Variable SSH_CIPHER_DIRECTION : Type.
Variable ssh_cipher_get_block_len : SSH_CIPHER_TYPE -> Z.
Variable ssh_cipher_new :
  SSH_CIPHER_TYPE -> SSH_CIPHER_DIRECTION -> list Z -> list Z -> option CIPHER_CTX.
Variable ssh_mac_get_len : SSH_MAC_TYPE -> Z.
Variable ssh_mac_new : SSH_MAC_TYPE -> list Z -> option MAC_CTX.

(** [int ssh_stream_set_cipher(struct SSH_STREAM *stream, enum
    SSH_CIPHER_TYPE type, enum SSH_CIPHER_DIRECTION dir, struct SSH_STRING
    *iv, struct SSH_STRING *key)]: the stream afterwards and the value
    returned, 0 or -1.  The old context is freed before the new one is
    made, and the pointer is overwritten even when that fails. *)
Definition ssh_stream_set_cipher (type : SSH_CIPHER_TYPE)
    (dir : SSH_CIPHER_DIRECTION) (iv key : list Z)
    (stream : SSH_STREAM CIPHER_CTX MAC_CTX)
  : SSH_STREAM CIPHER_CTX MAC_CTX * Z :=
  let cipher_block_len := ssh_cipher_get_block_len type in
  if cipher_block_len <? 0 then (stream, -1)
  else
    match ssh_cipher_new type dir iv key with
    | None => (set_cipher_ctx None stream, -1)
    | Some ctx =>
        (mkstream (seq_num stream) (pack stream) (pack_enc stream)
           (net_buffer stream) type cipher_block_len (Some ctx)
           (mac_type stream) (mac_len stream) (mac_ctx stream), 0)
    end.

Definition set_mac_ctx (c : option MAC_CTX)
    (s : SSH_STREAM CIPHER_CTX MAC_CTX) : SSH_STREAM CIPHER_CTX MAC_CTX :=
  mkstream (seq_num s) (pack s) (pack_enc s) (net_buffer s) (cipher_type s)
    (cipher_block_len s) (cipher_ctx s) (mac_type s) (mac_len s) c.

(** [int ssh_stream_set_mac(struct SSH_STREAM *stream, enum SSH_MAC_TYPE
    type, struct SSH_STRING *key)]. *)
Definition ssh_stream_set_mac (type : SSH_MAC_TYPE) (key : list Z)
    (stream : SSH_STREAM CIPHER_CTX MAC_CTX)
  : SSH_STREAM CIPHER_CTX MAC_CTX * Z :=
  let mac_len := ssh_mac_get_len type in
  if mac_len <? 0 then (stream, -1)
  else
    match ssh_mac_new type key with
    | None => (set_mac_ctx None stream, -1)
    | Some ctx =>
        (mkstream (seq_num stream) (pack stream) (pack_enc stream)
           (net_buffer stream) (cipher_type stream) (cipher_block_len stream)
           (cipher_ctx stream) type mac_len (Some ctx), 0)
    end.

End Keys.

Arguments ssh_stream_set_cipher {CIPHER_CTX MAC_CTX SSH_CIPHER_DIRECTION}.
Arguments set_mac_ctx {CIPHER_CTX MAC_CTX}.
Arguments ssh_stream_set_mac {CIPHER_CTX MAC_CTX}.

(* ------------------------------------------------------------------ *)
(** ** Packets one after another *)

(** A caller that sends the payloads of a list, one packet each. *)
Fixpoint send_all {CIPHER_CTX MAC_CTX}
    (ssh_cipher_crypt : CIPHER_CTX -> list Z -> option (CIPHER_CTX * list Z))
    (mac_digest : MAC_CTX -> list Z -> option (list Z))
    (payloads : list (list Z)) : M CIPHER_CTX MAC_CTX unit :=
  match payloads with
  | [] => ret tt
  | payload :: rest =>
      send_payload ssh_cipher_crypt mac_digest payload ;;
      send_all ssh_cipher_crypt mac_digest rest
  end.

(** A caller that receives [n] packets and collects their payloads. *)
Fixpoint recv_all {CIPHER_CTX MAC_CTX}
    (ssh_cipher_crypt : CIPHER_CTX -> list Z -> option (CIPHER_CTX * list Z))
    (mac_digest : MAC_CTX -> list Z -> option (list Z))
    (n : nat) : M CIPHER_CTX MAC_CTX (list (list Z)) :=
  match n with
  | O => ret []
  | S k =>
      ssh_stream_recv_packet ssh_cipher_crypt mac_digest ;;
      s <- get_stream ;;
      rest <- recv_all ssh_cipher_crypt mac_digest k ;;
      ret (recv_payload s :: rest)
  end.

(** Cipher contexts of a sender and a receiver that stay in step: what the
    sender's context encrypts in one call the receiver's decrypts in two,
    first block and rest, and the contexts they are left with are in step
    again ("retains chaining state across packets"). *)
Definition cipher_in_step {CIPHER_CTX}
    (ssh_cipher_crypt : CIPHER_CTX -> list Z -> option (CIPHER_CTX * list Z))
    (first_block_len : nat) (R : CIPHER_CTX -> CIPHER_CTX -> Prop) : Prop :=
  forall e d plain e' c,
    R e d ->
    (first_block_len <= length plain)%nat ->
    ssh_cipher_crypt e plain = Some (e', c) ->
    exists d1 d2,
      ssh_cipher_crypt d (firstn first_block_len c)
        = Some (d1, firstn first_block_len plain)
      /\ ssh_cipher_crypt d1 (skipn first_block_len c)
         = Some (d2, skipn first_block_len plain)
      /\ R e' d2.

(** A sending and a receiving stream in step: same [config], and cipher
    contexts related by [R] when a cipher is installed. *)
Definition streams_in_step {CIPHER_CTX MAC_CTX}
    (R : CIPHER_CTX -> CIPHER_CTX -> Prop)
    (snd_s rcv_s : SSH_STREAM CIPHER_CTX MAC_CTX) : Prop :=
  config rcv_s = config snd_s
  /\ (is_cipher_none (cipher_type snd_s) = false ->
      exists e d, cipher_ctx snd_s = Some e /\ cipher_ctx rcv_s = Some d /\ R e d).

(* ------------------------------------------------------------------ *)
(** ** ssh/kex_dh.c: the key exchange *)

Module KexDhRun.

Import String.

(** ssh_constants.h, "DH key exchange". *)
Definition SSH_MSG_KEXDH_INIT : Z := 30.
Definition SSH_MSG_KEXDH_REPLY : Z := 31.

(** Modelled from the spec: [enum SSH_KEX_TYPE] of ssh/kex.h; kex_dh.c names
    [SSH_KEX_DH_GROUP_1] and [SSH_KEX_DH_GROUP_14]
    ("diffie-hellman-group1-sha1 and diffie-hellman-group14-sha1"), any
    other enumerator is [SSH_KEX_OTHER n]. *)
Inductive SSH_KEX_TYPE : Type :=
| SSH_KEX_DH_GROUP_1
| SSH_KEX_DH_GROUP_14
| SSH_KEX_OTHER (id : nat).

Definition kex_type_eqb (a b : SSH_KEX_TYPE) : bool :=
  match a, b with
  | SSH_KEX_DH_GROUP_1, SSH_KEX_DH_GROUP_1 => true
  | SSH_KEX_DH_GROUP_14, SSH_KEX_DH_GROUP_14 => true
  | SSH_KEX_OTHER n, SSH_KEX_OTHER m => Nat.eqb n m
  | _, _ => false
  end.

(** [struct DH_ALGO]. *)
Record DH_ALGO : Type := mkalgo {
  type : SSH_KEX_TYPE;
  gen : string;
  modulus : string
}.

(** [dh_algos[]]: diffie-hellman-group1-sha1 (RFC 2409, section 6.2) and
    diffie-hellman-group14-sha1 (RFC 3526, section 3). *)
Definition dh_algos : list DH_ALGO :=
  [ mkalgo SSH_KEX_DH_GROUP_1 "2"
      ("FFFFFFFFFFFFFFFFC90FDAA22168C234C4C6628B80DC1CD129024E088A67CC74"
       ++ "020BBEA63B139B22514A08798E3404DDEF9519B3CD3A431B302B0A6DF25F1437"
       ++ "4FE1356D6D51C245E485B576625E7EC6F44C42E9A637ED6B0BFF5CB6F406B7ED"
       ++ "EE386BFB5A899FA5AE9F24117C4B1FE649286651ECE65381FFFFFFFFFFFFFFFF")%string;
    mkalgo SSH_KEX_DH_GROUP_14 "2"
      ("FFFFFFFFFFFFFFFFC90FDAA22168C234C4C6628B80DC1CD129024E088A67CC74"
       ++ "020BBEA63B139B22514A08798E3404DDEF9519B3CD3A431B302B0A6DF25F1437"
       ++ "4FE1356D6D51C245E485B576625E7EC6F44C42E9A637ED6B0BFF5CB6F406B7ED"
       ++ "EE386BFB5A899FA5AE9F24117C4B1FE649286651ECE45B3DC2007CB8A163BF05"
       ++ "98DA48361C55D39A69163FA8FD24CF5F83655D23DCA3AD961C62F356208552BB"
       ++ "9ED529077096966D670C354E4ABC9804F1746C08CA18217C32905E462E36CE3B"
       ++ "E39E772C180E86039B2783A2EC07A28FB5C55DF06F4C52C9DE2BCBF695581718"
       ++ "3995497CEA956AE515D2261898FA051015728E5A8AACAA68FFFFFFFFFFFFFFFF")%string ].

(** [const struct DH_ALGO *kex_dh_get_algo(enum SSH_KEX_TYPE type)]: the
    first entry of the table with the type, [None] for [NULL]. *)
Definition kex_dh_get_algo (t : SSH_KEX_TYPE) : option DH_ALGO :=
  find (fun a => kex_type_eqb (type a) t) dh_algos.

(** [struct SSH_KEX], with the fields kex_dh.c reads: [type], [hash_type],
    [pubkey_type] and the two KEXINIT payloads. *)
Record SSH_KEX (SSH_HASH_TYPE SSH_PUBKEY_TYPE : Type) : Type := mkkex {
  kex_type : SSH_KEX_TYPE;
  hash_type : SSH_HASH_TYPE;
  pubkey_type : SSH_PUBKEY_TYPE;
  kexinit : KexDh.SSH_KEX
}.

Arguments mkkex {SSH_HASH_TYPE SSH_PUBKEY_TYPE}.
Arguments kex_type {SSH_HASH_TYPE SSH_PUBKEY_TYPE}.
Arguments hash_type {SSH_HASH_TYPE SSH_PUBKEY_TYPE}.
Arguments pubkey_type {SSH_HASH_TYPE SSH_PUBKEY_TYPE}.
Arguments kexinit {SSH_HASH_TYPE SSH_PUBKEY_TYPE}.

(** The collaborators kex_dh.c calls (crypto/dh.c, ssh/connection.c,
    ssh/buffer.c, ssh/hash.c, ssh/pubkey.c, ssh/kex.c), none of them among
    the sources.  [ENV] is what the key exchange works on through
    pointers: the connection with its streams and socket, the DH objects,
    the host-key store.  Each collaborator takes and returns the
    environment it may change; a [NULL] or negative result where the
    source tests for one is [None], an [int] result handed on is the [Z]
    returned.  [ssh_conn_versions] is what
    [ssh_conn_get_client_version_string] and
    [ssh_conn_get_server_version_string] return for a connection. *)
Class KEX_COLLABORATORS
    (ENV CRYPTO_DH SSH_BUF_READER SSH_HASH_TYPE SSH_PUBKEY_TYPE : Type)
  : Type := {
  crypto_dh_new : string -> string -> ENV -> ENV * option CRYPTO_DH;
  crypto_dh_free : CRYPTO_DH -> ENV -> ENV;
  crypto_dh_get_pubkey : CRYPTO_DH -> ENV -> ENV * option (list Z);
  crypto_dh_compute_key : CRYPTO_DH -> list Z -> ENV -> ENV * option (list Z);
  ssh_conn_new_packet : ENV -> ENV * option SSH_BUFFER;
  ssh_conn_send_packet : SSH_BUFFER -> ENV -> ENV * Z;
  ssh_conn_recv_packet_skip_ignore : ENV -> ENV * option SSH_BUF_READER;
  ssh_packet_get_type : SSH_BUF_READER -> Z;
  ssh_buf_read_u8 : SSH_BUF_READER -> option (Z * SSH_BUF_READER);
  ssh_buf_read_string : SSH_BUF_READER -> option (list Z * SSH_BUF_READER);
  ssh_hash_compute : SSH_HASH_TYPE -> list Z -> option (list Z);
  ssh_pubkey_verify_signature :
    SSH_PUBKEY_TYPE -> list Z -> list Z -> list Z -> Z;
  ssh_conn_check_server_identity : list Z -> ENV -> ENV * Z;
  ssh_conn_versions : ENV -> KexDh.SSH_CONN;
  ssh_kex_finish :
    SSH_KEX SSH_HASH_TYPE SSH_PUBKEY_TYPE -> list Z -> list Z -> ENV -> ENV * Z
}.

Section Run.

Context {ENV CRYPTO_DH SSH_BUF_READER SSH_HASH_TYPE SSH_PUBKEY_TYPE : Type}.
Context {collaborators :
           KEX_COLLABORATORS ENV CRYPTO_DH SSH_BUF_READER SSH_HASH_TYPE
             SSH_PUBKEY_TYPE}.

Local Abbreviation SSH_KEX := (SSH_KEX SSH_HASH_TYPE SSH_PUBKEY_TYPE)
  (only parsing).

(** [static int dh_kex_send_init_msg(struct CRYPTO_DH *dh, struct SSH_CONN
    *conn)]: send SSH_MSG_KEXDH_INIT packet.  The buffer
    [ssh_conn_new_packet] returns a pointer to is handed to
    [ssh_conn_send_packet] as it is after the two writes.  The return -1
    of lines 85-87, when one of the two writes finds no memory, is left
    out: allocation is taken to succeed. *)
Definition dh_kex_send_init_msg (dh : CRYPTO_DH) (conn : ENV) : ENV * Z :=
  match crypto_dh_get_pubkey dh conn with
  | (conn, None) => (conn, -1)
  | (conn, Some e) =>
      match ssh_conn_new_packet conn with
      | (conn, None) => (conn, -1)
      | (conn, Some pack) =>
          let pack := ssh_buf_write_u8 pack SSH_MSG_KEXDH_INIT in
          let pack := ssh_buf_write_string pack e in
          let (conn, rc) := ssh_conn_send_packet pack conn in
          if rc <? 0 then (conn, -1) else (conn, 0)
      end
  end.

(** [static int dh_kex_read_reply(struct CRYPTO_DH *dh, struct SSH_CONN
    *conn, struct SSH_KEX *kex)]: read SSH_MSG_KEXDH_REPLY message. *)
Definition dh_kex_read_reply (dh : CRYPTO_DH) (conn : ENV) (kex : SSH_KEX)
  : ENV * Z :=
  match ssh_conn_recv_packet_skip_ignore conn with
  | (conn, None) => (conn, -1)
  | (conn, Some pack) =>
  if negb (ssh_packet_get_type pack =? SSH_MSG_KEXDH_REPLY) then (conn, -1)
  else
  match ssh_buf_read_u8 pack with
  | None => (conn, -1)
  | Some (_, pack) =>
  match ssh_buf_read_string pack with
  | None => (conn, -1)
  | Some (server_host_key, pack) =>
  match ssh_buf_read_string pack with
  | None => (conn, -1)
  | Some (server_pubkey, pack) =>
  match ssh_buf_read_string pack with
  | None => (conn, -1)
  | Some (server_hash_sig, pack) =>
  (* compute shared_secret *)
  match crypto_dh_compute_key dh server_pubkey conn with
  | (conn, None) => (conn, -1)
  | (conn, Some shared_secret) =>
  (* compute exchange_hash *)
  match crypto_dh_get_pubkey dh conn with
  | (conn, None) => (conn, -1)
  | (conn, Some client_pubkey) =>
  match KexDh.dh_kex_hash SSH_HASH_TYPE ssh_hash_compute (hash_type kex)
          server_host_key client_pubkey server_pubkey shared_secret
          (ssh_conn_versions conn) (kexinit kex) with
  | None => (conn, -1)
  | Some exchange_hash =>
  (* verify signature *)
  if ssh_pubkey_verify_signature (pubkey_type kex) server_host_key
       server_hash_sig exchange_hash <? 0
  then (conn, -1)
  else
  (* verify identity *)
  let (conn, rc) := ssh_conn_check_server_identity server_host_key conn in
  if rc <? 0 then (conn, -1)
  else ssh_kex_finish kex shared_secret exchange_hash conn
  end end end end end end end end.

(** What [dh_kex_read_reply] has established when it reaches its last
    statement: the packet received on [conn] is a KEXDH_REPLY holding the
    host key [K_S], the server's DH value [f] and a signature; [K] is the
    shared secret computed from [f], [H] the exchange hash over these values,
    the signature verifies over [H] under [K_S] and the identity check of
    [K_S] passed, leaving the environment [c]. *)
Definition reply_verified (dh : CRYPTO_DH) (conn : ENV) (kex : SSH_KEX)
    (K H : list Z) (c : ENV) : Prop :=
  exists c1 pack t p1 K_S p2 f p3 sig p4 c2 c3 e rc,
    ssh_conn_recv_packet_skip_ignore conn = (c1, Some pack)
    /\ ssh_packet_get_type pack = SSH_MSG_KEXDH_REPLY
    /\ ssh_buf_read_u8 pack = Some (t, p1)
    /\ ssh_buf_read_string p1 = Some (K_S, p2)
    /\ ssh_buf_read_string p2 = Some (f, p3)
    /\ ssh_buf_read_string p3 = Some (sig, p4)
    /\ crypto_dh_compute_key dh f c1 = (c2, Some K)
    /\ crypto_dh_get_pubkey dh c2 = (c3, Some e)
    /\ KexDh.dh_kex_hash SSH_HASH_TYPE ssh_hash_compute (hash_type kex)
         K_S e f K (ssh_conn_versions c3) (kexinit kex) = Some H
    /\ 0 <= ssh_pubkey_verify_signature (pubkey_type kex) K_S sig H
    /\ ssh_conn_check_server_identity K_S c3 = (c, rc)
    /\ 0 <= rc.

(** [int ssh_kex_dh_run(struct SSH_CONN *conn, struct SSH_KEX *kex)]. *)
Definition ssh_kex_dh_run (conn : ENV) (kex : SSH_KEX) : ENV * Z :=
  match kex_dh_get_algo (kex_type kex) with
  | None => (conn, -1)
  | Some dh_algo =>
      match crypto_dh_new (gen dh_algo) (modulus dh_algo) conn with
      | (conn, None) => (conn, -1)
      | (conn, Some dh) =>
          let (conn, rc) := dh_kex_send_init_msg dh conn in
          if rc <? 0 then (crypto_dh_free dh conn, -1)
          else
            let (conn, rc) := dh_kex_read_reply dh conn kex in
            if rc <? 0 then (crypto_dh_free dh conn, -1)
            else (crypto_dh_free dh conn, 0)
      end
  end.

End Run.

End KexDhRun.

(* ------------------------------------------------------------------ *)
(** ** Small collaborators to run the further models on *)

(** Key installation for the small cipher and MAC: block length 16 and MAC
    length 4 whatever the algorithm, the context is the first octet of the
    key. *)
Definition toy_cipher_get_block_len (t : SSH_CIPHER_TYPE) : Z := 16.

Definition toy_cipher_new (t : SSH_CIPHER_TYPE) (dir : bool) (iv key : list Z)
  : option Z := Some (hd 0 key).

Definition toy_mac_get_len (t : SSH_MAC_TYPE) : Z := 4.

Definition toy_mac_new (t : SSH_MAC_TYPE) (key : list Z) : option Z :=
  Some (hd 0 key).

(** A stream like [toy_keyed 7 3 9] whose buffers hold octets of earlier
    packets, and a world like [keyed_world] whose socket has been written
    to before. *)
Definition toy_keyed_stale : TOY_STREAM :=
  mkstream 7 (mkbuf [1; 2; 3] 3) (mkbuf [9; 9] 2) ssh_buf_new
    (SSH_CIPHER_ALGO 1) 16 (Some 3)
    (SSH_MAC_ALGO 1) 4 (Some 9).

Definition keyed_world_used : WORLD :=
  mkworld [] [42; 43] true
    [1; 2; 3; 4; 5; 6; 7; 8; 9; 10; 11; 12; 13; 14; 15; 16].

(** Two payloads sent one after the other on the keyed stream. *)
Definition two_payloads : list (list Z) := [hello; [1; 2; 3]].

Definition two_sent : ST Z Z * result unit :=
  send_all toy_crypt toy_mac two_payloads (toy_keyed 7 3 9, keyed_world).

(** What a receiver with the small cipher at key 3 decrypts to a first
    block that announces [pack_len = 5]. *)
Definition short_length_wire : list Z :=
  toy_xor 3 [0; 0; 0; 5; 4; 0; 0; 0; 0; 0; 0; 0; 0; 0; 0; 0].

(** A key exchange modulo 23: the environment is the list of
    octets handed to the connection, the DH object its private exponent;
    the server answers with one fixed KEXDH_REPLY. *)
Module ToyKex.

Definition toy_dh_new (gen modulus : String.string) (env : list Z)
  : list Z * option Z := (env, Some 5).

Definition toy_dh_free (dh : Z) (env : list Z) : list Z := env.

Definition toy_dh_get_pubkey (dh : Z) (env : list Z)
  : list Z * option (list Z) := (env, Some [2 ^ dh mod 23]).

Definition toy_dh_compute_key (dh : Z) (f : list Z) (env : list Z)
  : list Z * option (list Z) := (env, Some [hd 0 f ^ dh mod 23]).

Definition toy_new_packet (env : list Z) : list Z * option SSH_BUFFER :=
  (env, Some (mkbuf [0; 0; 0; 0; 0] 5)).

Definition toy_send_packet (pack : SSH_BUFFER) (env : list Z) : list Z * Z :=
  (env ++ contents pack, 0).

Definition toy_reply : list Z :=
  [31; 0; 0; 0; 1; 75; 0; 0; 0; 1; 8; 0; 0; 0; 1; 83].

Definition toy_recv_packet (env : list Z) : list Z * option (list Z) :=
  (env, Some toy_reply).

Definition toy_get_type (pack : list Z) : Z := hd 0 pack.

Definition toy_read_u8 (pack : list Z) : option (Z * list Z) :=
  match pack with
  | b :: rest => Some (b, rest)
  | [] => None
  end.

Definition toy_read_string (pack : list Z) : option (list Z * list Z) :=
  let n := Z.to_nat (ssh_buf_get_u32 pack) in
  if (4 + n <=? length pack)%nat
  then Some (firstn n (skipn 4 pack), skipn (4 + n) pack)
  else None.

Definition toy_hash (t : unit) (bytes : list Z) : option (list Z) :=
  Some [fold_left Z.add bytes 0 mod 256].

Definition toy_verify (t : unit) (key sig hash : list Z) : Z :=
  if hd 0 sig =? 83 then 0 else -1.

Definition toy_check_identity (key : list Z) (env : list Z) : list Z * Z :=
  (env, if hd 0 key =? 75 then 0 else -1).

Definition toy_versions (env : list Z) : KexDh.SSH_CONN :=
  KexDh.mkconn (KexDh.mkversion [83; 83; 72] 3) (KexDh.mkversion [83; 83; 72] 3).

Definition toy_kex : KexDhRun.SSH_KEX unit unit :=
  KexDhRun.mkkex KexDhRun.SSH_KEX_DH_GROUP_14 tt tt
    (KexDh.mkkex ssh_buf_new ssh_buf_new).

Definition toy_finish (kex : KexDhRun.SSH_KEX unit unit) (K H : list Z)
    (env : list Z) : list Z * Z := (env, 0).

#[export] Instance toy_collaborators
  : KexDhRun.KEX_COLLABORATORS (list Z) Z (list Z) unit unit := {|
  KexDhRun.crypto_dh_new := toy_dh_new;
  KexDhRun.crypto_dh_free := toy_dh_free;
  KexDhRun.crypto_dh_get_pubkey := toy_dh_get_pubkey;
  KexDhRun.crypto_dh_compute_key := toy_dh_compute_key;
  KexDhRun.ssh_conn_new_packet := toy_new_packet;
  KexDhRun.ssh_conn_send_packet := toy_send_packet;
  KexDhRun.ssh_conn_recv_packet_skip_ignore := toy_recv_packet;
  KexDhRun.ssh_packet_get_type := toy_get_type;
  KexDhRun.ssh_buf_read_u8 := toy_read_u8;
  KexDhRun.ssh_buf_read_string := toy_read_string;
  KexDhRun.ssh_hash_compute := toy_hash;
  KexDhRun.ssh_pubkey_verify_signature := toy_verify;
  KexDhRun.ssh_conn_check_server_identity := toy_check_identity;
  KexDhRun.ssh_conn_versions := toy_versions;
  KexDhRun.ssh_kex_finish := toy_finish
|}.

End ToyKex.


(* ================================================================== *)
(** * Proofs *)

(** ** Integers and octets *)

Lemma u32_small v : 0 <= v < 4294967296 -> u32 v = v.
Proof. intros H. unfold u32. apply Z.mod_small. exact H. Qed.

Lemma u8_small v : 0 <= v < 256 -> u8 v = v.
Proof. intros H. unfold u8. apply Z.mod_small. exact H. Qed.

Lemma u8_range v : 0 <= u8 v < 256.
Proof. unfold u8. apply Z.mod_pos_bound. lia. Qed.

Lemma ssh_buf_set_u32_length v : length (ssh_buf_set_u32 v) = 4%nat.
Proof. reflexivity. Qed.

Lemma ssh_buf_get_set_u32 v rest :
  ssh_buf_get_u32 (ssh_buf_set_u32 v ++ rest) = u32 v.
Proof.
  unfold ssh_buf_get_u32, ssh_buf_set_u32, u32, u8. cbn [app nth].
  rewrite !Z.mod_mod by lia.
  Z.div_mod_to_equations. lia.
Qed.

Lemma calc_pad_len_spec n b :
  0 <= n -> 0 <= b <= 252 ->
  let block := Z.max b 8 in
  let pad0 := block - n mod block in
  calc_pad_len n b = (if pad0 <? 4 then pad0 + block else pad0)
  /\ 4 <= calc_pad_len n b <= 255
  /\ (n + calc_pad_len n b) mod block = 0.
Proof.
  intros Hn Hb block pad0.
  assert (Hblock : (if b <? 8 then 8 else b) = block).
  { unfold block. destruct (Z.ltb_spec b 8); lia. }
  assert (Hr : 0 <= n mod block < block) by (apply Z.mod_pos_bound; lia).
  assert (Hblk : 8 <= block <= 252) by lia.
  unfold calc_pad_len. rewrite Hblock. fold pad0.
  assert (Hp0 : 1 <= pad0 <= block) by (unfold pad0; lia).
  rewrite (u8_small pad0) by lia.
  assert (Hdiv : n = block * (n / block) + n mod block) by (apply Z.div_mod; lia).
  destruct (Z.ltb_spec pad0 4) as [Hlt | Hge].
  - rewrite u8_small by lia. split; [reflexivity | split; [lia |]].
    replace (n + (pad0 + block)) with ((n / block + 2) * block) by (unfold pad0; lia).
    apply Z_mod_mult.
  - split; [reflexivity | split; [lia |]].
    replace (n + pad0) with ((n / block + 1) * block) by (unfold pad0; lia).
    apply Z_mod_mult.
Qed.

(** ** Stores into a memory region *)

Lemma poke_end (a src z : list Z) :
  length z = length src -> poke (length a) src (a ++ z) = a ++ src.
Proof.
  intros H. unfold poke.
  rewrite firstn_app, firstn_all, Nat.sub_diag, firstn_O, app_nil_r.
  rewrite skipn_all2 by (rewrite length_app; lia).
  now rewrite app_nil_r.
Qed.

Lemma poke_end_nil (a src : list Z) : poke (length a) src a = a ++ src.
Proof.
  unfold poke. rewrite firstn_all, skipn_all2 by lia. now rewrite app_nil_r.
Qed.

Lemma poke_length off src mem :
  (off <= length mem)%nat ->
  length (poke off src mem) = Nat.max (length mem) (off + length src).
Proof.
  intros H. unfold poke.
  rewrite !length_app, length_firstn, length_skipn. lia.
Qed.

Lemma firstn_app_exact {A} (a b : list A) n :
  n = length a -> firstn n (a ++ b) = a.
Proof.
  intros ->. rewrite firstn_app, firstn_all, Nat.sub_diag, firstn_O.
  apply app_nil_r.
Qed.

Lemma skipn_app_exact {A} (a b : list A) n :
  n = length a -> skipn n (a ++ b) = b.
Proof.
  intros ->. rewrite skipn_app, skipn_all, Nat.sub_diag. reflexivity.
Qed.

(** ** Running the monad *)

Ltac mrun :=
  cbv beta delta [bind ret fail get_stream upd_stream buf_clear
    buf_get_write_pointer buf_grow buf_set_len store random_gen
    ssh_buf_get_write_pointer ssh_buf_clear ssh_buf_grow];
  cbn [fst snd buf_at buf_set set_seq_num set_cipher_ctx
       seq_num pack pack_enc net_buffer cipher_type cipher_block_len
       cipher_ctx mac_type mac_len mac_ctx len data negb].

Section StreamProofs.

Context {CIPHER_CTX MAC_CTX : Type}.
Variable crypt : CIPHER_CTX -> list Z -> option (CIPHER_CTX * list Z).
Variable digest : MAC_CTX -> list Z -> option (list Z).

Local Abbreviation STREAM := (SSH_STREAM CIPHER_CTX MAC_CTX) (only parsing).
Local Abbreviation ACTION := (M CIPHER_CTX MAC_CTX) (only parsing).

(** *** Actions that keep the configuration *)

Lemma config_buf_set r b (s : STREAM) : config (buf_set r b s) = config s.
Proof. destruct r; reflexivity. Qed.

Lemma config_set_cipher_ctx c (s : STREAM) : config (set_cipher_ctx c s) = config s.
Proof. reflexivity. Qed.

Lemma keeps_ret {A} (a : A) : keeps_config (ret a : ACTION A).
Proof. intros st. reflexivity. Qed.

Lemma keeps_fail {A} e : keeps_config (fail e : ACTION A).
Proof. intros st. reflexivity. Qed.

Lemma keeps_get : keeps_config (get_stream : ACTION _).
Proof. intros st. reflexivity. Qed.

Lemma keeps_bind {A B} (m : ACTION A) (k : A -> ACTION B) :
  keeps_config m -> (forall a, keeps_config (k a)) -> keeps_config (bind m k).
Proof.
  intros Hm Hk st. unfold bind.
  specialize (Hm st). destruct (m st) as [st1 [a | e]]; cbn [fst] in *.
  - rewrite Hk. exact Hm.
  - exact Hm.
Qed.

Lemma keeps_upd (f : STREAM -> STREAM) :
  (forall s, config (f s) = config s) -> keeps_config (upd_stream f).
Proof. intros Hf [s w]. cbn. apply Hf. Qed.

Lemma keeps_buf_clear r : keeps_config (buf_clear r : ACTION _).
Proof. apply keeps_upd. intros s. apply config_buf_set. Qed.

Lemma keeps_buf_get_write_pointer r n :
  keeps_config (buf_get_write_pointer r n : ACTION _).
Proof. intros [s w]. cbn. apply config_buf_set. Qed.

Lemma keeps_buf_grow r n : keeps_config (buf_grow r n : ACTION _).
Proof. apply keeps_upd. intros s. apply config_buf_set. Qed.

Lemma keeps_buf_set_len r n : keeps_config (buf_set_len r n : ACTION _).
Proof. apply keeps_upd. intros s. apply config_buf_set. Qed.

Lemma keeps_store r p src : keeps_config (store r p src : ACTION _).
Proof. apply keeps_upd. intros s. apply config_buf_set. Qed.

Lemma keeps_random_gen r p n : keeps_config (random_gen r p n : ACTION _).
Proof.
  intros [s w]. unfold random_gen.
  destruct (crypto_random_gen _ _) as [bytes w1]. cbn. apply config_buf_set.
Qed.

Lemma keeps_cipher_crypt r p input :
  keeps_config (cipher_crypt crypt r p input : ACTION _).
Proof.
  intros [s w]. unfold cipher_crypt. cbn [fst snd].
  destruct (cipher_ctx s) as [c |]; [| reflexivity].
  destruct (crypt c input) as [[c' out] |]; [| reflexivity].
  cbn. now rewrite config_buf_set.
Qed.

Lemma keeps_mac_compute seq input : keeps_config (mac_compute digest seq input : ACTION _).
Proof.
  intros [s w]. unfold mac_compute.
  destruct (ssh_mac_compute _ _ _ _); reflexivity.
Qed.

Lemma keeps_net_write_all bytes : keeps_config (net_write_all bytes : ACTION _).
Proof.
  intros [s w]. unfold net_write_all.
  destruct (ssh_net_write_all _ _); reflexivity.
Qed.

Lemma keeps_net_read_all r p n : keeps_config (net_read_all r p n : ACTION _).
Proof.
  intros [s w]. unfold net_read_all.
  destruct (ssh_net_read_all _ _) as [[bytes w1] |]; [| reflexivity].
  cbn. apply config_buf_set.
Qed.

Lemma keeps_buf_remove_data r off n :
  keeps_config (buf_remove_data r off n : ACTION _).
Proof.
  intros [s w]. unfold buf_remove_data.
  destruct (ssh_buf_remove_data _ _ _); [| reflexivity].
  cbn. apply config_buf_set.
Qed.

Ltac keeps :=
  repeat first
    [ apply keeps_bind; [| intros ?]
    | apply keeps_ret | apply keeps_fail | apply keeps_get
    | apply keeps_buf_clear | apply keeps_buf_get_write_pointer
    | apply keeps_buf_grow | apply keeps_buf_set_len | apply keeps_store
    | apply keeps_random_gen | apply keeps_cipher_crypt
    | apply keeps_mac_compute | apply keeps_net_write_all
    | apply keeps_net_read_all | apply keeps_buf_remove_data
    | match goal with
      | |- keeps_config (if ?b then _ else _) => destruct b
      end
    | progress cbv zeta ].

Lemma keeps_write_padding : keeps_config (write_padding : ACTION _).
Proof. unfold write_padding. keeps. Qed.

Lemma keeps_encrypt_packet : keeps_config (encrypt_packet crypt : ACTION _).
Proof. unfold encrypt_packet. keeps. Qed.

Lemma keeps_write_mac : keeps_config (write_mac digest : ACTION _).
Proof. unfold write_mac. keeps. Qed.

Lemma keeps_finish_packet : keeps_config (finish_packet crypt digest).
Proof.
  unfold finish_packet.
  apply keeps_bind; [apply keeps_write_padding | intros _].
  apply keeps_bind; [apply keeps_encrypt_packet | intros _].
  apply keeps_write_mac.
Qed.

Lemma keeps_verify_read_packet : keeps_config (verify_read_packet digest : ACTION _).
Proof. unfold verify_read_packet. keeps. Qed.

Lemma keeps_stream_recv_data r p n :
  keeps_config (stream_recv_data r p n : ACTION _).
Proof. unfold stream_recv_data. keeps. Qed.

Lemma keeps_recv_first_block : keeps_config (recv_first_block crypt : ACTION _).
Proof.
  unfold recv_first_block.
  repeat first [ apply keeps_stream_recv_data | progress keeps ].
Qed.

Lemma keeps_recv_remainder : keeps_config (recv_remainder : ACTION _).
Proof.
  unfold recv_remainder.
  repeat first [ apply keeps_stream_recv_data | progress keeps ].
Qed.

Lemma keeps_decrypt_remainder pack_len :
  keeps_config (decrypt_remainder crypt pack_len : ACTION _).
Proof. unfold decrypt_remainder. keeps. Qed.

Lemma keeps_start_packet payload : keeps_config (start_packet payload : ACTION _).
Proof.
  unfold start_packet, ssh_stream_new_packet, write_payload.
  repeat first [ apply keeps_upd; intros ?; apply config_buf_set | progress keeps ].
Qed.

(** *** Sequencing *)

Lemma bind_exec {A B} (m : ACTION A) (k : A -> ACTION B) st st1 a :
  m st = (st1, Ok a) -> bind m k st = k a st1.
Proof. intros H. unfold bind. now rewrite H. Qed.

Lemma bind_exec_err {A B} (m : ACTION A) (k : A -> ACTION B) st st1 e :
  m st = (st1, Err e) -> bind m k st = (st1, Err e).
Proof. intros H. unfold bind. now rewrite H. Qed.

Lemma bind_ok {A B} (m : ACTION A) (k : A -> ACTION B) st st' b :
  bind m k st = (st', Ok b) ->
  exists a st1, m st = (st1, Ok a) /\ k a st1 = (st', Ok b).
Proof.
  unfold bind. destruct (m st) as [st1 [a | e]]; intros H.
  - exists a, st1. split; [reflexivity | exact H].
  - discriminate H.
Qed.

Lemma bind_err_keeps {A B} (m : ACTION A) (k : A -> ACTION B) :
  keeps_config m ->
  (forall a st st' e, k a st = (st', Err e) -> config (fst st') = config (fst st)) ->
  forall st st' e,
    bind m k st = (st', Err e) -> config (fst st') = config (fst st).
Proof.
  intros Hm Hk st st' e. unfold bind.
  specialize (Hm st). destruct (m st) as [st1 [a | e1]]; cbn [fst] in Hm; intros H.
  - rewrite <- Hm. eapply Hk. exact H.
  - inversion H; subst. exact Hm.
Qed.

Lemma config_seq_num (a b : STREAM) : config a = config b -> seq_num a = seq_num b.
Proof. unfold config. intros H. now inversion H. Qed.

(** *** The send path *)

Lemma calc_pad_len_range n b : 0 <= calc_pad_len n b < 256.
Proof.
  unfold calc_pad_len.
  destruct (_ <? 4); apply u8_range.
Qed.

Lemma start_packet_exec (s : STREAM) w payload :
  start_packet payload (s, w)
  = ((buf_set PACK (mkbuf (0 :: 0 :: 0 :: 0 :: 0 :: payload)
                      (5 + length payload)) s, w), Ok tt).
Proof.
  destruct s.
  unfold start_packet, ssh_stream_new_packet, write_payload, bind, buf_clear,
    upd_stream, ret. cbn.
  unfold ssh_buf_append_data. cbn.
  rewrite skipn_all2 by (rewrite repeat_length; lia).
  now rewrite app_nil_r.
Qed.

Lemma pad_fill_length none w n : length (fst (pad_fill none w n)) = n.
Proof.
  unfold pad_fill, crypto_random_gen. destruct none; cbn [fst].
  - apply repeat_length.
  - rewrite length_firstn, length_app, repeat_length. lia.
Qed.

Lemma frame_pokes h0 h1 h2 h3 h4 payload pad fill :
  length fill = Z.to_nat pad -> 0 <= pad ->
  poke 4 [pad]
    (poke 0 (ssh_buf_set_u32 (Z.of_nat (5 + length payload + Z.to_nat pad) - 4))
       (poke (5 + length payload) fill
          (firstn (5 + length payload) (h0 :: h1 :: h2 :: h3 :: h4 :: payload)
             ++ repeat 0 (Z.to_nat pad))))
  = frame payload pad fill.
Proof.
  intros Hfill Hpad.
  change (5 + length payload)%nat with (length (h0 :: h1 :: h2 :: h3 :: h4 :: payload)).
  rewrite firstn_all, poke_end by (rewrite repeat_length; lia).
  replace (Z.of_nat (length (h0 :: h1 :: h2 :: h3 :: h4 :: payload) + Z.to_nat pad) - 4)
    with (1 + Z.of_nat (length payload) + pad) by (cbn [length]; lia).
  reflexivity.
Qed.

Lemma frame_length payload pad fill :
  length (frame payload pad fill) = (5 + length payload + length fill)%nat.
Proof.
  unfold frame. rewrite length_app, ssh_buf_set_u32_length.
  cbn [length]. rewrite length_app. lia.
Qed.

Lemma write_padding_exec (s : STREAM) w h0 h1 h2 h3 h4 payload :
  pack s = mkbuf (h0 :: h1 :: h2 :: h3 :: h4 :: payload) (5 + length payload) ->
  let pad := pad_len_of payload (cipher_block_len s) in
  let fw := pad_fill (is_cipher_none (cipher_type s)) w (Z.to_nat pad) in
  write_padding (s, w)
  = ((buf_set PACK (mkbuf (frame payload pad (fst fw))
                      (5 + length payload + Z.to_nat pad)) s, snd fw), Ok tt).
Proof.
  intros Hpack pad fw.
  pose proof (pad_fill_length (is_cipher_none (cipher_type s)) w (Z.to_nat pad)) as Hfill.
  fold fw in Hfill.
  pose proof (calc_pad_len_range (u32 (Z.of_nat (5 + length payload)))
                (u8 (cipher_block_len s))) as Hpad.
  fold (pad_len_of payload (cipher_block_len s)) in Hpad. fold pad in Hpad.
  unfold write_padding.
  mrun. rewrite Hpack. mrun. fold (pad_len_of payload (cipher_block_len s)). fold pad.
  destruct (is_cipher_none (cipher_type s)) eqn:Hnone.
  - mrun. rewrite frame_pokes by (rewrite ?repeat_length; lia). reflexivity.
  - mrun. unfold pad_fill in fw.
    destruct (crypto_random_gen w (Z.to_nat pad)) as [bytes w1] eqn:Hgen.
    subst fw. cbn [fst snd] in *. mrun.
    rewrite frame_pokes by lia. reflexivity.
Qed.

Lemma encrypt_packet_none (s : STREAM) w :
  is_cipher_none (cipher_type s) = true ->
  encrypt_packet crypt (s, w) = ((s, w), Ok tt).
Proof. intros H. unfold encrypt_packet. mrun. rewrite H. reflexivity. Qed.

Lemma encrypt_packet_ok (s : STREAM) w s' w' :
  is_cipher_none (cipher_type s) = false ->
  encrypt_packet crypt (s, w) = ((s', w'), Ok tt) ->
  exists c c' out,
    cipher_ctx s = Some c
    /\ crypt c (contents (pack s)) = Some (c', out)
    /\ s' = buf_set PACK_ENC
              (mkbuf (poke 0 out (repeat 0 (len (pack s)))) (len (pack s)))
              (set_cipher_ctx (Some c') s)
    /\ w' = w.
Proof.
  intros H. unfold encrypt_packet, cipher_crypt. mrun. rewrite H. mrun.
  destruct (cipher_ctx s) as [c |] eqn:Hc; [| discriminate].
  destruct (crypt c (contents (pack s))) as [[c' out] |] eqn:Hout; [| discriminate].
  mrun. intros Heq. inversion Heq; subst.
  exists c, c', out. repeat split; try assumption; reflexivity.
Qed.

Lemma write_mac_none (s : STREAM) w :
  is_mac_none (mac_type s) = true ->
  write_mac digest (s, w) = ((s, w), Ok tt).
Proof. intros H. unfold write_mac. mrun. rewrite H. reflexivity. Qed.

Lemma write_mac_ok (s : STREAM) w s' w' :
  is_mac_none (mac_type s) = false ->
  write_mac digest (s, w) = ((s', w'), Ok tt) ->
  let write_pack := if is_cipher_none (cipher_type s) then PACK else PACK_ENC in
  let b := buf_at write_pack s in
  exists tag,
    ssh_mac_compute digest (mac_ctx s) (seq_num s) (contents (pack s)) = Some tag
    /\ s' = buf_set write_pack
              (mkbuf (poke (len b) tag
                        (data b ++ repeat 0 (len b + Z.to_nat (mac_len s)
                                             - length (data b))))
                 (len b)) s
    /\ w' = w.
Proof.
  intros H. unfold write_mac, mac_compute. mrun. rewrite H. mrun.
  destruct (is_cipher_none (cipher_type s)); mrun;
    (destruct (ssh_mac_compute digest (mac_ctx s) (seq_num s) (contents (pack s)))
       as [tag |] eqn:Htag; [| discriminate]);
    intros Heq; inversion Heq; subst;
    exists tag; repeat split; try assumption; reflexivity.
Qed.

Lemma poke_grown (a tag : list Z) n :
  length tag = n ->
  poke (length a) tag (a ++ repeat 0 (length a + n - length a)) = a ++ tag.
Proof.
  intros H. apply poke_end. rewrite repeat_length. lia.
Qed.

Lemma poke_whole (out : list Z) n :
  length out = n -> poke 0 out (repeat 0 n) = out.
Proof.
  intros H. unfold poke. cbn [firstn Nat.add app].
  rewrite skipn_all2 by (rewrite repeat_length; lia).
  apply app_nil_r.
Qed.

Lemma ssh_mac_compute_length (s : STREAM) seq x tag :
  mac_len_ok digest s ->
  ssh_mac_compute digest (mac_ctx s) seq x = Some tag ->
  length tag = Z.to_nat (mac_len s).
Proof.
  intros (_ & _ & Hml). unfold ssh_mac_compute.
  destruct (mac_ctx s) as [c |] eqn:Hc; [| discriminate].
  intros H. eapply Hml; [reflexivity | exact H].
Qed.

Lemma finish_packet_ok (s : STREAM) w s' w' h0 h1 h2 h3 h4 payload :
  pack s = mkbuf (h0 :: h1 :: h2 :: h3 :: h4 :: payload) (5 + length payload) ->
  cipher_keeps_length crypt ->
  mac_len_ok digest s ->
  finish_packet crypt digest (s, w) = ((s', w'), Ok tt) ->
  let pad := pad_len_of payload (cipher_block_len s) in
  let fw := pad_fill (is_cipher_none (cipher_type s)) w (Z.to_nat pad) in
  let P := frame payload pad (fst fw) in
  let write_pack := if is_cipher_none (cipher_type s) then PACK else PACK_ENC in
  exists body tag,
    (if is_cipher_none (cipher_type s)
     then body = P /\ cipher_ctx s' = cipher_ctx s
     else exists c c', cipher_ctx s = Some c /\ crypt c P = Some (c', body)
                       /\ cipher_ctx s' = Some c')
    /\ (if is_mac_none (mac_type s)
        then tag = []
        else ssh_mac_compute digest (mac_ctx s) (seq_num s) P = Some tag)
    /\ data (pack s') = P ++ (if is_cipher_none (cipher_type s) then tag else [])
    /\ len (pack s') = length P
    /\ data (buf_at write_pack s') = body ++ tag
    /\ len (buf_at write_pack s') = length body
    /\ length body = length P
    /\ length tag = Z.to_nat (mac_len s)
    /\ config s' = config s
    /\ net_buffer s' = net_buffer s
    /\ w' = snd fw.
Proof.
  intros Hpack Hcl Hmac Hfin pad fw P write_pack.
  unfold finish_packet in Hfin.
  rewrite (bind_exec _ _ _ _ _ (write_padding_exec s w _ _ _ _ _ _ Hpack)) in Hfin.
  fold pad in Hfin. fold fw in Hfin. fold P in Hfin.
  pose proof (pad_fill_length (is_cipher_none (cipher_type s)) w (Z.to_nat pad)) as Hfill.
  fold fw in Hfill.
  assert (HlenP : length P = (5 + length payload + Z.to_nat pad)%nat).
  { unfold P. rewrite frame_length. lia. }
  rewrite <- HlenP in Hfin.
  clearbody P. clearbody fw.
  assert (Hc1 : forall n, n = length P -> firstn n P = P)
    by (intros n ->; apply firstn_all).
  apply bind_ok in Hfin. destruct Hfin as ([] & [s2 w2] & Henc & Hmacw).
  destruct (is_cipher_none (cipher_type s)) eqn:Hnone.
  - rewrite encrypt_packet_none in Henc by (mrun; exact Hnone).
    inversion Henc; subst s2 w2. clear Henc.
    destruct (is_mac_none (mac_type s)) eqn:Hmnone.
    + rewrite write_mac_none in Hmacw by (mrun; exact Hmnone).
      inversion Hmacw; subst s' w'.
      exists P, []. destruct Hmac as (_ & Hm0 & _).
      subst write_pack. mrun. rewrite !app_nil_r.
      repeat split; try reflexivity. now rewrite (Hm0 Hmnone).
    + apply write_mac_ok in Hmacw; [| mrun; exact Hmnone].
      destruct Hmacw as (tag & Htag & -> & ->).
      revert Htag. unfold contents. mrun. rewrite Hc1 by reflexivity. intros Htag.
      assert (Hlt : length tag = Z.to_nat (mac_len s))
        by (eapply ssh_mac_compute_length; [exact Hmac | exact Htag]).
      exists P, tag. subst write_pack. mrun.
      rewrite Hnone. mrun. rewrite poke_grown by exact Hlt.
      repeat split; try reflexivity; try exact Htag; exact Hlt.
  - apply encrypt_packet_ok in Henc; [| mrun; exact Hnone].
    destruct Henc as (c & c' & out & Hc & Hout & -> & ->).
    revert Hc Hout. unfold contents. mrun. rewrite Hc1 by reflexivity.
    intros Hc Hout.
    pose proof (Hcl _ _ _ _ Hout) as Hlo.
    destruct (is_mac_none (mac_type s)) eqn:Hmnone.
    + rewrite write_mac_none in Hmacw by (mrun; exact Hmnone).
      inversion Hmacw; subst s' w'.
      exists out, []. destruct Hmac as (_ & Hm0 & _).
      subst write_pack. mrun. rewrite poke_whole by exact Hlo.
      rewrite !app_nil_r.
      repeat split; try reflexivity; try exact Hlo; try (symmetry; exact Hlo);
        try (now rewrite (Hm0 Hmnone)).
      exists c, c'. repeat split; assumption.
    + apply write_mac_ok in Hmacw; [| mrun; exact Hmnone].
      destruct Hmacw as (tag & Htag & -> & ->).
      revert Htag. unfold contents. mrun. rewrite Hc1 by reflexivity. intros Htag.
      assert (Hlt : length tag = Z.to_nat (mac_len s))
        by (eapply ssh_mac_compute_length; [exact Hmac | exact Htag]).
      exists out, tag. subst write_pack. mrun.
      rewrite Hnone. mrun. rewrite poke_whole by exact Hlo.
      rewrite <- Hlo. rewrite poke_grown by exact Hlt.
      rewrite app_nil_r.
      repeat split; try reflexivity; try exact Htag; try exact Hlt;
        try exact Hlo; try (symmetry; exact Hlo).
      exists c, c'. repeat split; assumption.
Qed.

Lemma pad_fill_net none w n :
  net_rx (snd (pad_fill none w n)) = net_rx w
  /\ net_tx (snd (pad_fill none w n)) = net_tx w
  /\ net_wr_ok (snd (pad_fill none w n)) = net_wr_ok w.
Proof. destruct none; repeat split; reflexivity. Qed.

Lemma config_fields (a b : STREAM) :
  config a = config b ->
  seq_num a = seq_num b /\ cipher_type a = cipher_type b
  /\ cipher_block_len a = cipher_block_len b /\ mac_type a = mac_type b
  /\ mac_len a = mac_len b /\ mac_ctx a = mac_ctx b.
Proof. unfold config. intros H. inversion H. repeat split; assumption. Qed.

Lemma buf_at_set_seq_num r n (s : STREAM) :
  buf_at r (set_seq_num n s) = buf_at r s.
Proof. destruct r; reflexivity. Qed.

Lemma send_payload_ok (s : STREAM) w s' w' payload :
  cipher_keeps_length crypt ->
  mac_len_ok digest s ->
  send_payload crypt digest payload (s, w) = ((s', w'), Ok tt) ->
  let pad := pad_len_of payload (cipher_block_len s) in
  let fw := pad_fill (is_cipher_none (cipher_type s)) w (Z.to_nat pad) in
  let P := frame payload pad (fst fw) in
  exists body tag,
    (if is_cipher_none (cipher_type s)
     then body = P /\ cipher_ctx s' = cipher_ctx s
     else exists c c', cipher_ctx s = Some c /\ crypt c P = Some (c', body)
                       /\ cipher_ctx s' = Some c')
    /\ (if is_mac_none (mac_type s)
        then tag = []
        else ssh_mac_compute digest (mac_ctx s) (seq_num s) P = Some tag)
    /\ data (pack s') = P ++ (if is_cipher_none (cipher_type s) then tag else [])
    /\ len (pack s') = length P
    /\ length body = length P
    /\ length tag = Z.to_nat (mac_len s)
    /\ config s' = config (set_seq_num (u32 (seq_num s + 1)) s)
    /\ net_buffer s' = net_buffer s
    /\ net_tx w' = net_tx w ++ body ++ tag
    /\ net_rx w' = net_rx w
    /\ net_wr_ok w = true.
Proof.
  intros Hcl Hmac Hsend pad fw P.
  unfold send_payload in Hsend.
  rewrite (bind_exec _ _ _ _ _ (start_packet_exec s w payload)) in Hsend.
  unfold ssh_stream_send_packet in Hsend.
  set (s0 := buf_set PACK (mkbuf (0 :: 0 :: 0 :: 0 :: 0 :: payload)
                             (5 + length payload)) s) in Hsend.
  rewrite (bind_exec _ _ _ _ _ (eq_refl : get_stream (s0, w) = ((s0, w), Ok s0)))
    in Hsend.
  apply bind_ok in Hsend. destruct Hsend as ([] & [s1 w1] & Hfin & Hrest).
  assert (Hmac0 : mac_len_ok digest s0) by exact Hmac.
  pose proof (finish_packet_ok s0 w s1 w1 0 0 0 0 0 payload eq_refl Hcl Hmac0 Hfin)
    as (body & tag & Hbody & Htag & Hdata & Hlen & Hwd & Hwl & Hlb & Hlt
        & Hcfg & Hnb & Hw1).
  change (cipher_type s0) with (cipher_type s) in *.
  change (cipher_block_len s0) with (cipher_block_len s) in *.
  change (mac_type s0) with (mac_type s) in *.
  change (mac_len s0) with (mac_len s) in *.
  change (mac_ctx s0) with (mac_ctx s) in *.
  change (seq_num s0) with (seq_num s) in *.
  change (cipher_ctx s0) with (cipher_ctx s) in *.
  change (config s0) with (config s) in *.
  change (net_buffer s0) with (net_buffer s) in *.
  fold pad in Hbody, Htag, Hdata, Hlen, Hwd, Hwl, Hlb, Hw1.
  fold fw in Hbody, Htag, Hdata, Hlen, Hwd, Hwl, Hlb, Hw1.
  fold P in Hbody, Htag, Hdata, Hlen, Hwd, Hwl, Hlb.
  destruct (pad_fill_net (is_cipher_none (cipher_type s)) w (Z.to_nat pad))
    as (Hrx & Htx & Hok).
  fold fw in Hrx, Htx, Hok.
  clearbody P. clearbody fw.
  destruct (config_fields _ _ Hcfg) as (Hsq & Hct & Hcb & Hmt & Hmlen & Hmc).
  revert Hrest. unfold net_write_all, ssh_net_write_all. mrun.
  assert (Hwp : (if is_cipher_none (cipher_type s1) then PACK else PACK_ENC)
                = (if is_cipher_none (cipher_type s) then PACK else PACK_ENC))
    by (now rewrite Hct).
  destruct (net_wr_ok w1) eqn:Hup; [| discriminate].
  intros Heq. inversion Heq; subst s' w'. clear Heq.
  exists body, tag.
  rewrite buf_at_set_seq_num, Hwl, Hwd, Hmlen, <- Hlt, <- length_app, firstn_all.
  cbn [net_tx net_rx]. subst w1. rewrite Hrx, Htx. rewrite Hok in Hup.
  cbn [set_seq_num cipher_ctx pack net_buffer]. rewrite Hsq.
  repeat split; try assumption.
  unfold config in *. cbn [set_seq_num seq_num cipher_type cipher_block_len
    mac_type mac_len mac_ctx]. congruence.
Qed.

(** What [finish_packet] leaves in [pack], whether or not the cipher and
    the MAC succeed. *)
Lemma encrypt_packet_pack (st : ST CIPHER_CTX MAC_CTX) :
  pack (fst (fst (encrypt_packet crypt st))) = pack (fst st).
Proof.
  destruct st as [s w]. unfold encrypt_packet, cipher_crypt. mrun.
  destruct (is_cipher_none (cipher_type s)); mrun; [reflexivity |].
  destruct (cipher_ctx s) as [c |]; [| reflexivity].
  destruct (crypt c (contents (pack s))) as [[c' out] |]; reflexivity.
Qed.

Lemma firstn_poke_end (a tag z : list Z) :
  firstn (length a) (poke (length a) tag (a ++ z)) = a.
Proof.
  unfold poke. rewrite (firstn_app_exact a z) by reflexivity.
  now rewrite firstn_app_exact.
Qed.

Lemma write_mac_pack (s : STREAM) w P :
  pack s = mkbuf P (length P) ->
  let s' := fst (fst (write_mac digest (s, w))) in
  firstn (length P) (data (pack s')) = P /\ len (pack s') = length P.
Proof.
  intros Hpack. unfold write_mac, mac_compute. mrun.
  destruct (is_mac_none (mac_type s)); mrun.
  - rewrite Hpack. cbn [data len]. split; [apply firstn_all | reflexivity].
  - destruct (is_cipher_none (cipher_type s)); mrun; rewrite ?Hpack; mrun;
      match goal with
      | |- context [ssh_mac_compute ?d ?c ?q ?x] =>
          destruct (ssh_mac_compute d c q x) as [tag |]
      end; mrun; rewrite ?Hpack; cbn [data len]; (split; [| reflexivity]).
    + apply firstn_poke_end.
    + now rewrite firstn_app_exact.
    + apply firstn_all.
    + apply firstn_all.
Qed.

Lemma finish_packet_pack (s : STREAM) w h0 h1 h2 h3 h4 payload :
  pack s = mkbuf (h0 :: h1 :: h2 :: h3 :: h4 :: payload) (5 + length payload) ->
  let pad := pad_len_of payload (cipher_block_len s) in
  let fw := pad_fill (is_cipher_none (cipher_type s)) w (Z.to_nat pad) in
  let P := frame payload pad (fst fw) in
  let s' := fst (fst (finish_packet crypt digest (s, w))) in
  firstn (length P) (data (pack s')) = P /\ len (pack s') = length P.
Proof.
  intros Hpack pad fw P.
  unfold finish_packet.
  rewrite (bind_exec _ _ _ _ _ (write_padding_exec s w _ _ _ _ _ _ Hpack)).
  fold pad. fold fw. fold P.
  pose proof (pad_fill_length (is_cipher_none (cipher_type s)) w (Z.to_nat pad)) as Hfill.
  fold fw in Hfill.
  assert (HlenP : length P = (5 + length payload + Z.to_nat pad)%nat).
  { unfold P. rewrite frame_length. lia. }
  rewrite <- HlenP. clearbody P. clearbody fw.
  set (st1 := (buf_set PACK (mkbuf P (length P)) s, snd fw)).
  pose proof (encrypt_packet_pack st1) as Henc.
  unfold bind.
  destruct (encrypt_packet crypt st1) as [[s2 w2] [[] | e]]; cbn [fst snd] in *.
  - apply write_mac_pack. exact Henc.
  - rewrite Henc. cbn [data len]. split; [apply firstn_all | reflexivity].
Qed.

Lemma send_packet_pack st st' :
  ssh_stream_send_packet crypt digest st = (st', Ok tt) ->
  pack (fst st') = pack (fst (fst (finish_packet crypt digest st))).
Proof.
  unfold ssh_stream_send_packet, net_write_all. mrun.
  destruct (finish_packet crypt digest st) as [[s1 w1] [[] | e]]; [| discriminate].
  mrun. destruct (ssh_net_write_all w1 _); [| discriminate].
  intros H. inversion H; subst. reflexivity.
Qed.

Lemma nth_firstn_lt (l : list Z) n i d :
  (i < n)%nat -> nth i (firstn n l) d = nth i l d.
Proof.
  revert n i. induction l as [| x l IH]; intros n i Hi.
  - now rewrite firstn_nil.
  - destruct n; [lia |]. destruct i; [reflexivity |].
    cbn. apply IH. lia.
Qed.

Lemma ssh_buf_get_u32_firstn (l : list Z) n :
  (4 <= n)%nat -> ssh_buf_get_u32 (firstn n l) = ssh_buf_get_u32 l.
Proof.
  intros Hn. unfold ssh_buf_get_u32. now rewrite !nth_firstn_lt by lia.
Qed.

Lemma frame_nth4 payload pad fill : nth 4 (frame payload pad fill) 0 = pad.
Proof. reflexivity. Qed.

Lemma frame_get_u32 payload pad fill :
  ssh_buf_get_u32 (frame payload pad fill)
  = u32 (1 + Z.of_nat (length payload) + pad).
Proof. unfold frame. apply ssh_buf_get_set_u32. Qed.

(** ** The send path: padding, MAC, sequence number *)

Lemma send_payload_pack (s : STREAM) w s' w' payload :
  send_payload crypt digest payload (s, w) = ((s', w'), Ok tt) ->
  let pad := pad_len_of payload (cipher_block_len s) in
  let fw := pad_fill (is_cipher_none (cipher_type s)) w (Z.to_nat pad) in
  let P := frame payload pad (fst fw) in
  firstn (length P) (data (pack s')) = P /\ len (pack s') = length P.
Proof.
  intros Hsend. unfold send_payload in Hsend.
  rewrite (bind_exec _ _ _ _ _ (start_packet_exec s w payload)) in Hsend.
  apply send_packet_pack in Hsend. cbn [fst] in Hsend. rewrite Hsend.
  exact (finish_packet_pack
           (buf_set PACK (mkbuf (0 :: 0 :: 0 :: 0 :: 0 :: payload)
                            (5 + length payload)) s)
           w 0 0 0 0 0 payload eq_refl).
Qed.

Lemma pad_len_of_spec payload cbl :
  0 <= cbl <= 252 ->
  Z.of_nat (length payload) + 260 < 4294967296 ->
  let payload_len := Z.of_nat (length payload) in
  let block := Z.max cbl 8 in
  let pad0 := block - (payload_len + 5) mod block in
  pad_len_of payload cbl = (if pad0 <? 4 then pad0 + block else pad0)
  /\ 4 <= pad_len_of payload cbl <= 255
  /\ (payload_len + 5 + pad_len_of payload cbl) mod block = 0.
Proof.
  intros Hcbl Hlen payload_len block pad0.
  unfold pad_len_of. rewrite u32_small, u8_small by lia.
  replace (Z.of_nat (5 + length payload)) with (payload_len + 5)
    by (unfold payload_len; lia).
  apply calc_pad_len_spec; unfold payload_len; lia.
Qed.

(** C2 (padding arithmetic).  For every packet that [ssh_stream_send_packet]
    sends on a stream whose cipher block length is at most 252 (a payload
    below 4 GiB): the padding-length octet is
    [block - ((payload_len + 5) mod block)] with
    [block = max(cipher_block_len, 8)], plus [block] when that is below 4; it
    lies in [4, 255]; the packet_length field is
    [1 + payload_len + pad_len]; and [(packet_length + 4) mod block = 0]. *)
Theorem padding_arithmetic (s : STREAM) w s' w' payload :
  0 <= cipher_block_len s <= 252 ->
  Z.of_nat (length payload) + 260 < 4294967296 ->
  send_payload crypt digest payload (s, w) = ((s', w'), Ok tt) ->
  let payload_len := Z.of_nat (length payload) in
  let block := Z.max (cipher_block_len s) 8 in
  let pad0 := block - (payload_len + 5) mod block in
  let pad_len := if pad0 <? 4 then pad0 + block else pad0 in
  let packet_length := ssh_buf_get_u32 (data (pack s')) in
  nth 4 (data (pack s')) 0 = pad_len
  /\ 4 <= pad_len <= 255
  /\ packet_length = 1 + payload_len + pad_len
  /\ (packet_length + 4) mod block = 0
  /\ Z.of_nat (len (pack s')) = packet_length + 4.
Proof.
  intros Hcbl Hlen Hsend payload_len block pad0 pad_len packet_length.
  destruct (send_payload_pack _ _ _ _ _ Hsend) as [Hdata Hplen].
  destruct (pad_len_of_spec payload (cipher_block_len s) Hcbl Hlen)
    as (Hpad & Hrange & Hmod).
  fold payload_len block pad0 in Hpad, Hmod. fold pad_len in Hpad.
  rewrite Hpad in *.
  set (fill := fst (pad_fill (is_cipher_none (cipher_type s)) w (Z.to_nat pad_len))) in *.
  assert (Hfill : length fill = Z.to_nat pad_len) by apply pad_fill_length.
  assert (HlenP : length (frame payload pad_len fill)
                  = (5 + length payload + Z.to_nat pad_len)%nat)
    by (rewrite frame_length; lia).
  assert (Hnth : nth 4 (data (pack s')) 0 = pad_len).
  { rewrite <- (nth_firstn_lt _ (length (frame payload pad_len fill))) by lia.
    rewrite Hdata. apply frame_nth4. }
  assert (Hu32 : packet_length = 1 + payload_len + pad_len).
  { unfold packet_length.
    rewrite <- (ssh_buf_get_u32_firstn _ (length (frame payload pad_len fill))) by lia.
    rewrite Hdata, frame_get_u32. apply u32_small. unfold payload_len. lia. }
  assert (Hblock : (packet_length + 4) mod block = 0).
  { rewrite Hu32.
    replace (1 + payload_len + pad_len + 4) with (payload_len + 5 + pad_len) by lia.
    exact Hmod. }
  assert (Hwhole : Z.of_nat (len (pack s')) = packet_length + 4).
  { rewrite Hplen, HlenP, Hu32. unfold payload_len. lia. }
  repeat split; try assumption; lia.
Qed.

(** C3 (MAC construction).  For every packet sent with a MAC installed: the
    MAC is the digest of the 4-octet big-endian [seq_num] followed by the
    unencrypted framed packet (length field, pad-length octet, payload,
    padding); the socket receives the ciphertext of that packet (the packet
    itself when cipher = none) followed by the MAC octets as they are; and
    the packet_length field is the length of the framed packet less the four
    octets of the field, so it does not count the MAC. *)
Theorem mac_construction (s : STREAM) w s' w' payload :
  is_mac_none (mac_type s) = false ->
  cipher_keeps_length crypt ->
  mac_len_ok digest s ->
  send_payload crypt digest payload (s, w) = ((s', w'), Ok tt) ->
  let pad_len := pad_len_of payload (cipher_block_len s) in
  let fill := fst (pad_fill (is_cipher_none (cipher_type s)) w (Z.to_nat pad_len)) in
  let plain := frame payload pad_len fill in
  exists body tag mctx,
    contents (pack s') = plain
    /\ mac_ctx s = Some mctx
    /\ digest mctx (ssh_buf_set_u32 (seq_num s) ++ plain) = Some tag
    /\ (if is_cipher_none (cipher_type s)
        then body = plain
        else exists c c', cipher_ctx s = Some c /\ crypt c plain = Some (c', body))
    /\ net_tx w' = net_tx w ++ body ++ tag
    /\ length tag = Z.to_nat (mac_len s)
    /\ length body = length plain
    /\ ssh_buf_get_u32 plain = u32 (Z.of_nat (length body) - 4).
Proof.
  intros Hmnone Hcl Hmac Hsend pad_len fill plain.
  destruct (send_payload_ok s w s' w' payload Hcl Hmac Hsend)
    as (body & tag & Hbody & Htag & Hdata & Hlen & Hlb & Hlt & _ & _ & Htx & _).
  fold pad_len in Hbody, Htag, Hdata, Hlen, Hlb.
  fold fill in Hbody, Htag, Hdata, Hlen, Hlb.
  fold plain in Hbody, Htag, Hdata, Hlen, Hlb.
  rewrite Hmnone in Htag. unfold ssh_mac_compute in Htag.
  destruct (mac_ctx s) as [mctx |] eqn:Hmctx; [| discriminate].
  exists body, tag, mctx.
  assert (Hfill : length fill = Z.to_nat pad_len) by apply pad_fill_length.
  pose proof (calc_pad_len_range (u32 (Z.of_nat (5 + length payload)))
                (u8 (cipher_block_len s))) as Hpad.
  fold (pad_len_of payload (cipher_block_len s)) in Hpad. fold pad_len in Hpad.
  repeat split; try assumption; try reflexivity.
  - unfold contents. rewrite Hlen, Hdata. now apply firstn_app_exact.
  - destruct (is_cipher_none (cipher_type s)).
    + apply Hbody.
    + destruct Hbody as (c & c' & Hc & Hcr & _). now exists c, c'.
  - unfold plain at 1. rewrite frame_get_u32. f_equal.
    rewrite Hlb. unfold plain. rewrite frame_length. lia.
Qed.

(** C4, as the code has it (send-side sequence-number timing).
    [ssh_stream_send_packet] increments [seq_num] as soon as [finish_packet]
    has succeeded, before the socket write: when [finish_packet] fails the
    send fails with its error and [seq_num] is unchanged; when it succeeds,
    [seq_num] is incremented whether the write then succeeds or fails. *)
Theorem send_seq_num_timing (st : ST CIPHER_CTX MAC_CTX) :
  let fin := finish_packet crypt digest st in
  let out := ssh_stream_send_packet crypt digest st in
  match snd fin with
  | Err e =>
      out = (fst fin, Err e) /\ seq_num (fst (fst out)) = seq_num (fst st)
  | Ok _ =>
      seq_num (fst (fst out)) = u32 (seq_num (fst st) + 1)
      /\ snd out = (if net_wr_ok (snd (fst fin)) then Ok tt else Err ERR_IO)
  end.
Proof.
  intros fin out. subst fin out.
  pose proof (keeps_finish_packet st) as Hk.
  unfold ssh_stream_send_packet, net_write_all, ssh_net_write_all. mrun.
  destruct (finish_packet crypt digest st) as [[s1 w1] [[] | e]];
    cbn [fst snd] in *; mrun.
  - apply config_seq_num in Hk. rewrite Hk.
    destruct (net_wr_ok w1); cbn [fst snd seq_num]; split; reflexivity.
  - split; [reflexivity |]. now apply config_seq_num.
Qed.

(** *** The receive path *)

(** C6 (receive-failure atomicity).  Whenever [ssh_stream_recv_packet]
    fails, with whatever error, the [seq_num] of the receiving stream is
    what it was before the call. *)
Theorem recv_failure_keeps_seq_num (st st' : ST CIPHER_CTX MAC_CTX) e :
  ssh_stream_recv_packet crypt digest st = (st', Err e) ->
  seq_num (fst st') = seq_num (fst st).
Proof.
  intros H. apply config_seq_num. revert st st' e H.
  unfold ssh_stream_recv_packet, recv_rest.
  apply bind_err_keeps; [apply keeps_recv_first_block | intros _].
  apply bind_err_keeps; [apply keeps_get | intros s0].
  apply bind_err_keeps; [apply keeps_recv_remainder | intros _].
  apply bind_err_keeps; [apply keeps_decrypt_remainder | intros _].
  apply bind_err_keeps; [apply keeps_verify_read_packet | intros _].
  intros st st' e H. discriminate H.
Qed.

(** The other half of the invariant: a successful receive increments
    [seq_num] exactly once. *)
Lemma recv_success_increments_seq_num (st st' : ST CIPHER_CTX MAC_CTX) :
  ssh_stream_recv_packet crypt digest st = (st', Ok tt) ->
  seq_num (fst st') = u32 (seq_num (fst st) + 1).
Proof.
  unfold ssh_stream_recv_packet, recv_rest. intros H.
  apply bind_ok in H. destruct H as ([] & st1 & H1 & H).
  apply bind_ok in H. destruct H as (s0 & st2 & H2 & H).
  apply bind_ok in H. destruct H as ([] & st3 & H3 & H).
  apply bind_ok in H. destruct H as ([] & st4 & H4 & H).
  apply bind_ok in H. destruct H as ([] & st5 & H5 & H).
  inversion H; subst. cbn [fst seq_num set_seq_num].
  pose proof (keeps_recv_first_block st) as K1. rewrite H1 in K1.
  pose proof (keeps_get st1) as K2. rewrite H2 in K2.
  pose proof (keeps_recv_remainder st2) as K3. rewrite H3 in K3.
  pose proof (keeps_decrypt_remainder (ssh_buf_get_u32 (data (pack s0))) st3) as K4.
  rewrite H4 in K4.
  pose proof (keeps_verify_read_packet st4) as K5. rewrite H5 in K5.
  cbn [fst] in *.
  apply config_seq_num in K1, K2, K3, K4, K5. congruence.
Qed.

(** *** Reading from the read-ahead buffer and the socket *)

Lemma poke_poke (p : nat) (b1 b2 mem : list Z) :
  (p <= length mem)%nat ->
  poke (p + length b1) b2 (poke p b1 mem) = poke p (b1 ++ b2) mem.
Proof.
  intros Hp. unfold poke.
  set (F := firstn p mem). set (S := skipn (p + length b1) mem).
  assert (Hf : length F = p) by (unfold F; rewrite length_firstn; lia).
  rewrite (app_assoc F b1 S).
  rewrite (firstn_app_exact (F ++ b1) S) by (rewrite length_app; lia).
  rewrite (skipn_app (p + length b1 + length b2) (F ++ b1) S).
  rewrite (skipn_all2 (F ++ b1)) by (rewrite length_app; lia).
  rewrite length_app, Hf. cbn [app].
  replace (p + length b1 + length b2 - (p + length b1))%nat with (length b2) by lia.
  unfold S. rewrite skipn_skipn, length_app.
  replace (length b2 + (p + length b1))%nat with (p + (length b1 + length b2))%nat by lia.
  now rewrite <- !app_assoc.
Qed.

Lemma poke_nil (p : nat) (mem : list Z) : poke p [] mem = mem.
Proof.
  unfold poke. cbn [app length]. rewrite Nat.add_0_r. apply firstn_skipn.
Qed.

Lemma buffer_eta (b : SSH_BUFFER) : mkbuf (data b) (len b) = b.
Proof. now destruct b. Qed.

Lemma firstn_app_short {A} (a b : list A) n :
  (n <= length a)%nat -> firstn n (a ++ b) = firstn n a.
Proof.
  intros H. rewrite firstn_app.
  replace (n - length a)%nat with 0%nat by lia.
  cbn [firstn]. apply app_nil_r.
Qed.

Lemma stream_recv_data_ok (s : STREAM) w r p n :
  r <> NET_BUFFER ->
  (len (net_buffer s) <= length (data (net_buffer s)))%nat ->
  (n <= length (pending s w))%nat ->
  (p <= length (data (buf_at r s)))%nat ->
  exists s' w',
    stream_recv_data r p n (s, w) = ((s', w'), Ok tt)
    /\ buf_at r s'
       = mkbuf (poke p (firstn n (pending s w)) (data (buf_at r s)))
           (len (buf_at r s))
    /\ pending s' w' = skipn n (pending s w)
    /\ (len (net_buffer s') <= length (data (net_buffer s')))%nat
    /\ config s' = config s
    /\ cipher_ctx s' = cipher_ctx s
    /\ (forall r', r' <> r -> r' <> NET_BUFFER -> buf_at r' s' = buf_at r' s)
    /\ net_tx w' = net_tx w.
Proof.
  intros Hr Hnb Hn Hp.
  unfold pending, contents in *.
  unfold stream_recv_data, buf_remove_data, ssh_buf_remove_data,
    net_read_all, ssh_net_read_all.
  assert (Hcl : length (firstn (len (net_buffer s)) (data (net_buffer s)))
                = len (net_buffer s))
    by (rewrite length_firstn; lia).
  rewrite length_app, Hcl in Hn.
  destruct r; [ | | congruence]; mrun.
  - destruct (Nat.ltb_spec 0 (len (net_buffer s))) as [Hpos | Hzero]; mrun.
    + cbn [Nat.add].
      rewrite (proj2 (Nat.leb_le _ _) (Nat.le_min_l _ _)). mrun.
      destruct (Nat.ltb_spec 0 (n - Nat.min (len (net_buffer s)) n)) as [Hmore | Hdone]; mrun.
      * rewrite Nat.min_l in * by lia.
        rewrite (proj2 (Nat.leb_le _ _)) by lia. mrun.
        eexists; eexists; split; [reflexivity |]. mrun. cbn [net_rx net_tx].
        repeat split; try reflexivity; try (cbn [length]; lia).
        -- rewrite firstn_app, Hcl.
           rewrite (firstn_all2 (firstn (len (net_buffer s)) (data (net_buffer s))))
             by lia.
           rewrite <- poke_poke by exact Hp. now rewrite Hcl.
        -- rewrite Nat.sub_diag, skipn_app, Hcl.
           now rewrite (skipn_all2 (firstn (len (net_buffer s)) (data (net_buffer s))))
             by lia.
        -- intros r' Hr1 Hr2; destruct r'; try congruence; reflexivity.
      * assert (Hle : (n <= len (net_buffer s))%nat) by lia.
        rewrite Nat.min_r in * by lia.
        eexists; eexists; split; [reflexivity |]; mrun.
        repeat split; try reflexivity.
        -- now rewrite firstn_app_short, firstn_firstn, Nat.min_l by lia.
        -- rewrite skipn_app, Hcl, skipn_firstn_comm.
           replace (n - len (net_buffer s))%nat with 0%nat by lia. reflexivity.
        -- rewrite length_app, length_skipn; cbn [firstn length]; lia.
        -- intros r' Hr1 Hr2; destruct r'; try congruence; reflexivity.
    + assert (Hz : forall l : list Z, firstn (len (net_buffer s)) l = [])
        by (intros l; replace (len (net_buffer s)) with 0%nat by lia; reflexivity).
      destruct (Nat.ltb_spec 0 n) as [Hmore | Hdone]; mrun.
      * rewrite (proj2 (Nat.leb_le _ _)) by lia. mrun.
        eexists; eexists; split; [reflexivity |]. mrun. cbn [net_rx net_tx].
        repeat split; try reflexivity; try exact Hnb.
        -- now rewrite Hz.
        -- now rewrite Hz.
        -- intros r' Hr1 Hr2; destruct r'; try congruence; reflexivity.
      * eexists; eexists; split; [reflexivity |]. mrun.
        replace n with 0%nat by lia.
        repeat split; try reflexivity; try exact Hnb.
        cbn [firstn]. rewrite poke_nil. symmetry. apply buffer_eta.
  - destruct (Nat.ltb_spec 0 (len (net_buffer s))) as [Hpos | Hzero]; mrun.
    + cbn [Nat.add].
      rewrite (proj2 (Nat.leb_le _ _) (Nat.le_min_l _ _)). mrun.
      destruct (Nat.ltb_spec 0 (n - Nat.min (len (net_buffer s)) n)) as [Hmore | Hdone]; mrun.
      * rewrite Nat.min_l in * by lia.
        rewrite (proj2 (Nat.leb_le _ _)) by lia. mrun.
        eexists; eexists; split; [reflexivity |]. mrun. cbn [net_rx net_tx].
        repeat split; try reflexivity; try (cbn [length]; lia).
        -- rewrite firstn_app, Hcl.
           rewrite (firstn_all2 (firstn (len (net_buffer s)) (data (net_buffer s))))
             by lia.
           rewrite <- poke_poke by exact Hp. now rewrite Hcl.
        -- rewrite Nat.sub_diag, skipn_app, Hcl.
           now rewrite (skipn_all2 (firstn (len (net_buffer s)) (data (net_buffer s))))
             by lia.
        -- intros r' Hr1 Hr2; destruct r'; try congruence; reflexivity.
      * assert (Hle : (n <= len (net_buffer s))%nat) by lia.
        rewrite Nat.min_r in * by lia.
        eexists; eexists; split; [reflexivity |]; mrun.
        repeat split; try reflexivity.
        -- now rewrite firstn_app_short, firstn_firstn, Nat.min_l by lia.
        -- rewrite skipn_app, Hcl, skipn_firstn_comm.
           replace (n - len (net_buffer s))%nat with 0%nat by lia. reflexivity.
        -- rewrite length_app, length_skipn; cbn [firstn length]; lia.
        -- intros r' Hr1 Hr2; destruct r'; try congruence; reflexivity.
    + assert (Hz : forall l : list Z, firstn (len (net_buffer s)) l = [])
        by (intros l; replace (len (net_buffer s)) with 0%nat by lia; reflexivity).
      destruct (Nat.ltb_spec 0 n) as [Hmore | Hdone]; mrun.
      * rewrite (proj2 (Nat.leb_le _ _)) by lia. mrun.
        eexists; eexists; split; [reflexivity |]. mrun. cbn [net_rx net_tx].
        repeat split; try reflexivity; try exact Hnb.
        -- now rewrite Hz.
        -- now rewrite Hz.
        -- intros r' Hr1 Hr2; destruct r'; try congruence; reflexivity.
      * eexists; eexists; split; [reflexivity |]. mrun.
        replace n with 0%nat by lia.
        repeat split; try reflexivity; try exact Hnb.
        cbn [firstn]. rewrite poke_nil. symmetry. apply buffer_eta.
Qed.

Lemma buf_at_set_same r b (s : STREAM) : buf_at r (buf_set r b s) = b.
Proof. destruct r; reflexivity. Qed.

Lemma buf_at_set_other r r' b (s : STREAM) :
  r' <> r -> buf_at r' (buf_set r b s) = buf_at r' s.
Proof. intros H. destruct r, r'; try congruence; reflexivity. Qed.

Lemma net_buffer_buf_set r b (s : STREAM) :
  r <> NET_BUFFER -> net_buffer (buf_set r b s) = net_buffer s.
Proof. intros H. destruct r; try congruence; reflexivity. Qed.

Lemma cipher_ctx_buf_set r b (s : STREAM) :
  cipher_ctx (buf_set r b s) = cipher_ctx s.
Proof. destruct r; reflexivity. Qed.

Lemma pending_buf_set r b (s : STREAM) w :
  r <> NET_BUFFER -> pending (buf_set r b s) w = pending s w.
Proof. intros Hr. destruct r; try congruence; reflexivity. Qed.

(** *** The first block *)

Lemma recv_first_block_plain (r : STREAM) wr :
  let fbl := Z.to_nat (u32 (recv_block_len (cipher_block_len r))) in
  is_cipher_none (cipher_type r) = true ->
  (len (net_buffer r) <= length (data (net_buffer r)))%nat ->
  (fbl <= length (pending r wr))%nat ->
  exists s1 w1,
    recv_first_block crypt (r, wr) = ((s1, w1), Ok tt)
    /\ pack s1 = mkbuf (firstn fbl (pending r wr)) fbl
    /\ pending s1 w1 = skipn fbl (pending r wr)
    /\ (len (net_buffer s1) <= length (data (net_buffer s1)))%nat
    /\ config s1 = config r
    /\ cipher_ctx s1 = cipher_ctx r.
Proof.
  intros fbl Hnone Hnb Hlen.
  unfold recv_first_block. mrun. rewrite Hnone. mrun.
  fold (recv_block_len (cipher_block_len r)). fold fbl.
  set (sa := mkstream _ _ _ _ _ _ _ _ _ _).
  destruct (stream_recv_data_ok sa wr PACK 0 fbl) as
    (s1 & w1 & Hrun & Hbuf & Hpend & Hnb1 & Hcfg & Hctx & _ & _);
    [discriminate | exact Hnb | exact Hlen | cbn; lia |].
  rewrite Hrun. exists s1, w1.
  change (pending sa wr) with (pending r wr) in *.
  cbn [buf_at] in Hbuf. subst sa.
  cbn [pack data len firstn app Nat.add] in Hbuf.
  rewrite poke_whole in Hbuf by (rewrite length_firstn; lia).
  repeat split; assumption.
Qed.

Lemma recv_first_block_cipher (r : STREAM) wr d d1 out :
  let fbl := Z.to_nat (u32 (recv_block_len (cipher_block_len r))) in
  is_cipher_none (cipher_type r) = false ->
  (len (net_buffer r) <= length (data (net_buffer r)))%nat ->
  (fbl <= length (pending r wr))%nat ->
  cipher_ctx r = Some d ->
  crypt d (firstn fbl (pending r wr)) = Some (d1, out) ->
  length out = fbl ->
  exists s1 w1,
    recv_first_block crypt (r, wr) = ((s1, w1), Ok tt)
    /\ pack s1 = mkbuf out fbl
    /\ pack_enc s1 = mkbuf (firstn fbl (pending r wr)) fbl
    /\ pending s1 w1 = skipn fbl (pending r wr)
    /\ (len (net_buffer s1) <= length (data (net_buffer s1)))%nat
    /\ config s1 = config r
    /\ cipher_ctx s1 = Some d1.
Proof.
  intros fbl Hnone Hnb Hlen Hd Hcrypt Hout.
  unfold recv_first_block. mrun. rewrite Hnone. mrun.
  fold (recv_block_len (cipher_block_len r)). fold fbl.
  set (sa := mkstream _ _ _ _ _ _ _ _ _ _).
  destruct (stream_recv_data_ok sa wr PACK_ENC 0 fbl) as
    (s1 & w1 & Hrun & Hbuf & Hpend & Hnb1 & Hcfg & Hctx & _ & _);
    [discriminate | exact Hnb | exact Hlen | cbn; lia |].
  rewrite Hrun.
  change (pending sa wr) with (pending r wr) in *.
  cbn [buf_at] in Hbuf. subst sa.
  cbn [pack_enc data len firstn app Nat.add cipher_ctx] in Hbuf, Hctx.
  rewrite poke_whole in Hbuf by (rewrite length_firstn; lia).
  unfold cipher_crypt, contents. mrun.
  rewrite Hctx, Hd, Hbuf. cbn [data len].
  rewrite firstn_all2 by (rewrite length_firstn; lia).
  rewrite Hcrypt. mrun. cbn [firstn app Nat.add].
  rewrite poke_whole by exact Hout.
  eexists. eexists. split; [reflexivity |].
  cbn [pack pack_enc net_buffer cipher_ctx].
  repeat split; try assumption; try reflexivity.
Qed.

(** *** The rest of the packet *)

Lemma recv_remainder_ok (s : STREAM) w :
  let read_pack := if is_cipher_none (cipher_type s) then PACK else PACK_ENC in
  let fbl := u32 (recv_block_len (cipher_block_len s)) in
  let pack_len := ssh_buf_get_u32 (data (pack s)) in
  let rem := Z.to_nat (u32 (pack_len + mac_len s - fbl + 4)) in
  pack_len <> 0 -> pack_len <= 65536 ->
  (len (net_buffer s) <= length (data (net_buffer s)))%nat ->
  (rem <= length (pending s w))%nat ->
  length (data (buf_at read_pack s)) = len (buf_at read_pack s) ->
  exists s' w',
    recv_remainder (s, w) = ((s', w'), Ok tt)
    /\ buf_at read_pack s'
       = mkbuf (data (buf_at read_pack s) ++ firstn rem (pending s w))
           (Z.to_nat (u32 (pack_len + 4)))
    /\ pending s' w' = skipn rem (pending s w)
    /\ (len (net_buffer s') <= length (data (net_buffer s')))%nat
    /\ config s' = config s
    /\ cipher_ctx s' = cipher_ctx s
    /\ (forall r', r' <> read_pack -> r' <> NET_BUFFER ->
          buf_at r' s' = buf_at r' s).
Proof.
  intros read_pack fbl pack_len rem Hnz Hmax Hnb Hrem Hfull.
  unfold recv_remainder. mrun.
  fold (recv_block_len (cipher_block_len s)). fold fbl. fold pack_len.
  destruct (Z.eqb_spec pack_len 0) as [Hz | _]; [contradiction |].
  destruct (Z.ltb_spec 65536 pack_len) as [Hbig | _]; [lia |].
  cbn [orb]. mrun. fold rem. fold read_pack.
  assert (Hrp : read_pack <> NET_BUFFER)
    by (unfold read_pack; destruct (is_cipher_none _); discriminate).
  clearbody read_pack.
  set (b := buf_at read_pack s) in *.
  set (sa := buf_set read_pack (mkbuf (firstn (len b) (data b) ++ repeat 0 rem)
                                  (len b + rem)) s).
  assert (Hat : buf_at read_pack sa
                = mkbuf (firstn (len b) (data b) ++ repeat 0 rem) (len b + rem))
    by apply buf_at_set_same.
  assert (Hpsa : pending sa w = pending s w)
    by (unfold sa; now rewrite pending_buf_set).
  destruct (stream_recv_data_ok sa w read_pack (len b) rem) as
    (s1 & w1 & Hrun & Hbuf & Hpend & Hnb1 & Hcfg & Hctx & Hoth & _).
  - exact Hrp.
  - unfold sa. now rewrite net_buffer_buf_set.
  - now rewrite Hpsa.
  - rewrite Hat. cbn [data]. rewrite length_app, length_firstn. lia.
  - rewrite Hrun. mrun.
    eexists. eexists. split; [reflexivity |].
    rewrite Hpsa in *. rewrite Hat in Hbuf. cbn [data len] in Hbuf.
    rewrite <- Hfull, firstn_all in Hbuf.
    rewrite poke_end in Hbuf
      by (rewrite repeat_length, length_firstn; lia).
    repeat split.
    + rewrite buf_at_set_same, Hbuf. reflexivity.
    + now rewrite pending_buf_set.
    + now rewrite net_buffer_buf_set.
    + rewrite config_buf_set, Hcfg. apply config_buf_set.
    + rewrite cipher_ctx_buf_set, Hctx. apply cipher_ctx_buf_set.
    + intros r' Hr1 Hr2.
      rewrite buf_at_set_other, (Hoth r' Hr1 Hr2) by congruence.
      apply buf_at_set_other. congruence.
Qed.

Lemma decrypt_remainder_plain (s : STREAM) w pack_len :
  is_cipher_none (cipher_type s) = true ->
  decrypt_remainder crypt pack_len (s, w) = ((s, w), Ok tt).
Proof. intros H. unfold decrypt_remainder. mrun. rewrite H. reflexivity. Qed.

Lemma decrypt_remainder_cipher (s : STREAM) w pack_len d1 d2 out :
  let fbl := u32 (recv_block_len (cipher_block_len s)) in
  let rem := u32 (pack_len + mac_len s - fbl + 4) in
  let n := Z.to_nat (u32 (rem - mac_len s)) in
  let total := Z.to_nat (u32 (pack_len + 4)) in
  let input := firstn n (skipn (Z.to_nat fbl) (data (pack_enc s))) in
  let tag := firstn (Z.to_nat (mac_len s)) (skipn total (data (pack_enc s))) in
  is_cipher_none (cipher_type s) = false ->
  cipher_ctx s = Some d1 ->
  crypt d1 input = Some (d2, out) ->
  length out = n ->
  length (data (pack s)) = len (pack s) ->
  (len (pack s) + n)%nat = total ->
  exists s',
    decrypt_remainder crypt pack_len (s, w) = ((s', w), Ok tt)
    /\ pack s' = mkbuf (data (pack s) ++ out ++ tag) total
    /\ config s' = config s
    /\ net_buffer s' = net_buffer s
    /\ cipher_ctx s' = Some d2.
Proof.
  intros fbl rem n total input tag Hnone Hd Hcrypt Hout Hfull Htotal.
  unfold decrypt_remainder, cipher_crypt. mrun. rewrite Hnone. mrun.
  fold (recv_block_len (cipher_block_len s)). fold fbl. fold rem. fold n.
  fold total. fold input. fold tag.
  rewrite Hd, Hcrypt. mrun.
  eexists. split; [reflexivity |]. mrun.
  repeat split; try reflexivity.
  f_equal.
  rewrite <- Hfull, firstn_all.
  rewrite poke_end by (rewrite repeat_length; lia).
  replace total with (length (data (pack s) ++ out))
    by (rewrite length_app; lia).
  rewrite poke_end_nil. now rewrite <- app_assoc.
Qed.

(** *** Verification *)

Lemma memcmp_refl a n : memcmp a a n = 0.
Proof.
  revert a. induction n as [| n IH]; intros a; cbn [memcmp]; [reflexivity |].
  now rewrite Z.eqb_refl.
Qed.

Lemma memcmp_firstn a b n :
  firstn n a = firstn n b -> memcmp a b n = 0.
Proof.
  revert a b. induction n as [| n IH]; intros a b H; cbn [memcmp]; [reflexivity |].
  destruct a as [| x a], b as [| y b]; cbn [hd tl firstn] in *.
  - apply memcmp_refl.
  - inversion H.
  - inversion H.
  - inversion H; subst. rewrite Z.eqb_refl. now apply IH.
Qed.

Lemma frame_nth4_app payload pad fill tail :
  nth 4 (frame payload pad fill ++ tail) 0 = pad.
Proof. reflexivity. Qed.

Lemma frame_get_u32_app payload pad fill tail :
  ssh_buf_get_u32 (frame payload pad fill ++ tail)
  = u32 (1 + Z.of_nat (length payload) + pad).
Proof.
  unfold frame. rewrite <- app_assoc. apply ssh_buf_get_set_u32.
Qed.

Lemma verify_read_packet_ok (s : STREAM) w payload pad fill tag :
  let P := frame payload pad fill in
  pack s = mkbuf (P ++ tag) (length P) ->
  length fill = Z.to_nat pad ->
  4 <= pad <= 255 ->
  Z.of_nat (length P) mod u8 (recv_block_len (cipher_block_len s)) = 0 ->
  (is_mac_none (mac_type s) = false ->
   ssh_mac_compute digest (mac_ctx s) (seq_num s) P = Some tag) ->
  verify_read_packet digest (s, w) = ((s, w), Ok tt).
Proof.
  intros P Hpack Hfill Hpad Hmod Hmac.
  assert (HlenP : length P = (5 + length payload + Z.to_nat pad)%nat)
    by (unfold P; rewrite frame_length; lia).
  assert (Hn4 : u8 (nth 4 (P ++ tag) 0) = pad)
    by (unfold P; rewrite frame_nth4_app; apply u8_small; lia).
  assert (Hblk : (if negb (cipher_block_len s =? 0) then cipher_block_len s else 8)
                 = recv_block_len (cipher_block_len s))
    by (unfold recv_block_len; now destruct (cipher_block_len s =? 0)).
  clearbody P.
  unfold verify_read_packet, mac_compute, contents. mrun.
  rewrite Hpack. cbn [data len].
  rewrite !Hn4, Hblk, Hmod.
  rewrite (proj2 (Z.ltb_ge pad 4)) by lia.
  rewrite (proj2 (Z.ltb_ge (Z.of_nat (length P) - 5) pad)) by lia.
  cbn [orb Z.eqb negb].
  destruct (is_mac_none (mac_type s)); mrun; [reflexivity |].
  rewrite (firstn_app_exact P tag) by reflexivity.
  rewrite (Hmac eq_refl). mrun.
  rewrite (skipn_app_exact P tag) by reflexivity.
  rewrite memcmp_refl. reflexivity.
Qed.

Lemma recv_payload_frame (s : STREAM) payload pad fill tag n :
  pack s = mkbuf (frame payload pad fill ++ tag) n ->
  0 <= pad < 256 ->
  1 + Z.of_nat (length payload) + pad < 4294967296 ->
  recv_payload s = payload.
Proof.
  intros Hpack Hpad Hlen. unfold recv_payload. rewrite Hpack. cbn [data].
  rewrite frame_get_u32_app, frame_nth4_app, u32_small, u8_small by lia.
  replace (Z.to_nat (1 + Z.of_nat (length payload) + pad + 4 - pad) - 5)%nat
    with (length payload) by lia.
  unfold frame, ssh_buf_set_u32. cbn [app skipn].
  rewrite <- app_assoc. now apply firstn_app_exact.
Qed.

(** *** Receiving a framed packet *)

Lemma firstn_firstn_skipn {A} (l : list A) a b :
  firstn a l ++ firstn b (skipn a l) = firstn (a + b) l.
Proof.
  revert l. induction a as [| a IH]; intros l; [reflexivity |].
  destruct l as [| x l]; cbn [firstn skipn Nat.add app].
  - now rewrite firstn_nil.
  - now rewrite IH.
Qed.

Lemma block_divides_length n block :
  8 <= block -> 0 < n -> n mod block = 0 -> block <= n.
Proof.
  intros Hb Hn Hmod.
  pose proof (Z.div_mod n block ltac:(lia)) as Hdiv. rewrite Hmod in Hdiv.
  assert (0 < n / block) by nia. nia.
Qed.

Lemma recv_block_len_range (r : STREAM) :
  block_len_ok r -> 8 <= recv_block_len (cipher_block_len r) <= 252.
Proof.
  unfold block_len_ok, recv_block_len. intros [H | H].
  - rewrite H. cbn. lia.
  - destruct (Z.eqb_spec (cipher_block_len r) 0); lia.
Qed.

Lemma recv_until_verify (r : STREAM) wr payload pad fill body tag rest :
  let P := frame payload pad fill in
  let block := recv_block_len (cipher_block_len r) in
  block_len_ok r ->
  length fill = Z.to_nat pad ->
  4 <= pad <= 255 ->
  1 + Z.of_nat (length payload) + pad <= 65536 ->
  Z.of_nat (length P) mod block = 0 ->
  0 <= mac_len r < 2147483648 ->
  length body = length P ->
  length tag = Z.to_nat (mac_len r) ->
  (len (net_buffer r) <= length (data (net_buffer r)))%nat ->
  pending r wr = body ++ tag ++ rest ->
  (if is_cipher_none (cipher_type r)
   then body = P
   else exists d d1 d2,
       cipher_ctx r = Some d
       /\ crypt d (firstn (Z.to_nat block) body)
          = Some (d1, firstn (Z.to_nat block) P)
       /\ crypt d1 (skipn (Z.to_nat block) body)
          = Some (d2, skipn (Z.to_nat block) P)) ->
  exists s3 w3,
    pack s3 = mkbuf (P ++ tag) (length P)
    /\ pending s3 w3 = rest
    /\ config s3 = config r
    /\ forall B (k : ACTION B),
        bind (recv_first_block crypt)
          (fun _ => bind get_stream
             (fun s0 => bind recv_remainder
                (fun _ => bind (decrypt_remainder crypt
                                  (ssh_buf_get_u32 (data (pack s0))))
                   (fun _ => k)))) (r, wr)
        = k (s3, w3).
Proof.
  intros P block Hblk Hfill Hpad Hmax Hmod Hml Hlb Hlt Hnb Hpend Hcipher.
  pose proof (recv_block_len_range r Hblk) as Hb. fold block in Hb.
  assert (HlenP : Z.of_nat (length P) = 1 + Z.of_nat (length payload) + pad + 4)
    by (unfold P; rewrite frame_length; lia).
  assert (Hge : block <= Z.of_nat (length P))
    by (apply block_divides_length; lia).
  set (L := 1 + Z.of_nat (length payload) + pad) in *.
  set (fbl := Z.to_nat block).
  assert (Hu32 : u32 block = block) by (apply u32_small; lia).
  assert (Hfbl : Z.to_nat (u32 block) = fbl) by (now rewrite Hu32).
  assert (Hrem : Z.to_nat (u32 (L + mac_len r - u32 block + 4))
                 = (length P - fbl + length tag)%nat).
  { rewrite Hu32, u32_small by lia. unfold fbl. lia. }
  assert (Htot : Z.to_nat (u32 (L + 4)) = length P)
    by (rewrite u32_small by lia; lia).
  assert (Hpl : forall tail, ssh_buf_get_u32 (firstn fbl (P ++ tail)) = L).
  { intros tail. rewrite ssh_buf_get_u32_firstn by (unfold fbl; lia).
    unfold P. rewrite frame_get_u32_app. apply u32_small. unfold L in *. lia. }
  assert (Hplen : (fbl <= length (pending r wr))%nat)
    by (rewrite Hpend, !length_app; unfold fbl; lia).
  clearbody P.
  destruct (is_cipher_none (cipher_type r)) eqn:Hnone.
  - (* no cipher: everything is read into [pack] *)
    subst body.
    destruct (recv_first_block_plain r wr Hnone Hnb) as
      (s1 & w1 & Hrun1 & Hpack1 & Hpend1 & Hnb1 & Hcfg1 & _).
    { fold block. now rewrite Hfbl. }
    fold block in Hrun1, Hpack1, Hpend1. rewrite Hfbl in Hpack1, Hpend1.
    destruct (config_fields _ _ Hcfg1) as (_ & Hct1 & Hcb1 & _ & Hml1 & _).
    assert (Hpl1 : ssh_buf_get_u32 (data (pack s1)) = L)
      by (rewrite Hpack1; cbn [data]; rewrite Hpend; apply Hpl).
    assert (Hfull1 : length (data (pack s1)) = len (pack s1))
      by (rewrite Hpack1; cbn [data len]; rewrite length_firstn; lia).
    destruct (recv_remainder_ok s1 w1) as
      (s2 & w2 & Hrun2 & Hbuf2 & Hpend2 & Hnb2 & Hcfg2 & _).
    + rewrite Hpl1. unfold L. lia.
    + rewrite Hpl1. lia.
    + exact Hnb1.
    + rewrite Hpl1, Hcb1, Hml1. fold block.
      rewrite Hrem, Hpend1, length_skipn, Hpend, !length_app.
      unfold fbl. lia.
    + rewrite Hct1, Hnone. exact Hfull1.
    + rewrite Hct1, Hnone in Hbuf2. cbn [buf_at] in Hbuf2.
      rewrite Hpl1, Hcb1, Hml1 in Hbuf2, Hpend2. fold block in Hbuf2, Hpend2.
      rewrite Hrem in Hbuf2, Hpend2. rewrite Htot in Hbuf2.
      rewrite Hpack1, Hpend1 in Hbuf2. cbn [data] in Hbuf2.
      rewrite Hpend1 in Hpend2.
      rewrite firstn_firstn_skipn in Hbuf2. rewrite skipn_skipn in Hpend2.
      assert (Hsum : (fbl + (length P - fbl + length tag))%nat
                     = length (P ++ tag))
        by (rewrite length_app; unfold fbl; lia).
      rewrite Hsum, Hpend, app_assoc, firstn_app_exact in Hbuf2 by reflexivity.
      replace (length P - fbl + length tag + fbl)%nat with (length (P ++ tag))
        in Hpend2 by lia.
      rewrite Hpend, app_assoc, skipn_app_exact in Hpend2 by reflexivity.
      exists s2, w2. repeat split; try assumption.
      * congruence.
      * intros B k.
        rewrite (bind_exec _ _ _ _ _ Hrun1).
        unfold bind at 1. cbn [get_stream fst].
        rewrite (bind_exec _ _ _ _ _ Hrun2).
        assert (Hn2 : is_cipher_none (cipher_type s2) = true)
          by (destruct (config_fields _ _ Hcfg2) as (_ & Hct2 & _); congruence).
        now rewrite (bind_exec _ _ _ _ _ (decrypt_remainder_plain s2 w2 _ Hn2)).
  - (* a cipher: ciphertext into [pack_enc], plaintext into [pack] *)
    destruct Hcipher as (d & d1 & d2 & Hd & Hc1 & Hc2).
    fold fbl in Hc1, Hc2.
    assert (Hfb : (fbl <= length body)%nat) by (unfold fbl; lia).
    assert (Hhead : firstn fbl (pending r wr) = firstn fbl body)
      by (rewrite Hpend; now apply firstn_app_short).
    destruct (recv_first_block_cipher r wr d d1 (firstn fbl P) Hnone Hnb) as
      (s1 & w1 & Hrun1 & Hpack1 & Henc1 & Hpend1 & Hnb1 & Hcfg1 & Hctx1).
    { fold block. now rewrite Hfbl. }
    { exact Hd. }
    { fold block. now rewrite Hfbl, Hhead. }
    { fold block. rewrite Hfbl, length_firstn. unfold fbl. lia. }
    fold block in Hrun1, Hpack1, Henc1, Hpend1.
    rewrite Hfbl in Hpack1, Henc1, Hpend1. rewrite Hhead in Henc1.
    destruct (config_fields _ _ Hcfg1) as (_ & Hct1 & Hcb1 & _ & Hml1 & _).
    assert (Hpl1 : ssh_buf_get_u32 (data (pack s1)) = L).
    { rewrite Hpack1. cbn [data]. rewrite <- (app_nil_r P). apply Hpl. }
    destruct (recv_remainder_ok s1 w1) as
      (s2 & w2 & Hrun2 & Hbuf2 & Hpend2 & Hnb2 & Hcfg2 & Hctx2 & Hoth2).
    + rewrite Hpl1. unfold L. lia.
    + rewrite Hpl1. lia.
    + exact Hnb1.
    + rewrite Hpl1, Hcb1, Hml1. fold block.
      rewrite Hrem, Hpend1, length_skipn, Hpend, !length_app.
      unfold fbl. lia.
    + rewrite Hct1, Hnone. cbn [buf_at]. rewrite Henc1. cbn [data len].
      rewrite length_firstn. lia.
    + rewrite Hct1, Hnone in Hbuf2, Hoth2. cbn [buf_at] in Hbuf2.
      specialize (Hoth2 PACK ltac:(discriminate) ltac:(discriminate)).
      cbn [buf_at] in Hoth2.
      rewrite Hpl1, Hcb1, Hml1 in Hbuf2, Hpend2. fold block in Hbuf2, Hpend2.
      rewrite Hrem in Hbuf2, Hpend2. rewrite Htot in Hbuf2.
      rewrite Henc1, Hpend1 in Hbuf2. cbn [data] in Hbuf2.
      rewrite Hpend1 in Hpend2. rewrite <- Hhead in Hbuf2.
      rewrite firstn_firstn_skipn in Hbuf2. rewrite skipn_skipn in Hpend2.
      assert (Hsum : (fbl + (length P - fbl + length tag))%nat
                     = length (body ++ tag))
        by (rewrite length_app; unfold fbl; lia).
      rewrite Hsum, Hpend, app_assoc, firstn_app_exact in Hbuf2 by reflexivity.
      replace (length P - fbl + length tag + fbl)%nat with (length (body ++ tag))
        in Hpend2 by lia.
      rewrite Hpend, app_assoc, skipn_app_exact in Hpend2 by reflexivity.
      destruct (config_fields _ _ Hcfg2) as (_ & Hct2 & Hcb2 & _ & Hml2 & _).
      pose proof (decrypt_remainder_cipher s2 w2 L d1 d2 (skipn fbl P)) as Hdec.
      cbv zeta in Hdec.
      rewrite Hcb2, Hcb1, Hml2, Hml1 in Hdec. fold block in Hdec.
      assert (Hremz : u32 (L + mac_len r - u32 block + 4)
                      = Z.of_nat (length P - fbl + length tag)).
      { rewrite Hu32, u32_small by lia. unfold fbl. lia. }
      rewrite Hremz, Htot, Hu32 in Hdec.
      replace (u32 (Z.of_nat (length P - fbl + length tag) - mac_len r))
        with (Z.of_nat (length P - fbl)) in Hdec
        by (rewrite u32_small by lia; lia).
      rewrite Nat2Z.id in Hdec. fold fbl in Hdec.
      rewrite Hbuf2, Hoth2, Hpack1 in Hdec. cbn [data len] in Hdec.
      rewrite skipn_app, (proj2 (Nat.sub_0_le fbl (length body)) Hfb) in Hdec.
      cbn [skipn] in Hdec.
      rewrite firstn_app_exact in Hdec by (rewrite length_skipn; lia).
      rewrite <- Hlb, skipn_app_exact in Hdec by reflexivity.
      rewrite <- Hlt, firstn_all in Hdec.
      destruct Hdec as (s3 & Hrun3 & Hpack3 & Hcfg3 & Hnb3 & _).
      * congruence.
      * congruence.
      * exact Hc2.
      * rewrite length_skipn. lia.
      * rewrite length_firstn. lia.
      * unfold fbl. lia.
      * rewrite app_assoc, firstn_skipn, Hlb in Hpack3.
        exists s3, w2. repeat split.
        -- exact Hpack3.
        -- unfold pending in *. now rewrite Hnb3.
        -- congruence.
        -- intros B k.
           rewrite (bind_exec _ _ _ _ _ Hrun1).
           unfold bind at 1. cbn [get_stream fst].
           rewrite (bind_exec _ _ _ _ _ Hrun2), Hpl1.
           now rewrite (bind_exec _ _ _ _ _ Hrun3).
Qed.

Lemma recv_framed (r : STREAM) wr payload pad fill body tag rest :
  let P := frame payload pad fill in
  let block := recv_block_len (cipher_block_len r) in
  block_len_ok r ->
  length fill = Z.to_nat pad ->
  4 <= pad <= 255 ->
  1 + Z.of_nat (length payload) + pad <= 65536 ->
  Z.of_nat (length P) mod block = 0 ->
  0 <= mac_len r < 2147483648 ->
  length body = length P ->
  length tag = Z.to_nat (mac_len r) ->
  (len (net_buffer r) <= length (data (net_buffer r)))%nat ->
  pending r wr = body ++ tag ++ rest ->
  (if is_cipher_none (cipher_type r)
   then body = P
   else exists d d1 d2,
       cipher_ctx r = Some d
       /\ crypt d (firstn (Z.to_nat block) body)
          = Some (d1, firstn (Z.to_nat block) P)
       /\ crypt d1 (skipn (Z.to_nat block) body)
          = Some (d2, skipn (Z.to_nat block) P)) ->
  (is_mac_none (mac_type r) = false ->
   ssh_mac_compute digest (mac_ctx r) (seq_num r) P = Some tag) ->
  exists r' wr',
    ssh_stream_recv_packet crypt digest (r, wr) = ((r', wr'), Ok tt)
    /\ recv_payload r' = payload
    /\ pending r' wr' = rest
    /\ seq_num r' = u32 (seq_num r + 1).
Proof.
  intros P block Hblk Hfill Hpad Hmax Hmod Hml Hlb Hlt Hnb Hpend Hcipher Hmac.
  destruct (recv_until_verify r wr payload pad fill body tag rest
              Hblk Hfill Hpad Hmax Hmod Hml Hlb Hlt Hnb Hpend Hcipher)
    as (s3 & w3 & Hpack3 & Hpend3 & Hcfg3 & Hk).
  fold P in Hpack3.
  destruct (config_fields _ _ Hcfg3) as (Hsq & _ & Hcb & Hmt & _ & Hmc).
  pose proof (recv_block_len_range r Hblk) as Hb. fold block in Hb.
  assert (Hver : verify_read_packet digest (s3, w3) = ((s3, w3), Ok tt)).
  { apply (verify_read_packet_ok s3 w3 payload pad fill tag);
      try assumption.
    - rewrite Hcb. fold block. rewrite u8_small by lia. exact Hmod.
    - rewrite Hmt, Hmc, Hsq. exact Hmac. }
  unfold ssh_stream_recv_packet, recv_rest. cbv zeta.
  rewrite Hk, (bind_exec _ _ _ _ _ Hver). mrun.
  eexists. eexists. split; [reflexivity |].
  repeat split.
  - apply (recv_payload_frame _ payload pad fill tag (length P)).
    + exact Hpack3.
    + lia.
    + lia.
  - exact Hpend3.
  - now rewrite Hsq.
Qed.

(** ** Round trip *)

Lemma recv_block_len_max (r : STREAM) :
  block_len_ok r ->
  recv_block_len (cipher_block_len r) = Z.max (cipher_block_len r) 8.
Proof.
  unfold block_len_ok, recv_block_len. intros [H | H].
  - rewrite H. reflexivity.
  - destruct (Z.eqb_spec (cipher_block_len r) 0); lia.
Qed.

Lemma roundtrip_general (snd_s rcv_s : STREAM) w wr payload s' w' rest :
  cipher_keeps_length crypt ->
  mac_len_ok digest snd_s ->
  block_len_ok snd_s ->
  streams_match crypt snd_s rcv_s ->
  net_buffer_ok rcv_s ->
  1 + Z.of_nat (length payload) + pad_len_of payload (cipher_block_len snd_s)
    <= 65536 ->
  send_payload crypt digest payload (snd_s, w) = ((s', w'), Ok tt) ->
  pending rcv_s wr = skipn (length (net_tx w)) (net_tx w') ++ rest ->
  exists r' wr',
    ssh_stream_recv_packet crypt digest (rcv_s, wr) = ((r', wr'), Ok tt)
    /\ recv_payload r' = payload
    /\ pending r' wr' = rest
    /\ seq_num r' = u32 (seq_num rcv_s + 1).
Proof.
  intros Hcl Hmac Hblk [Hcfg Hmatch] Hnb Hmax Hsend Hpend.
  destruct (send_payload_ok snd_s w s' w' payload Hcl Hmac Hsend)
    as (body & tag & Hbody & Htag & _ & _ & Hlb & Hlt & _ & _ & Htx & _).
  set (pad := pad_len_of payload (cipher_block_len snd_s)) in *.
  set (fill := fst (pad_fill (is_cipher_none (cipher_type snd_s)) w (Z.to_nat pad))) in *.
  assert (Hfill : length fill = Z.to_nat pad) by apply pad_fill_length.
  pose proof (calc_pad_len_range (u32 (Z.of_nat (5 + length payload)))
                (u8 (cipher_block_len snd_s))) as Hpr.
  fold (pad_len_of payload (cipher_block_len snd_s)) in Hpr. fold pad in Hpr.
  assert (Hcbl : 0 <= cipher_block_len snd_s <= 252)
    by (destruct Hblk as [H | H]; lia).
  destruct (pad_len_of_spec payload (cipher_block_len snd_s) Hcbl ltac:(lia))
    as (_ & Hrange & Hmod).
  fold pad in Hrange, Hmod.
  destruct (config_fields _ _ Hcfg) as (Hsq & Hct & Hcb & Hmt & Hmlen & Hmc).
  assert (Hblk_r : block_len_ok rcv_s) by (unfold block_len_ok; now rewrite Hcb).
  rewrite Htx, skipn_app_exact in Hpend by reflexivity.
  rewrite <- app_assoc in Hpend.
  destruct Hmac as (Hml & _ & _).
  apply (recv_framed rcv_s wr payload pad fill body tag rest); try assumption.
  - rewrite frame_length, Hfill, Hcb, (recv_block_len_max snd_s Hblk).
    replace (Z.of_nat (5 + length payload + Z.to_nat pad))
      with (Z.of_nat (length payload) + 5 + pad) by lia.
    exact Hmod.
  - now rewrite Hmlen.
  - now rewrite Hmlen.
  - rewrite Hct. destruct (is_cipher_none (cipher_type snd_s)) eqn:Hnone.
    + apply Hbody.
    + destruct Hbody as (c & c' & Hc & Hcrypt & _).
      rewrite Hcb.
      apply (Hmatch eq_refl c _ c' body Hc); [| exact Hcrypt].
      pose proof (recv_block_len_range snd_s Hblk) as Hb.
      pose proof (block_divides_length
                    (Z.of_nat (length (frame payload pad fill)))
                    (recv_block_len (cipher_block_len snd_s))) as Hd.
      rewrite frame_length, Hfill in *.
      rewrite (recv_block_len_max snd_s Hblk) in *.
      replace (Z.of_nat (5 + length payload + Z.to_nat pad))
        with (Z.of_nat (length payload) + 5 + pad) in Hd by lia.
      specialize (Hd ltac:(lia) ltac:(lia) Hmod). lia.
  - intros Hmn. rewrite Hmt in Hmn. rewrite Hmn in Htag.
    now rewrite Hmc, Hsq.
Qed.

(** ** Before keys are installed *)

Lemma send_payload_plain (s : STREAM) w payload :
  is_cipher_none (cipher_type s) = true ->
  is_mac_none (mac_type s) = true ->
  mac_len s = 0 ->
  net_wr_ok w = true ->
  let pad := pad_len_of payload (cipher_block_len s) in
  let P := frame payload pad (repeat 255 (Z.to_nat pad)) in
  send_payload crypt digest payload (s, w)
  = ((set_seq_num (u32 (seq_num s + 1)) (buf_set PACK (mkbuf P (length P)) s),
      mkworld (net_rx w) (net_tx w ++ P) true (rand_pool w)), Ok tt).
Proof.
  intros Hnone Hmnone Hml Hup pad P.
  unfold send_payload.
  rewrite (bind_exec _ _ _ _ _ (start_packet_exec s w payload)).
  set (s0 := buf_set PACK (mkbuf (0 :: 0 :: 0 :: 0 :: 0 :: payload)
                             (5 + length payload)) s).
  assert (HlenP : length P = (5 + length payload + Z.to_nat pad)%nat)
    by (unfold P; rewrite frame_length, repeat_length; lia).
  assert (Hfin : finish_packet crypt digest (s0, w)
                 = ((buf_set PACK (mkbuf P (length P)) s, w), Ok tt)).
  { unfold finish_packet.
    rewrite (bind_exec _ _ _ _ _
               (write_padding_exec s0 w 0 0 0 0 0 payload eq_refl)).
    change (cipher_type s0) with (cipher_type s).
    change (cipher_block_len s0) with (cipher_block_len s).
    rewrite Hnone. cbn [pad_fill fst snd]. fold pad. fold P. rewrite <- HlenP.
    set (s1 := buf_set PACK (mkbuf P (length P)) s0).
    rewrite (bind_exec _ _ _ _ _ (encrypt_packet_none s1 w Hnone)).
    rewrite (write_mac_none s1 w Hmnone).
    reflexivity. }
  unfold ssh_stream_send_packet.
  rewrite (bind_exec _ _ _ _ _ (eq_refl : get_stream (s0, w) = ((s0, w), Ok s0))).
  rewrite (bind_exec _ _ _ _ _ Hfin).
  unfold net_write_all, ssh_net_write_all. mrun.
  change (cipher_type s0) with (cipher_type s). rewrite Hnone, Hup, Hml. mrun.
  cbn [Z.to_nat]. rewrite Nat.add_0_r, firstn_all. reflexivity.
Qed.


(** ** Receive-side length validation *)

Lemma never_ret {A} e (a : A) : never_fails_with e (ret a : ACTION A).
Proof. intros st st' H. discriminate H. Qed.

Lemma never_fail {A} e e' : e' <> e -> never_fails_with e (fail e' : ACTION A).
Proof. intros Hne st st' H. inversion H. congruence. Qed.

Lemma never_get e : never_fails_with e (get_stream : ACTION _).
Proof. intros st st' H. discriminate H. Qed.

Lemma never_upd e f : never_fails_with e (upd_stream f : ACTION _).
Proof. intros st st' H. discriminate H. Qed.

Lemma never_bind {A B} e (m : ACTION A) (k : A -> ACTION B) :
  never_fails_with e m -> (forall a, never_fails_with e (k a)) ->
  never_fails_with e (bind m k).
Proof.
  intros Hm Hk st st'. unfold bind.
  destruct (m st) as [st1 [a | e1]] eqn:Hrun.
  - apply Hk.
  - intros H. inversion H; subst. exact (Hm st st' Hrun).
Qed.

Lemma never_buf_get_write_pointer e r n :
  never_fails_with e (buf_get_write_pointer r n : ACTION _).
Proof. intros st st' H. discriminate H. Qed.

Lemma never_random_gen e r p n : never_fails_with e (random_gen r p n : ACTION _).
Proof.
  intros st st'. unfold random_gen.
  destruct (crypto_random_gen _ _). discriminate.
Qed.

Lemma never_cipher_crypt e r p input :
  e <> ERR_CIPHER -> never_fails_with e (cipher_crypt crypt r p input : ACTION _).
Proof.
  intros Hne st st'. unfold cipher_crypt.
  destruct (cipher_ctx (fst st)) as [c |]; [| intros H; inversion H; congruence].
  destruct (crypt c input) as [[c' out] |]; [discriminate |].
  intros H; inversion H; congruence.
Qed.

Lemma never_mac_compute e seq input :
  e <> ERR_MAC -> never_fails_with e (mac_compute digest seq input : ACTION _).
Proof.
  intros Hne st st'. unfold mac_compute.
  destruct (ssh_mac_compute _ _ _ _); [discriminate |].
  intros H; inversion H; congruence.
Qed.

Lemma never_net_read_all e r p n :
  e <> ERR_IO -> never_fails_with e (net_read_all r p n : ACTION _).
Proof.
  intros Hne st st'. unfold net_read_all.
  destruct (ssh_net_read_all _ _) as [[bytes w1] |]; [discriminate |].
  intros H; inversion H; congruence.
Qed.

Lemma never_buf_remove_data e r off n :
  e <> ERR_BUFFER -> never_fails_with e (buf_remove_data r off n : ACTION _).
Proof.
  intros Hne st st'. unfold buf_remove_data.
  destruct (ssh_buf_remove_data _ _ _); [discriminate |].
  intros H; inversion H; congruence.
Qed.

Ltac never :=
  repeat first
    [ apply never_bind; [| intros ?]
    | apply never_ret | apply never_get | apply never_upd
    | apply never_buf_get_write_pointer | apply never_random_gen
    | apply never_fail; discriminate
    | apply never_cipher_crypt; discriminate
    | apply never_mac_compute; discriminate
    | apply never_net_read_all; discriminate
    | apply never_buf_remove_data; discriminate
    | match goal with
      | |- never_fails_with _ (if ?b then _ else _) => destruct b
      end
    | progress cbv zeta
    | progress unfold buf_clear, buf_grow, buf_set_len, store ].

Lemma never_stream_recv_data e r p n :
  e <> ERR_IO -> e <> ERR_BUFFER ->
  never_fails_with e (stream_recv_data r p n : ACTION _).
Proof.
  intros H1 H2. unfold stream_recv_data.
  repeat first
    [ apply never_bind; [| intros ?]
    | apply never_ret | apply never_get | apply never_upd
    | apply never_net_read_all; assumption
    | apply never_buf_remove_data; assumption
    | match goal with
      | |- never_fails_with _ (if ?b then _ else _) => destruct b
      end
    | progress cbv zeta
    | progress unfold store ].
Qed.

Lemma never_decrypt_remainder e pack_len :
  e <> ERR_CIPHER ->
  never_fails_with e (decrypt_remainder crypt pack_len : ACTION _).
Proof.
  intros H. unfold decrypt_remainder.
  repeat first
    [ apply never_bind; [| intros ?]
    | apply never_ret | apply never_get | apply never_upd
    | apply never_buf_get_write_pointer
    | apply never_cipher_crypt; assumption
    | match goal with
      | |- never_fails_with _ (if ?b then _ else _) => destruct b
      end
    | progress cbv zeta
    | progress unfold buf_set_len, store ].
Qed.

Lemma never_verify_size : never_fails_with ERR_PACKET_SIZE
                            (verify_read_packet digest : ACTION _).
Proof. unfold verify_read_packet. never. Qed.

(** The size check of line 254 and nothing else in the rest of the receive
    path returns the packet-size error. *)
Lemma recv_remainder_size_error (st st' : ST CIPHER_CTX MAC_CTX) :
  let pack_len := ssh_buf_get_u32 (data (pack (fst st))) in
  recv_remainder st = (st', Err ERR_PACKET_SIZE)
  <-> (st' = st /\ (pack_len = 0 \/ 65536 < pack_len)).
Proof.
  intros pack_len. destruct st as [s w]. subst pack_len. cbn [fst].
  set (pack_len := ssh_buf_get_u32 (data (pack s))).
  unfold recv_remainder.
  rewrite (bind_exec _ _ _ _ _ (eq_refl : get_stream (s, w) = ((s, w), Ok s))).
  cbv zeta. fold pack_len.
  destruct (Z.eqb_spec pack_len 0) as [Hz | Hnz];
    [ cbn [orb]; split; [intros H; inversion H; auto | intros [-> _]; reflexivity] |].
  destruct (Z.ltb_spec 65536 pack_len) as [Hbig | Hok]; cbn [orb].
  - split; [intros H; inversion H; auto | intros [-> _]; reflexivity].
  - split; [| intros [_ [H | H]]; lia].
    intros H. exfalso. revert H.
    match goal with
    | |- ?m ?st0 = _ -> False =>
        assert (Hn : never_fails_with ERR_PACKET_SIZE m);
        [| exact (Hn st0 st') ]
    end.
    repeat first
      [ apply never_stream_recv_data; discriminate
      | apply never_buf_get_write_pointer
      | apply never_upd
      | apply never_bind; [| intros ?]
      | progress unfold buf_set_len ].
Qed.

Lemma never_recv_remainder_block :
  never_fails_with ERR_PAD_BLOCK (recv_remainder : ACTION _).
Proof.
  unfold recv_remainder.
  repeat first
    [ apply never_stream_recv_data; discriminate
    | apply never_buf_get_write_pointer
    | apply never_upd | apply never_get
    | apply never_fail; discriminate
    | apply never_bind; [| intros ?]
    | match goal with
      | |- never_fails_with _ (if ?b then _ else _) => destruct b
      end
    | progress cbv zeta
    | progress unfold buf_set_len ].
Qed.

(** What [verify_read_packet] checked when it returns the block error, and
    when it returns 0. *)
Lemma verify_block_check (s : STREAM) w st' r :
  verify_read_packet digest (s, w) = (st', r) ->
  let block := u8 (recv_block_len (cipher_block_len s)) in
  (r = Err ERR_PAD_BLOCK -> Z.of_nat (len (pack s)) mod block <> 0)
  /\ (r = Ok tt -> Z.of_nat (len (pack s)) mod block = 0).
Proof.
  intros Hrun block.
  assert (Hblk : (if negb (cipher_block_len s =? 0) then cipher_block_len s else 8)
                 = recv_block_len (cipher_block_len s))
    by (unfold recv_block_len; now destruct (cipher_block_len s =? 0)).
  revert Hrun. unfold verify_read_packet, mac_compute. mrun. rewrite Hblk.
  fold block.
  destruct ((_ <? 4) || _);
    [intros H; inversion H; split; intros E; discriminate E |].
  destruct (Z.eqb_spec (Z.of_nat (len (pack s)) mod block) 0) as [Hz | Hnz];
    cbn [negb].
  - intros H. split; [| auto]. intros ->. revert H.
    destruct (is_mac_none (mac_type s)); mrun; [intros E; discriminate E |].
    destruct (ssh_mac_compute _ _ _ _); [| intros E; discriminate E].
    mrun. destruct (memcmp _ _ _ =? 0); intros E; discriminate E.
  - intros H. inversion H. split; [auto | intros E; discriminate E].
Qed.

(** After the rest of the packet is in, [pack.len] is [pack_len + 4]. *)
Lemma recv_len_before_verify (st1 st3 st4 : ST CIPHER_CTX MAC_CTX) :
  let pack_len := ssh_buf_get_u32 (data (pack (fst st1))) in
  recv_remainder st1 = (st3, Ok tt) ->
  decrypt_remainder crypt pack_len st3 = (st4, Ok tt) ->
  len (pack (fst st4)) = Z.to_nat (u32 (pack_len + 4))
  /\ pack_len <> 0 /\ pack_len <= 65536.
Proof.
  intros pack_len Hrem Hdec.
  pose proof (keeps_recv_remainder st1) as K. rewrite Hrem in K. cbn [fst] in K.
  destruct (config_fields _ _ K) as (_ & Hct & _).
  destruct st1 as [s1 w1]. cbn [fst] in *.
  unfold recv_remainder in Hrem.
  rewrite (bind_exec _ _ _ _ _ (eq_refl : get_stream (s1, w1) = ((s1, w1), Ok s1)))
    in Hrem.
  cbv zeta in Hrem. fold pack_len in Hrem.
  destruct (Z.eqb_spec pack_len 0) as [Hz | Hnz]; [discriminate Hrem |].
  destruct (Z.ltb_spec 65536 pack_len) as [Hbig | Hok]; [discriminate Hrem |].
  cbn [orb] in Hrem.
  apply bind_ok in Hrem. destruct Hrem as (p & sta & _ & Hrem).
  apply bind_ok in Hrem. destruct Hrem as ([] & [sb wb] & _ & Hrem).
  unfold buf_set_len, upd_stream in Hrem. cbn [fst snd] in Hrem.
  inversion Hrem; subst st3. clear Hrem. cbn [fst] in *.
  split; [| split; [exact Hnz | exact Hok]].
  revert Hdec. unfold decrypt_remainder.
  match goal with
  | |- context [get_stream] =>
      rewrite (bind_exec _ _ _ _ _
                 (eq_refl : get_stream (_, wb) = ((_, wb), Ok _)))
  end.
  cbv zeta. cbn [fst]. rewrite ?Hct.
  destruct (is_cipher_none (cipher_type s1)) eqn:Hnone; cbn [negb].
  - intros H. inversion H; subst. reflexivity.
  - intros H.
    apply bind_ok in H. destruct H as (p1 & stc & _ & H).
    apply bind_ok in H. destruct H as ([] & std & _ & H).
    apply bind_ok in H. destruct H as ([] & ste & _ & H).
    unfold buf_set_len, upd_stream in H. inversion H; subst.
    reflexivity.
Qed.

(** C5, as the code has it (receive-side length validation).  After the
    first block is read (and decrypted), [ssh_stream_recv_packet] fails with
    its packet-size error exactly when the parsed [pack_len] is 0 or greater
    than 65536.  That [pack_len + 4] is a multiple of the block length is
    checked later, by [verify_read_packet], once the rest of the packet has
    been read and the padding length has passed its own check; it fails
    with the block error only when [pack_len + 4] is not such a multiple,
    and no packet is accepted unless [pack_len] is in 1..65536 and
    [pack_len + 4] is a multiple of the block length. *)
Theorem recv_length_validation (st st1 : ST CIPHER_CTX MAC_CTX) :
  recv_first_block crypt st = (st1, Ok tt) ->
  let pack_len := ssh_buf_get_u32 (data (pack (fst st1))) in
  let block := u8 (recv_block_len (cipher_block_len (fst st))) in
  let outcome := snd (ssh_stream_recv_packet crypt digest st) in
  (outcome = Err ERR_PACKET_SIZE <-> pack_len = 0 \/ 65536 < pack_len)
  /\ (outcome = Err ERR_PAD_BLOCK -> (pack_len + 4) mod block <> 0)
  /\ (outcome = Ok tt ->
      pack_len <> 0 /\ pack_len <= 65536 /\ (pack_len + 4) mod block = 0).
Proof.
  intros Hfirst pack_len block outcome.
  pose proof (keeps_recv_first_block st) as K1. rewrite Hfirst in K1.
  cbn [fst] in K1. destruct (config_fields _ _ K1) as (_ & _ & Hcb1 & _).
  assert (Hpos : 0 <= pack_len).
  { unfold pack_len, ssh_buf_get_u32.
    pose proof (u8_range (nth 0 (data (pack (fst st1))) 0)).
    pose proof (u8_range (nth 1 (data (pack (fst st1))) 0)).
    pose proof (u8_range (nth 2 (data (pack (fst st1))) 0)).
    pose proof (u8_range (nth 3 (data (pack (fst st1))) 0)). lia. }
  assert (Hres : outcome
                 = snd (bind recv_remainder
                          (fun _ => bind (decrypt_remainder crypt pack_len)
                             (fun _ => bind (verify_read_packet digest)
                                (fun _ => upd_stream
                                   (fun s => set_seq_num (u32 (seq_num s + 1)) s))))
                          st1)).
  { subst outcome. unfold ssh_stream_recv_packet.
    rewrite (bind_exec _ _ _ _ _ Hfirst).
    unfold recv_rest.
    now rewrite (bind_exec _ _ _ _ _
                   (eq_refl : get_stream st1 = (st1, Ok (fst st1)))). }
  clearbody outcome. unfold bind in Hres.
  destruct (recv_remainder st1) as [st3 [[] | e3]] eqn:Hrem.
  - (* the size check passed and the rest was read *)
    destruct (decrypt_remainder crypt pack_len st3) as [st4 [[] | e4]] eqn:Hdec.
    + destruct (recv_len_before_verify st1 st3 st4 Hrem Hdec)
        as (Hlen & Hnz & Hmax).
      fold pack_len in Hlen.
      pose proof (keeps_recv_remainder st1) as K3. rewrite Hrem in K3.
      pose proof (keeps_decrypt_remainder pack_len st3) as K4. rewrite Hdec in K4.
      cbn [fst] in K3, K4.
      destruct (config_fields _ _ K3) as (_ & _ & Hcb3 & _).
      destruct (config_fields _ _ K4) as (_ & _ & Hcb4 & _).
      destruct st4 as [s4 w4]. cbn [fst] in *.
      destruct (verify_read_packet digest (s4, w4)) as [st5 r5] eqn:Hver.
      destruct (verify_block_check s4 w4 st5 r5 Hver) as [Hbad Hgood].
      rewrite Hlen, Hcb4, Hcb3, Hcb1 in Hbad, Hgood. fold block in Hbad, Hgood.
      rewrite Z2Nat.id, u32_small in Hbad, Hgood
        by (rewrite ?u32_small by lia; lia).
      pose proof (never_verify_size (s4, w4) st5) as Hns. rewrite Hver in Hns.
      destruct r5 as [[] | e5]; cbn [snd upd_stream] in Hres; subst outcome.
      * repeat split; try discriminate; try lia; auto.
      * repeat split; try discriminate; try lia.
        -- intros H. inversion H; subst. now contradiction Hns.
        -- intros H. inversion H; subst. auto.
    + pose proof (never_decrypt_remainder ERR_PACKET_SIZE pack_len
                    ltac:(discriminate) st3 st4) as Hn1.
      pose proof (never_decrypt_remainder ERR_PAD_BLOCK pack_len
                    ltac:(discriminate) st3 st4) as Hn2.
      rewrite Hdec in Hn1, Hn2. cbn [snd] in Hres. subst outcome.
      assert (Hok : pack_len <> 0 /\ pack_len <= 65536).
      { destruct (Z.eq_dec pack_len 0) as [Hz | Hnz];
          [| destruct (Z_lt_dec 65536 pack_len) as [Hbig | Hsmall]; [| lia]].
        - pose proof (proj2 (recv_remainder_size_error st1 st1)
                        (conj eq_refl (or_introl Hz))) as Habs.
          rewrite Hrem in Habs. discriminate Habs.
        - pose proof (proj2 (recv_remainder_size_error st1 st1)
                        (conj eq_refl (or_intror Hbig))) as Habs.
          rewrite Hrem in Habs. discriminate Habs. }
      repeat split; try discriminate; try lia.
      * intros H. inversion H; subst. now contradiction Hn1.
      * intros H. inversion H; subst. now contradiction Hn2.
  - (* the receive stopped before the rest was in *)
    cbn [snd] in Hres. subst outcome.
    pose proof (never_recv_remainder_block st1 st3) as Hnb. rewrite Hrem in Hnb.
    repeat split; try discriminate.
    + intros H. inversion H; subst.
      apply (proj1 (recv_remainder_size_error st1 st3)) in Hrem. apply Hrem.
    + intros H.
      pose proof (proj2 (recv_remainder_size_error st1 st1) (conj eq_refl H))
        as Hsz.
      rewrite Hrem in Hsz. now inversion Hsz.
    + intros H. inversion H; subst. now contradiction Hnb.
Qed.

End StreamProofs.

(** ** The small cipher and MAC meet the contracts *)

Lemma toy_xor_length k bs : length (toy_xor k bs) = length bs.
Proof.
  revert k. induction bs as [| b bs IH]; intros k; cbn [toy_xor length].
  - reflexivity.
  - now rewrite IH.
Qed.

Lemma toy_xor_app k a b :
  toy_xor k (a ++ b) = toy_xor k a ++ toy_xor (k + Z.of_nat (length a)) b.
Proof.
  revert k. induction a as [| x a IH]; intros k; cbn [toy_xor app length].
  - now rewrite Z.add_0_r.
  - rewrite IH. do 3 f_equal. lia.
Qed.

Lemma toy_xor_involutive k bs : toy_xor k (toy_xor k bs) = bs.
Proof.
  revert k. induction bs as [| b bs IH]; intros k; cbn [toy_xor].
  - reflexivity.
  - rewrite IH. f_equal.
    now rewrite Z.lxor_assoc, Z.lxor_nilpotent, Z.lxor_0_r.
Qed.

Lemma toy_crypt_keeps_length : cipher_keeps_length toy_crypt.
Proof.
  intros c x c' y H. unfold toy_crypt in H. inversion H; subst.
  apply toy_xor_length.
Qed.

Lemma toy_cipher_matching n k : cipher_matching toy_crypt n (Some k) (Some k).
Proof.
  intros e plain e' c He Hn Hc. inversion He; subst e.
  unfold toy_crypt in Hc. inversion Hc; subst e' c. clear Hc He.
  set (a := firstn n plain). set (b := skipn n plain).
  assert (Ha : length a = n) by (unfold a; rewrite length_firstn; lia).
  assert (Hp : plain = a ++ b) by (symmetry; apply firstn_skipn).
  assert (Hf : firstn n (toy_xor k plain) = toy_xor k a).
  { rewrite Hp, toy_xor_app. apply firstn_app_exact.
    now rewrite toy_xor_length. }
  assert (Hs : skipn n (toy_xor k plain) = toy_xor (k + Z.of_nat n) b).
  { rewrite Hp, toy_xor_app, Ha. apply skipn_app_exact.
    now rewrite toy_xor_length. }
  exists k, (k + Z.of_nat n), (k + Z.of_nat n + Z.of_nat (length b)).
  split; [reflexivity |]. unfold toy_crypt.
  rewrite Hf, Hs, !toy_xor_involutive, !toy_xor_length, Ha.
  split; reflexivity.
Qed.

Lemma toy_mac_len_ok seq key mkey : mac_len_ok toy_mac (toy_keyed seq key mkey).
Proof.
  unfold mac_len_ok. cbn [toy_keyed mac_len mac_type mac_ctx is_mac_none].
  repeat split; try lia; try discriminate.
  intros c x m _ H. unfold toy_mac in H. inversion H. reflexivity.
Qed.

Lemma toy_streams_match seq key mkey :
  streams_match toy_crypt (toy_keyed seq key mkey) (toy_keyed seq key mkey).
Proof. split; [reflexivity | intros _; apply toy_cipher_matching]. Qed.

(** ** The scenarios, run *)

(** C2, witness: [hello] on the keyed stream, block length 16. *)
Lemma padding_arithmetic_witness :
  let s' := fst (fst keyed_sent) in
  nth 4 (data (pack s')) 0 = 5
  /\ 4 <= 5 <= 255
  /\ ssh_buf_get_u32 (data (pack s')) = 1 + 6 + 5
  /\ (ssh_buf_get_u32 (data (pack s')) + 4) mod 16 = 0
  /\ Z.of_nat (len (pack s')) = ssh_buf_get_u32 (data (pack s')) + 4.
Proof.
  assert (Hcbl : 0 <= cipher_block_len (toy_keyed 7 3 9) <= 252)
    by (vm_compute; split; discriminate).
  assert (Hlen : Z.of_nat (length hello) + 260 < 4294967296)
    by (vm_compute; reflexivity).
  assert (Hsend : send_payload toy_crypt toy_mac hello
                    (toy_keyed 7 3 9, keyed_world)
                  = (fst (fst keyed_sent), snd (fst keyed_sent), Ok tt))
    by (vm_compute; reflexivity).
  exact (padding_arithmetic toy_crypt toy_mac (toy_keyed 7 3 9) keyed_world
           (fst (fst keyed_sent)) (snd (fst keyed_sent)) hello
           Hcbl Hlen Hsend).
Defined.

(** C3, witness: the MAC of [hello] on the keyed stream. *)
Lemma mac_construction_witness :
  let plain := frame hello 5 [1; 2; 3; 4; 5] in
  exists body tag mctx,
    contents (pack (fst (fst keyed_sent))) = plain
    /\ Some 9 = Some mctx
    /\ toy_mac mctx (ssh_buf_set_u32 7 ++ plain) = Some tag
    /\ (exists c c', Some 3 = Some c /\ toy_crypt c plain = Some (c', body))
    /\ keyed_wire = [] ++ body ++ tag
    /\ length tag = 4%nat
    /\ length body = length plain
    /\ ssh_buf_get_u32 plain = u32 (Z.of_nat (length body) - 4).
Proof.
  assert (Hsend : send_payload toy_crypt toy_mac hello
                    (toy_keyed 7 3 9, keyed_world)
                  = (fst (fst keyed_sent), snd (fst keyed_sent), Ok tt))
    by (vm_compute; reflexivity).
  exact (mac_construction toy_crypt toy_mac (toy_keyed 7 3 9) keyed_world
           (fst (fst keyed_sent)) (snd (fst keyed_sent)) hello
           eq_refl toy_crypt_keeps_length (toy_mac_len_ok 7 3 9) Hsend).
Defined.

(** C4 as stated fails: the socket refuses the write, the send fails, and
    [seq_num] has gone from 0 to 1. *)
Lemma failed_write_keeps_increment :
  ~ seq_num_after_write_only toy_crypt toy_mac hello_on_closed_socket.
Proof.
  unfold seq_num_after_write_only. intros H.
  assert (E : seq_num (fst (fst (ssh_stream_send_packet toy_crypt toy_mac
                                   hello_on_closed_socket)))
              = seq_num (fst hello_on_closed_socket)).
  { apply H. vm_compute. discriminate. }
  vm_compute in E. discriminate E.
Qed.

(** C5, witness: the first block [FF FF FF FF 04 00 00 00]. *)
Lemma recv_length_validation_witness :
  let st : ST Z Z := (ssh_stream_init, incoming huge_length_wire) in
  let st1 := fst (recv_first_block toy_crypt st) in
  recv_first_block toy_crypt st = (st1, Ok tt)
  /\ (let pack_len := ssh_buf_get_u32 (data (pack (fst st1))) in
      let block := u8 (recv_block_len (cipher_block_len (fst st))) in
      let outcome := snd (ssh_stream_recv_packet toy_crypt toy_mac st) in
      (outcome = Err ERR_PACKET_SIZE <-> pack_len = 0 \/ 65536 < pack_len)
      /\ (outcome = Err ERR_PAD_BLOCK -> (pack_len + 4) mod block <> 0)
      /\ (outcome = Ok tt ->
          pack_len <> 0 /\ pack_len <= 65536 /\ (pack_len + 4) mod block = 0)).
Proof.
  intros st st1.
  assert (Hfirst : recv_first_block toy_crypt st = (st1, Ok tt))
    by (vm_compute; reflexivity).
  split; [exact Hfirst |].
  exact (recv_length_validation toy_crypt toy_mac st st1 Hfirst).
Defined.

(** C5 as stated fails: [pack_len = 13] makes [pack_len + 4] no multiple of
    8, and the packet is rejected for its padding length, not for its
    length. *)
Lemma length_validation_not_as_specified :
  ~ length_validation_as_specified toy_crypt toy_mac
      (ssh_stream_init, incoming odd_length_wire).
Proof.
  intros H.
  assert (Hfirst : recv_first_block toy_crypt
                     ((ssh_stream_init, incoming odd_length_wire) : ST Z Z)
                   = (fst (recv_first_block toy_crypt
                             (ssh_stream_init, incoming odd_length_wire)),
                      Ok tt))
    by (vm_compute; reflexivity).
  specialize (H _ Hfirst). destruct H as [_ H].
  assert (E : is_invalid_length
                (snd (ssh_stream_recv_packet toy_crypt toy_mac
                        (ssh_stream_init, incoming odd_length_wire))) = true).
  { apply H. right. right. vm_compute. discriminate. }
  vm_compute in E. discriminate E.
Qed.

(** The size check lets [pack_len = 65536] through: with nothing more to
    read, the failure is the read of the rest of the packet. *)
Example size_65536_passes_size_check :
  snd (ssh_stream_recv_packet toy_crypt toy_mac
         (ssh_stream_init, incoming [0; 1; 0; 0; 4; 0; 0; 0]))
  = Err ERR_IO.
Proof. vm_compute. reflexivity. Qed.

(** C6, witness: the last bit of the payload is flipped in transit, the
    receiver answers with the MAC error and keeps sequence number 7. *)
Lemma recv_failure_keeps_seq_num_witness :
  let st := (toy_keyed 7 3 9, incoming keyed_wire_flipped) in
  let out := ssh_stream_recv_packet toy_crypt toy_mac st in
  out = (fst out, Err ERR_BAD_MAC) /\ seq_num (fst (fst out)) = 7.
Proof.
  intros st out.
  assert (Hfail : ssh_stream_recv_packet toy_crypt toy_mac st
                  = (fst out, Err ERR_BAD_MAC))
    by (vm_compute; reflexivity).
  split; [exact Hfail |].
  exact (recv_failure_keeps_seq_num toy_crypt toy_mac st (fst out) ERR_BAD_MAC
           Hfail).
Defined.

(** C8 as stated fails: the octets on the wire are not the ones the
    specification lists (it has a padding length of 6 where 16 - 11 = 5). *)
Lemma hello_wire_not_as_specified : ~ null_cipher_example_as_specified.
Proof.
  intros (_ & H & _). vm_compute in H. discriminate H.
Qed.

(** C8, as the code has it (null-cipher wire example).  With cipher = none
    and mac = none, sending the payload [{0x05, 'h', 'e', 'l', 'l', 'o'}]
    puts exactly [00 00 00 0C 05 05 68 65 6C 6C 6F FF FF FF FF FF] on the
    wire (packet_length 12, padding_length 5, five 0xFF pad octets, the
    fixed filler because no cipher is installed), and receiving these
    octets reproduces the payload exactly. *)
Theorem null_cipher_wire_example :
  let wire := [0; 0; 0; 12; 5; 5; 104; 101; 108; 108; 111;
               255; 255; 255; 255; 255] in
  let rcvd := ssh_stream_recv_packet toy_crypt toy_mac
                (ssh_stream_init, incoming wire) in
  snd hello_sent = Ok tt
  /\ hello_wire = wire
  /\ ssh_buf_get_u32 wire = 12
  /\ nth 4 wire 0 = 5
  /\ skipn 11 wire = repeat 255 5
  /\ snd rcvd = Ok tt
  /\ recv_payload (fst (fst rcvd)) = hello.
Proof. vm_compute. repeat split; reflexivity. Qed.

(** C9 (the code does not do it): two packets arrive with a forged MAC,
    one wrong in its first octet and one wrong only in its last;
    [verify_read_packet] rejects both, and the [memcmp] it calls has looked
    at 1 octet pair for the first and at all 4 for the second: how long the
    check runs depends on the octets compared. *)
Theorem mac_check_timing :
  let run wire :=
    snd (ssh_stream_recv_packet toy_crypt toy_mac
           (toy_keyed 7 3 9, incoming wire)) in
  let computed := skipn 16 keyed_wire in
  run keyed_wire_forged_first = Err ERR_BAD_MAC
  /\ run keyed_wire_forged_last = Err ERR_BAD_MAC
  /\ memcmp_examined computed (skipn 16 keyed_wire_forged_first) 4 = 1%nat
  /\ memcmp_examined computed (skipn 16 keyed_wire_forged_last) 4 = 4%nat.
Proof. vm_compute. repeat split; reflexivity. Qed.

(** ** The exchange hash *)

Lemma ssh_buf_write_data_full b bytes :
  length (data b) = len b ->
  data (ssh_buf_write_data b bytes) = data b ++ KexDh.ssh_string bytes
  /\ length (data (ssh_buf_write_data b bytes))
     = len (ssh_buf_write_data b bytes).
Proof.
  intros Hfull.
  unfold ssh_buf_write_data, ssh_buf_write_u32, ssh_buf_append_data,
    ssh_buf_get_write_pointer, KexDh.ssh_string.
  cbn [data len]. rewrite <- Hfull, firstn_all.
  rewrite poke_end by (now rewrite repeat_length).
  set (pre := data b ++ ssh_buf_set_u32 (Z.of_nat (length bytes))).
  replace (length (data b) + length (ssh_buf_set_u32 (Z.of_nat (length bytes))))%nat
    with (length pre) by (unfold pre; now rewrite length_app).
  rewrite firstn_all, poke_end by (now rewrite repeat_length).
  unfold pre. rewrite <- app_assoc. split; [reflexivity |].
  rewrite !length_app. lia.
Qed.

(** An SSH string starts with the number of its octets. *)
Lemma ssh_string_prefix bytes rest :
  Z.of_nat (length bytes) < 4294967296 ->
  ssh_buf_get_u32 (KexDh.ssh_string bytes ++ rest) = Z.of_nat (length bytes)
  /\ length (KexDh.ssh_string bytes) = (4 + length bytes)%nat.
Proof.
  intros H. unfold KexDh.ssh_string. rewrite <- app_assoc, ssh_buf_get_set_u32.
  split; [apply u32_small; lia | reflexivity].
Qed.

(** C7 (exchange hash input).  [dh_kex_hash] returns
    [Hash(V_C || V_S || I_C || I_S || K_S || e || f || K)] where every one
    of the eight elements, the two version strings of the connection and the
    two KEXINIT payloads as stored included, is written as an SSH string: a
    u32 big-endian length followed by the octets. *)
Theorem dh_kex_hash_input (SSH_HASH_TYPE : Type)
    (ssh_hash_compute : SSH_HASH_TYPE -> list Z -> option (list Z))
    (hash_type : SSH_HASH_TYPE) (K_S e f K : list Z)
    (conn : KexDh.SSH_CONN) (kex : KexDh.SSH_KEX) :
  let V_C := firstn (KexDh.vlen (KexDh.client_version conn))
               (KexDh.buf (KexDh.client_version conn)) in
  let V_S := firstn (KexDh.vlen (KexDh.server_version conn))
               (KexDh.buf (KexDh.server_version conn)) in
  let I_C := contents (KexDh.client_kexinit kex) in
  let I_S := contents (KexDh.server_kexinit kex) in
  KexDh.dh_kex_hash SSH_HASH_TYPE ssh_hash_compute hash_type K_S e f K conn kex
  = ssh_hash_compute hash_type
      (KexDh.exchange_hash_input V_C V_S I_C I_S K_S e f K).
Proof.
  intros V_C V_S I_C I_S. unfold KexDh.dh_kex_hash.
  unfold ssh_buf_write_string, ssh_buf_write_buffer. fold V_C V_S.
  fold (contents (KexDh.client_kexinit kex)).
  fold (contents (KexDh.server_kexinit kex)). fold I_C I_S.
  destruct (ssh_buf_write_data_full ssh_buf_new V_C eq_refl) as [D1 F1].
  destruct (ssh_buf_write_data_full _ V_S F1) as [D2 F2].
  destruct (ssh_buf_write_data_full _ I_C F2) as [D3 F3].
  destruct (ssh_buf_write_data_full _ I_S F3) as [D4 F4].
  destruct (ssh_buf_write_data_full _ K_S F4) as [D5 F5].
  destruct (ssh_buf_write_data_full _ e F5) as [D6 F6].
  destruct (ssh_buf_write_data_full _ f F6) as [D7 F7].
  destruct (ssh_buf_write_data_full _ K F7) as [D8 F8].
  unfold contents at 1. rewrite <- F8, firstn_all.
  rewrite D8, D7, D6, D5, D4, D3, D2, D1. cbn [ssh_buf_new data app].
  unfold KexDh.exchange_hash_input. rewrite <- !app_assoc.
  now destruct (ssh_hash_compute hash_type _).
Qed.

(* ------------------------------------------------------------------ *)
(** * Properties of sending and receiving (ssh/stream.c) *)

(** ** [calc_pad_len] *)

(** The padding length [calc_pad_len] returns, for a block size of at most
    252. *)
Lemma calc_pad_len_is_least n b :
  0 <= n -> 0 <= b <= 252 ->
  let block := Z.max b 8 in
  let pad := calc_pad_len n b in
  4 <= pad < block + 4
  /\ (n + pad) mod block = 0
  /\ forall q, 4 <= q -> (n + q) mod block = 0 -> pad <= q.
Proof.
  intros Hn Hb block pad.
  destruct (calc_pad_len_spec n b Hn Hb) as (Heq & Hrange & Hmod).
  fold block in Heq, Hmod. fold pad in Heq, Hrange, Hmod.
  assert (Hblock : 8 <= block) by (unfold block; lia).
  pose proof (Z.mod_pos_bound n block ltac:(lia)) as Hm.
  assert (Hub : pad < block + 4).
  { rewrite Heq. destruct (block - n mod block <? 4) eqn:E.
    - apply Z.ltb_lt in E. lia.
    - apply Z.ltb_ge in E. lia. }
  split; [lia |]. split; [exact Hmod |].
  intros q Hq Hqm.
  destruct (Z.le_gt_cases pad q) as [Hle | Hgt]; [exact Hle | exfalso].
  assert (Hd : (pad - q) mod block = 0).
  { replace (pad - q) with ((n + pad) - (n + q)) by lia.
    rewrite Zminus_mod, Hmod, Hqm. reflexivity. }
  apply Z.mod_divide in Hd; [| lia]. destruct Hd as [k Hk].
  assert (Hk1 : 1 <= k) by nia.
  assert (Hkb : block <= k * block) by nia. lia.
Qed.

(** X1.  For a block size of at most 252, [calc_pad_len] returns the least
    padding length that is at least 4 and brings the packet to a multiple
    of the block length [max(block_size, 8)]; it is below [block + 4]. *)
Theorem calc_pad_len_least n b :
  0 <= n -> 0 <= b <= 252 ->
  let block := Z.max b 8 in
  let pad := calc_pad_len n b in
  4 <= pad < block + 4
  /\ (n + pad) mod block = 0
  /\ forall q, 4 <= q -> (n + q) mod block = 0 -> pad <= q.
Proof. exact (calc_pad_len_is_least n b). Qed.

Lemma calc_pad_len_least_witness :
  let block := Z.max 16 8 in
  let pad := calc_pad_len 11 16 in
  4 <= pad < block + 4
  /\ (11 + pad) mod block = 0
  /\ forall q, 4 <= q -> (11 + q) mod block = 0 -> pad <= q.
Proof.
  assert (Hn : 0 <= 11) by lia.
  assert (Hb : 0 <= 16 <= 252) by lia.
  exact (calc_pad_len_least 11 16 Hn Hb).
Defined.

(** X2.  [calc_pad_len] works in [uint8_t]: the padding length it returns
    is at least 4 for every packet length exactly when the block size is
    at most 252; for a block size of 253, 254 or 255 the sum
    [pad_len + block_size] can wrap to 0. *)
Theorem calc_pad_len_minimum_iff b :
  0 <= b <= 255 ->
  (forall n, 0 <= n -> 4 <= calc_pad_len n b) <-> b <= 252.
Proof.
  intros Hb. split.
  - intros H. destruct (Z.le_gt_cases b 252) as [Hle | Hgt]; [exact Hle |].
    exfalso.
    assert (Hc : calc_pad_len (2 * b - 256) b = 0).
    { assert (Hcase : b = 253 \/ b = 254 \/ b = 255) by lia.
      destruct Hcase as [-> | [-> | ->]]; reflexivity. }
    specialize (H (2 * b - 256) ltac:(lia)). lia.
  - intros Hle n Hn.
    destruct (calc_pad_len_spec n b Hn ltac:(lia)) as (_ & Hrange & _). lia.
Qed.

Lemma calc_pad_len_minimum_iff_witness :
  (forall n, 0 <= n -> 4 <= calc_pad_len n 16) <-> 16 <= 252.
Proof.
  assert (Hb : 0 <= 16 <= 255) by lia.
  exact (calc_pad_len_minimum_iff 16 Hb).
Defined.

Section StreamProperties.

Context {CIPHER_CTX MAC_CTX : Type}.
Variable crypt : CIPHER_CTX -> list Z -> option (CIPHER_CTX * list Z).
Variable digest : MAC_CTX -> list Z -> option (list Z).

Local Abbreviation STREAM := (SSH_STREAM CIPHER_CTX MAC_CTX) (only parsing).
Local Abbreviation STATE := (ST CIPHER_CTX MAC_CTX) (only parsing).
Local Abbreviation ACTION := (M CIPHER_CTX MAC_CTX) (only parsing).

(* ------------------------------------------------------------------ *)
(** ** Round trip *)

(** The sender enforces no bound on the size of a packet, the receiver
    does: what is sent with a packet_length above 65536 is rejected at the
    size check, after the first block. *)
Lemma oversized_rejected (snd_s rcv_s : STREAM) w wr payload s' w' rest :
  cipher_keeps_length crypt ->
  mac_len_ok digest snd_s ->
  block_len_ok snd_s ->
  streams_match crypt snd_s rcv_s ->
  net_buffer_ok rcv_s ->
  Z.of_nat (length payload) + 260 < 4294967296 ->
  65536 < 1 + Z.of_nat (length payload)
          + pad_len_of payload (cipher_block_len snd_s) ->
  send_payload crypt digest payload (snd_s, w) = ((s', w'), Ok tt) ->
  pending rcv_s wr = skipn (length (net_tx w)) (net_tx w') ++ rest ->
  exists st',
    ssh_stream_recv_packet crypt digest (rcv_s, wr)
    = (st', Err ERR_PACKET_SIZE)
    /\ seq_num (fst st') = seq_num rcv_s.
Proof.
  intros Hcl Hmac Hblk [Hcfg Hmatch] Hnb Hlen Hbig Hsend Hpend.
  destruct (send_payload_ok crypt digest snd_s w s' w' payload Hcl Hmac Hsend)
    as (body & tag & Hbody & _ & _ & _ & Hlb & _ & _ & _ & Htx & _).
  set (pad := pad_len_of payload (cipher_block_len snd_s)) in *.
  set (fill := fst (pad_fill (is_cipher_none (cipher_type snd_s)) w
                      (Z.to_nat pad))) in *.
  set (P := frame payload pad fill) in *.
  assert (Hfill : length fill = Z.to_nat pad) by apply pad_fill_length.
  assert (Hcbl : 0 <= cipher_block_len snd_s <= 252)
    by (destruct Hblk as [H | H]; lia).
  destruct (pad_len_of_spec payload (cipher_block_len snd_s) Hcbl Hlen)
    as (_ & Hrange & _).
  fold pad in Hrange.
  destruct (config_fields _ _ Hcfg) as (Hsq & Hct & Hcb & _).
  rewrite Htx, skipn_app_exact in Hpend by reflexivity.
  rewrite <- app_assoc in Hpend.
  pose proof (recv_block_len_range snd_s Hblk) as Hb.
  set (block := recv_block_len (cipher_block_len snd_s)) in *.
  assert (Hfbl : Z.to_nat (u32 (recv_block_len (cipher_block_len rcv_s)))
                 = Z.to_nat block)
    by (rewrite Hcb; fold block; rewrite u32_small by lia; reflexivity).
  assert (HlenP : length P = (5 + length payload + Z.to_nat pad)%nat)
    by (unfold P; rewrite frame_length, Hfill; reflexivity).
  assert (Hlong : (Z.to_nat block <= length body)%nat) by lia.
  assert (Hfield : ssh_buf_get_u32 P
                   = 1 + Z.of_nat (length payload) + pad)
    by (unfold P; rewrite frame_get_u32; apply u32_small; lia).
  assert (Hfirst : exists s1 w1,
             recv_first_block crypt (rcv_s, wr) = ((s1, w1), Ok tt)
             /\ ssh_buf_get_u32 (data (pack s1)) = ssh_buf_get_u32 P
             /\ config s1 = config rcv_s).
  { destruct (is_cipher_none (cipher_type snd_s)) eqn:Hnone.
    - destruct Hbody as [Hbody _]. subst body.
      destruct (recv_first_block_plain crypt rcv_s wr)
        as (s1 & w1 & Hrun & Hpack & _ & _ & Hcfg1 & _).
      + now rewrite Hct.
      + exact Hnb.
      + rewrite Hfbl, Hpend, length_app. lia.
      + exists s1, w1. split; [exact Hrun |]. split; [| exact Hcfg1].
        rewrite Hpack. cbn [data]. rewrite Hfbl, Hpend.
        rewrite ssh_buf_get_u32_firstn by lia.
        unfold P. rewrite frame_get_u32_app, frame_get_u32. reflexivity.
    - destruct Hbody as (c & c' & Hc & Hcrypt & _).
      destruct (Hmatch eq_refl c P c' body Hc ltac:(fold block; lia) Hcrypt)
        as (d & d1 & d2 & Hd & Hd1 & _).
      fold block in Hd1.
      assert (Hfp : firstn (Z.to_nat block) (pending rcv_s wr)
                    = firstn (Z.to_nat block) body)
        by (rewrite Hpend; apply firstn_app_short; exact Hlong).
      destruct (recv_first_block_cipher crypt rcv_s wr d d1
                  (firstn (Z.to_nat block) P))
        as (s1 & w1 & Hrun & Hpack & _ & _ & _ & Hcfg1 & _).
      + now rewrite Hct.
      + exact Hnb.
      + rewrite Hfbl, Hpend, length_app. lia.
      + exact Hd.
      + rewrite Hfbl, Hfp. exact Hd1.
      + rewrite Hfbl, length_firstn. lia.
      + exists s1, w1. split; [exact Hrun |]. split; [| exact Hcfg1].
        rewrite Hpack. cbn [data]. apply ssh_buf_get_u32_firstn. lia. }
  destruct Hfirst as (s1 & w1 & Hrun & Hf1 & Hcfg1).
  assert (Hsize : recv_remainder (s1, w1) = ((s1, w1), Err ERR_PACKET_SIZE)).
  { apply recv_remainder_size_error. split; [reflexivity |]. right.
    cbn [fst]. rewrite Hf1, Hfield. exact Hbig. }
  exists (s1, w1). split.
  - unfold ssh_stream_recv_packet, recv_rest.
    rewrite (bind_exec _ _ _ _ _ Hrun).
    rewrite (bind_exec _ _ _ _ _
               (eq_refl : get_stream (s1, w1) = ((s1, w1), Ok s1))).
    cbv zeta. now rewrite (bind_exec_err _ _ _ _ _ Hsize).
  - cbn [fst]. now destruct (config_fields _ _ Hcfg1) as (Hs & _).
Qed.

(** C1 (round trip).  For every payload (below 4 GiB, so that its length
    fits the [uint32_t] field): if the packet is built with
    [ssh_stream_new_packet], the payload appended, and sent with
    [ssh_stream_send_packet] (cipher block length 0 or 8..252, the cipher
    and the MAC writing as many octets as their contracts say), and the
    octets written are then received by [ssh_stream_recv_packet] on a
    stream with matching cipher/MAC state and equal [seq_num], the octets
    at offset 5 through [pack_len + 4 - pad_len] are the payload that was
    sent, byte for byte, and what followed the packet is still pending. *)
Theorem roundtrip (snd_s rcv_s : STREAM) w wr payload s' w' rest r' wr' :
  cipher_keeps_length crypt ->
  mac_len_ok digest snd_s ->
  block_len_ok snd_s ->
  streams_match crypt snd_s rcv_s ->
  net_buffer_ok rcv_s ->
  Z.of_nat (length payload) + 260 < 4294967296 ->
  send_payload crypt digest payload (snd_s, w) = ((s', w'), Ok tt) ->
  pending rcv_s wr = skipn (length (net_tx w)) (net_tx w') ++ rest ->
  ssh_stream_recv_packet crypt digest (rcv_s, wr) = ((r', wr'), Ok tt) ->
  recv_payload r' = payload /\ pending r' wr' = rest.
Proof.
  intros Hcl Hmac Hblk Hmatch Hnb Hlen Hsend Hpend Hrecv.
  destruct (Z.le_gt_cases
              (1 + Z.of_nat (length payload)
               + pad_len_of payload (cipher_block_len snd_s)) 65536)
    as [Hmax | Hbig].
  - destruct (roundtrip_general crypt digest snd_s rcv_s w wr payload s' w'
                rest Hcl Hmac Hblk Hmatch Hnb Hmax Hsend Hpend)
      as (r2 & wr2 & Hrecv2 & Hpayload & Hrest & _).
    rewrite Hrecv in Hrecv2. injection Hrecv2 as <- <-.
    split; assumption.
  - destruct (oversized_rejected snd_s rcv_s w wr payload s' w' rest
                Hcl Hmac Hblk Hmatch Hnb Hlen ltac:(lia) Hsend Hpend)
      as (st' & Hrej & _).
    rewrite Hrecv in Hrej. discriminate Hrej.
Qed.

(** X26.  Within the receiver's bound the round trip does take place: when
    the packet_length [1 + payload_len + pad_len] is at most 65536, what
    was sent is received, the receive succeeds, exposes the payload that
    was sent, leaves what followed the packet pending and counts the
    packet. *)
Theorem roundtrip_within_bound (snd_s rcv_s : STREAM) w wr payload s' w'
    rest :
  cipher_keeps_length crypt ->
  mac_len_ok digest snd_s ->
  block_len_ok snd_s ->
  streams_match crypt snd_s rcv_s ->
  net_buffer_ok rcv_s ->
  1 + Z.of_nat (length payload) + pad_len_of payload (cipher_block_len snd_s)
    <= 65536 ->
  send_payload crypt digest payload (snd_s, w) = ((s', w'), Ok tt) ->
  pending rcv_s wr = skipn (length (net_tx w)) (net_tx w') ++ rest ->
  exists r' wr',
    ssh_stream_recv_packet crypt digest (rcv_s, wr) = ((r', wr'), Ok tt)
    /\ recv_payload r' = payload
    /\ pending r' wr' = rest
    /\ seq_num r' = u32 (seq_num rcv_s + 1).
Proof. exact (roundtrip_general crypt digest snd_s rcv_s w wr payload s' w' rest). Qed.

(** X27.  The sender enforces no bound on the size of a packet, the
    receiver does: a payload whose packet_length exceeds 65536 is sent,
    and the receiver in the matching state, handed the octets written,
    rejects the packet with the packet-size error and keeps its sequence
    number. *)
Theorem oversized_packet_is_rejected (snd_s rcv_s : STREAM) w wr payload
    s' w' rest :
  cipher_keeps_length crypt ->
  mac_len_ok digest snd_s ->
  block_len_ok snd_s ->
  streams_match crypt snd_s rcv_s ->
  net_buffer_ok rcv_s ->
  Z.of_nat (length payload) + 260 < 4294967296 ->
  65536 < 1 + Z.of_nat (length payload)
          + pad_len_of payload (cipher_block_len snd_s) ->
  send_payload crypt digest payload (snd_s, w) = ((s', w'), Ok tt) ->
  pending rcv_s wr = skipn (length (net_tx w)) (net_tx w') ++ rest ->
  exists st',
    ssh_stream_recv_packet crypt digest (rcv_s, wr)
    = (st', Err ERR_PACKET_SIZE)
    /\ seq_num (fst st') = seq_num rcv_s.
Proof. exact (oversized_rejected snd_s rcv_s w wr payload s' w' rest). Qed.

(* ------------------------------------------------------------------ *)
(** ** What sending and receiving leave alone *)

Section Keeps.

Context {X : Type} (f : STATE -> X).

Lemma keeps_obs_ret {A} (a : A) : keeps f (ret a : ACTION A).
Proof. intros st. reflexivity. Qed.

Lemma keeps_obs_fail {A} e : keeps f (fail e : ACTION A).
Proof. intros st. reflexivity. Qed.

Lemma keeps_obs_get : keeps f (get_stream : ACTION _).
Proof. intros st. reflexivity. Qed.

Lemma keeps_obs_bind {A B} (m : ACTION A) (k : A -> ACTION B) :
  keeps f m -> (forall a, keeps f (k a)) -> keeps f (bind m k).
Proof.
  intros Hm Hk st. unfold bind. specialize (Hm st).
  destruct (m st) as [st1 [a | e]]; cbn [fst] in *.
  - now rewrite Hk.
  - exact Hm.
Qed.

Lemma keeps_obs_upd (g : STREAM -> STREAM) :
  (forall s w, f (g s, w) = f (s, w)) -> keeps f (upd_stream g).
Proof. intros H [s w]. apply H. Qed.

Lemma keeps_obs_buf_clear r :
  (forall b s w, f (buf_set r b s, w) = f (s, w)) -> keeps f (buf_clear r : ACTION _).
Proof. intros H [s w]. apply H. Qed.

Lemma keeps_obs_buf_get_write_pointer r n :
  (forall b s w, f (buf_set r b s, w) = f (s, w)) ->
  keeps f (buf_get_write_pointer r n : ACTION _).
Proof. intros H [s w]. apply H. Qed.

Lemma keeps_obs_buf_grow r n :
  (forall b s w, f (buf_set r b s, w) = f (s, w)) -> keeps f (buf_grow r n : ACTION _).
Proof. intros H [s w]. apply H. Qed.

Lemma keeps_obs_buf_set_len r n :
  (forall b s w, f (buf_set r b s, w) = f (s, w)) -> keeps f (buf_set_len r n : ACTION _).
Proof. intros H [s w]. apply H. Qed.

Lemma keeps_obs_store r p src :
  (forall b s w, f (buf_set r b s, w) = f (s, w)) -> keeps f (store r p src : ACTION _).
Proof. intros H [s w]. apply H. Qed.

Lemma keeps_obs_random_gen r p n :
  (forall b s w, f (buf_set r b s, w) = f (s, w)) ->
  (forall s w k, f (s, snd (crypto_random_gen w k)) = f (s, w)) ->
  keeps f (random_gen r p n : ACTION _).
Proof.
  intros H Hr [s w]. unfold random_gen. cbn [fst snd].
  specialize (Hr s w n). destruct (crypto_random_gen w n) as [bytes w1].
  cbn [snd] in Hr. rewrite <- Hr. apply (keeps_obs_store r p bytes H (s, w1)).
Qed.

Lemma keeps_obs_cipher_crypt r p input :
  (forall b s w, f (buf_set r b s, w) = f (s, w)) ->
  (forall c s w, f (set_cipher_ctx c s, w) = f (s, w)) ->
  keeps f (cipher_crypt crypt r p input : ACTION _).
Proof.
  intros H Hc [s w]. unfold cipher_crypt. cbn [fst snd].
  destruct (cipher_ctx s) as [c |]; [| reflexivity].
  destruct (crypt c input) as [[c' out] |]; [| reflexivity].
  rewrite (keeps_obs_store r p out H). apply Hc.
Qed.

Lemma keeps_obs_mac_compute seq input :
  keeps f (mac_compute digest seq input : ACTION _).
Proof.
  intros st. unfold mac_compute.
  now destruct (ssh_mac_compute digest (mac_ctx (fst st)) seq input).
Qed.

Lemma keeps_obs_net_write_all bytes :
  (forall s w w', ssh_net_write_all w bytes = Some w' -> f (s, w') = f (s, w)) ->
  keeps f (net_write_all bytes : ACTION _).
Proof.
  intros H [s w]. unfold net_write_all. cbn [fst snd].
  destruct (ssh_net_write_all w bytes) as [w' |] eqn:E; [| reflexivity].
  now apply H.
Qed.

Lemma keeps_obs_net_read_all r p n :
  (forall b s w, f (buf_set r b s, w) = f (s, w)) ->
  (forall s w bytes w', ssh_net_read_all w n = Some (bytes, w') -> f (s, w') = f (s, w)) ->
  keeps f (net_read_all r p n : ACTION _).
Proof.
  intros H Hr [s w]. unfold net_read_all. cbn [fst snd].
  destruct (ssh_net_read_all w n) as [[bytes w'] |] eqn:E; [| reflexivity].
  rewrite (keeps_obs_store r p bytes H). now apply (Hr s w bytes).
Qed.

Lemma keeps_obs_buf_remove_data r off n :
  (forall b s w, f (buf_set r b s, w) = f (s, w)) ->
  keeps f (buf_remove_data r off n : ACTION _).
Proof.
  intros H [s w]. unfold buf_remove_data. cbn [fst snd].
  destruct (ssh_buf_remove_data (buf_at r s) off n); [apply H | reflexivity].
Qed.

End Keeps.

Ltac obs_side :=
  intros;
  repeat match goal with
         | |- context [if ?c then _ else _] => destruct c
         end;
  try reflexivity.

Ltac keeps_obs_with known :=
  repeat first
    [ known
    | apply keeps_obs_bind; [| intros ?]
    | apply keeps_obs_ret | apply keeps_obs_fail | apply keeps_obs_get
    | apply keeps_obs_mac_compute
    | apply keeps_obs_buf_clear; solve [obs_side]
    | apply keeps_obs_buf_get_write_pointer; solve [obs_side]
    | apply keeps_obs_buf_grow; solve [obs_side]
    | apply keeps_obs_buf_set_len; solve [obs_side]
    | apply keeps_obs_store; solve [obs_side]
    | apply keeps_obs_random_gen; solve [obs_side]
    | apply keeps_obs_cipher_crypt; solve [obs_side]
    | apply keeps_obs_buf_remove_data; solve [obs_side]
    | apply keeps_obs_upd; solve [obs_side]
    | match goal with
      | |- keeps _ (if ?b then _ else _) => destruct b
      end
    | progress cbv zeta ].

Ltac keeps_obs := keeps_obs_with fail.

Lemma write_all_keeps_rx (w w' : WORLD) bytes :
  ssh_net_write_all w bytes = Some w' -> net_rx w' = net_rx w.
Proof.
  unfold ssh_net_write_all. destruct (net_wr_ok w); [| discriminate].
  intros E. inversion E. reflexivity.
Qed.

Lemma read_all_keeps_tx (w w' : WORLD) n bytes :
  ssh_net_read_all w n = Some (bytes, w') ->
  net_tx w' = net_tx w /\ net_wr_ok w' = net_wr_ok w /\ rand_pool w' = rand_pool w.
Proof.
  unfold ssh_net_read_all. destruct (n <=? length (net_rx w))%nat; [| discriminate].
  intros E. inversion E. now repeat split.
Qed.

Lemma send_keeps_recv_side :
  keeps recv_side (ssh_stream_send_packet crypt digest : ACTION _).
Proof.
  unfold ssh_stream_send_packet, finish_packet, write_padding, encrypt_packet,
    write_mac.
  keeps_obs.
  apply keeps_obs_net_write_all. intros s w w' E.
  unfold recv_side. cbn [fst snd]. now rewrite (write_all_keeps_rx _ _ _ E).
Qed.

Lemma send_keeps_algorithms :
  keeps (fun st : STATE => algorithms (fst st))
    (ssh_stream_send_packet crypt digest : ACTION _).
Proof.
  unfold ssh_stream_send_packet, finish_packet, write_padding, encrypt_packet,
    write_mac.
  keeps_obs.
  apply keeps_obs_net_write_all. reflexivity.
Qed.

(** X3.  Whatever its outcome, [ssh_stream_send_packet] leaves the receive
    side alone: the octets still to arrive on the socket and the
    read-ahead buffer are what they were, and so are the algorithms of the
    stream, their block and MAC lengths and the MAC context. *)
Theorem send_leaves_receive_side (st : STATE) :
  let st' := fst (ssh_stream_send_packet crypt digest st) in
  net_rx (snd st') = net_rx (snd st)
  /\ net_buffer (fst st') = net_buffer (fst st)
  /\ algorithms (fst st') = algorithms (fst st).
Proof.
  intros st'.
  pose proof (send_keeps_recv_side st) as H. unfold recv_side in H.
  inversion H as [[Hrx Hnb]].
  repeat split; try assumption.
  apply (send_keeps_algorithms st).
Qed.

Lemma recv_keeps_send_side :
  keeps send_side (ssh_stream_recv_packet crypt digest : ACTION _).
Proof.
  assert (Hread : forall r p n, keeps send_side (net_read_all r p n : ACTION _)).
  { intros r p n. apply keeps_obs_net_read_all; [obs_side; now destruct r |].
    intros s w bytes w' E. unfold send_side. cbn [fst snd].
    destruct (read_all_keeps_tx _ _ _ _ E) as (-> & -> & ->). reflexivity. }
  assert (Hdata : forall r p n, keeps send_side (stream_recv_data r p n : ACTION _)).
  { intros r p n. unfold stream_recv_data.
    keeps_obs_with ltac:(first
      [ apply Hread
      | apply keeps_obs_store; solve [obs_side; now destruct r] ]). }
  unfold ssh_stream_recv_packet, recv_first_block, recv_rest, recv_remainder,
    decrypt_remainder, verify_read_packet.
  keeps_obs_with ltac:(apply Hdata).
Qed.

Lemma recv_keeps_algorithms :
  keeps (fun st : STATE => algorithms (fst st))
    (ssh_stream_recv_packet crypt digest : ACTION _).
Proof.
  assert (Hread : forall r p n,
             keeps (fun st : STATE => algorithms (fst st))
               (net_read_all r p n : ACTION _)).
  { intros r p n. apply keeps_obs_net_read_all; [obs_side; now destruct r |].
    reflexivity. }
  assert (Hdata : forall r p n,
             keeps (fun st : STATE => algorithms (fst st))
               (stream_recv_data r p n : ACTION _)).
  { intros r p n. unfold stream_recv_data.
    keeps_obs_with ltac:(first
      [ apply Hread
      | apply keeps_obs_store; solve [obs_side; now destruct r] ]). }
  unfold ssh_stream_recv_packet, recv_first_block, recv_rest, recv_remainder,
    decrypt_remainder, verify_read_packet.
  keeps_obs_with ltac:(apply Hdata).
Qed.

(** X4.  Whatever its outcome, [ssh_stream_recv_packet] leaves the send
    side alone: it writes nothing to the socket, draws no random octets,
    and keeps the algorithms of the stream, their block and MAC lengths and
    the MAC context. *)
Theorem recv_leaves_send_side (st : STATE) :
  let st' := fst (ssh_stream_recv_packet crypt digest st) in
  net_tx (snd st') = net_tx (snd st)
  /\ net_wr_ok (snd st') = net_wr_ok (snd st)
  /\ rand_pool (snd st') = rand_pool (snd st)
  /\ algorithms (fst st') = algorithms (fst st).
Proof.
  intros st'.
  pose proof (recv_keeps_send_side st) as H. unfold send_side in H.
  inversion H as [[Htx Hok Hrp]].
  repeat split; try assumption.
  apply (recv_keeps_algorithms st).
Qed.

(* ------------------------------------------------------------------ *)
(** ** What a failed and a successful send tell *)

Lemma never_net_write_all e bytes :
  e <> ERR_IO -> never_fails_with e (net_write_all bytes : ACTION _).
Proof.
  intros He st st'. unfold net_write_all.
  destruct (ssh_net_write_all (snd st) bytes); intros H; inversion H; congruence.
Qed.

Ltac no_err_with known :=
  repeat first
    [ known
    | apply never_bind; [| intros ?]
    | apply never_ret | apply never_get | apply never_upd
    | apply never_buf_get_write_pointer | apply never_random_gen
    | apply never_fail; discriminate
    | apply never_cipher_crypt; (assumption || discriminate)
    | apply never_mac_compute; (assumption || discriminate)
    | apply never_net_read_all; (assumption || discriminate)
    | apply never_net_write_all; (assumption || discriminate)
    | apply never_buf_remove_data; (assumption || discriminate)
    | match goal with
      | |- never_fails_with _ (if ?b then _ else _) => destruct b
      end
    | progress cbv zeta
    | progress unfold buf_clear, buf_grow, buf_set_len, store ].

Ltac no_err := no_err_with fail.

Lemma never_write_padding e : never_fails_with e (write_padding : ACTION _).
Proof. unfold write_padding. no_err. Qed.

Lemma never_encrypt_packet e :
  e <> ERR_CIPHER -> never_fails_with e (encrypt_packet crypt : ACTION _).
Proof. intros He. unfold encrypt_packet. no_err. Qed.

Lemma never_write_mac e :
  e <> ERR_MAC -> never_fails_with e (write_mac digest : ACTION _).
Proof. intros He. unfold write_mac. no_err. Qed.

Lemma finish_packet_failure (s : STREAM) w st' e :
  finish_packet crypt digest (s, w) = (st', Err e) ->
  (e = ERR_CIPHER /\ is_cipher_none (cipher_type s) = false)
  \/ (e = ERR_MAC /\ is_mac_none (mac_type s) = false).
Proof.
  unfold finish_packet. intros H.
  pose proof (keeps_write_padding (s, w)) as Hk1.
  destruct (write_padding (s, w)) as [[s1 w1] [[] | e1]] eqn:E1;
    [| exfalso; exact (never_write_padding e1 _ _ E1)].
  cbn [fst] in Hk1. destruct (config_fields _ _ Hk1) as (_ & Hct & _ & Hmt & _).
  rewrite (bind_exec _ _ _ _ _ E1) in H.
  pose proof (keeps_encrypt_packet crypt (s1, w1)) as Hk2.
  destruct (encrypt_packet crypt (s1, w1)) as [[s2 w2] [[] | e2]] eqn:E2.
  - rewrite (bind_exec _ _ _ _ _ E2) in H. right.
    cbn [fst] in Hk2. destruct (config_fields _ _ Hk2) as (_ & _ & _ & Hmt2 & _).
    destruct (is_mac_none (mac_type s)) eqn:Hnone.
    + rewrite write_mac_none in H by now rewrite Hmt2, Hmt. discriminate H.
    + split; [| reflexivity].
      destruct e; try reflexivity;
        exfalso; refine (never_write_mac _ _ _ _ H); discriminate.
  - rewrite (bind_exec_err _ _ _ _ _ E2) in H. inversion H; subst. left.
    destruct (is_cipher_none (cipher_type s)) eqn:Hnone.
    + rewrite encrypt_packet_none in E2 by now rewrite Hct. discriminate E2.
    + split; [| reflexivity].
      destruct e; try reflexivity;
        exfalso; refine (never_encrypt_packet _ _ _ _ E2); discriminate.
Qed.

Lemma finish_packet_keeps_wr_ok :
  keeps (fun st : STATE => net_wr_ok (snd st)) (finish_packet crypt digest).
Proof.
  unfold finish_packet, write_padding, encrypt_packet, write_mac. keeps_obs.
Qed.

(** X5.  What a failed send tells.  When [ssh_stream_send_packet] fails
    in the cipher, a cipher is installed; when it fails in the MAC, a MAC is
    installed; when it fails in the write, the socket refused it. *)
Theorem send_error_attribution (st : STATE) e :
  snd (ssh_stream_send_packet crypt digest st) = Err e ->
  (e = ERR_CIPHER -> is_cipher_none (cipher_type (fst st)) = false)
  /\ (e = ERR_MAC -> is_mac_none (mac_type (fst st)) = false)
  /\ (e = ERR_IO -> net_wr_ok (snd st) = false).
Proof.
  destruct st as [s w]. cbn [fst snd].
  pose proof (finish_packet_keeps_wr_ok (s, w)) as Hw. cbn [snd] in Hw.
  unfold ssh_stream_send_packet, net_write_all, ssh_net_write_all. mrun.
  destruct (finish_packet crypt digest (s, w)) as [[s1 w1] [[] | e1]] eqn:E;
    cbn [fst snd] in *; mrun.
  - destruct (net_wr_ok w1) eqn:Hok; cbn [snd]; [discriminate |].
    intros H. inversion H; subst.
    repeat split; intros E'; try discriminate E'. now rewrite <- Hw.
  - intros H. inversion H; subst.
    destruct (finish_packet_failure s w _ _ E) as [[-> Hc] | [-> Hm]];
      repeat split; intros E'; try discriminate E'; assumption.
Qed.

Lemma encrypt_packet_failure (s : STREAM) w st' e :
  encrypt_packet crypt (s, w) = (st', Err e) ->
  e = ERR_CIPHER /\ is_cipher_none (cipher_type s) = false
  /\ forall c, cipher_ctx s = Some c -> crypt c (contents (pack s)) = None.
Proof.
  unfold encrypt_packet, cipher_crypt. mrun.
  destruct (is_cipher_none (cipher_type s)); mrun; [discriminate |].
  destruct (cipher_ctx s) as [c |].
  - destruct (crypt c (contents (pack s))) as [[c' out] |] eqn:E; mrun;
      [discriminate |].
    intros H. inversion H. repeat split. intros c0 Hc0. congruence.
  - intros H. inversion H. repeat split. discriminate.
Qed.

Lemma write_mac_failure (s : STREAM) w st' e :
  write_mac digest (s, w) = (st', Err e) ->
  e = ERR_MAC /\ is_mac_none (mac_type s) = false
  /\ ssh_mac_compute digest (mac_ctx s) (seq_num s) (contents (pack s)) = None.
Proof.
  unfold write_mac, mac_compute. mrun.
  destruct (is_mac_none (mac_type s)); mrun; [discriminate |].
  destruct (is_cipher_none (cipher_type s)); mrun;
    (destruct (ssh_mac_compute digest (mac_ctx s) (seq_num s) (contents (pack s)))
       eqn:E; mrun; [discriminate |]);
    intros H; inversion H; repeat split.
Qed.

Lemma finish_packet_failure_exact (s : STREAM) w st' e h0 h1 h2 h3 h4 payload :
  pack s = mkbuf (h0 :: h1 :: h2 :: h3 :: h4 :: payload) (5 + length payload) ->
  finish_packet crypt digest (s, w) = (st', Err e) ->
  let pad := pad_len_of payload (cipher_block_len s) in
  let fw := pad_fill (is_cipher_none (cipher_type s)) w (Z.to_nat pad) in
  let P := frame payload pad (fst fw) in
  (e = ERR_CIPHER /\ is_cipher_none (cipher_type s) = false
   /\ forall c, cipher_ctx s = Some c -> crypt c P = None)
  \/ (e = ERR_MAC /\ is_mac_none (mac_type s) = false
      /\ ssh_mac_compute digest (mac_ctx s) (seq_num s) P = None).
Proof.
  intros Hpack Hfin pad fw P. revert Hfin. unfold finish_packet.
  rewrite (bind_exec _ _ _ _ _ (write_padding_exec s w _ _ _ _ _ _ Hpack)).
  fold pad. fold fw. fold P.
  assert (HlenP : length P = (5 + length payload + Z.to_nat pad)%nat).
  { unfold P. rewrite frame_length. unfold fw. rewrite pad_fill_length. lia. }
  rewrite <- HlenP. clearbody P. clearbody fw.
  set (s1 := buf_set PACK (mkbuf P (length P)) s).
  assert (Hc1 : contents (pack s1) = P) by apply firstn_all.
  pose proof (keeps_encrypt_packet crypt (s1, snd fw)) as Hk.
  pose proof (encrypt_packet_pack crypt (s1, snd fw)) as Hp.
  destruct (encrypt_packet crypt (s1, snd fw)) as [[s2 w2] [[] | e2]] eqn:E2.
  - rewrite (bind_exec _ _ _ _ _ E2). intros H.
    cbn [fst] in Hk, Hp.
    destruct (config_fields _ _ Hk) as (Hsq & _ & _ & Hmt & _ & Hmc).
    destruct (write_mac_failure _ _ _ _ H) as (-> & Hmn & Hnone).
    right. rewrite Hmt in Hmn. rewrite Hsq, Hmc, Hp, Hc1 in Hnone.
    now repeat split.
  - rewrite (bind_exec_err _ _ _ _ _ E2). intros H. injection H as <- <-.
    destruct (encrypt_packet_failure _ _ _ _ E2) as (-> & Hn & Hnone).
    left. rewrite Hc1 in Hnone. now repeat split.
Qed.

Lemma send_payload_failure_exact (s : STREAM) w payload e :
  snd (send_payload crypt digest payload (s, w)) = Err e ->
  let pad := pad_len_of payload (cipher_block_len s) in
  let fw := pad_fill (is_cipher_none (cipher_type s)) w (Z.to_nat pad) in
  let P := frame payload pad (fst fw) in
  (e = ERR_CIPHER /\ is_cipher_none (cipher_type s) = false
   /\ forall c, cipher_ctx s = Some c -> crypt c P = None)
  \/ (e = ERR_MAC /\ is_mac_none (mac_type s) = false
      /\ ssh_mac_compute digest (mac_ctx s) (seq_num s) P = None)
  \/ (e = ERR_IO /\ net_wr_ok w = false).
Proof.
  intros H pad fw P. revert H. unfold send_payload.
  rewrite (bind_exec _ _ _ _ _ (start_packet_exec s w payload)).
  set (s0 := buf_set PACK (mkbuf (0 :: 0 :: 0 :: 0 :: 0 :: payload)
                             (5 + length payload)) s).
  pose proof (finish_packet_keeps_wr_ok (s0, w)) as Hw. cbn [snd] in Hw.
  unfold ssh_stream_send_packet, net_write_all, ssh_net_write_all. mrun.
  destruct (finish_packet crypt digest (s0, w)) as [[s1 w1] [[] | e1]] eqn:E;
    cbn [fst snd] in *; mrun.
  - destruct (net_wr_ok w1) eqn:Hok; cbn [snd]; [discriminate |].
    intros H. injection H as <-. right. right. split; [reflexivity |].
    now rewrite <- Hw.
  - intros H. injection H as <-.
    destruct (finish_packet_failure_exact s0 w _ _ 0 0 0 0 0 payload eq_refl E)
      as [H1 | H1]; [left | right; left]; exact H1.
Qed.

(** When building and sending a packet succeeds. *)
Lemma send_payload_ok_iff (s : STREAM) w payload :
  cipher_keeps_length crypt ->
  mac_len_ok digest s ->
  let pad := pad_len_of payload (cipher_block_len s) in
  let fill := fst (pad_fill (is_cipher_none (cipher_type s)) w (Z.to_nat pad)) in
  let P := frame payload pad fill in
  snd (send_payload crypt digest payload (s, w)) = Ok tt
  <-> (is_cipher_none (cipher_type s) = true
       \/ exists c, cipher_ctx s = Some c /\ crypt c P <> None)
      /\ (is_mac_none (mac_type s) = true
          \/ ssh_mac_compute digest (mac_ctx s) (seq_num s) P <> None)
      /\ net_wr_ok w = true.
Proof.
  intros Hcl Hmac pad fill P. split.
  - intros H.
    destruct (send_payload crypt digest payload (s, w)) as [[s' w'] r] eqn:E.
    cbn [snd] in H. subst r.
    destruct (send_payload_ok crypt digest s w s' w' payload Hcl Hmac E)
      as (body & tag & Hbody & Htag & _ & _ & _ & _ & _ & _ & _ & _ & Hok).
    fold pad in Hbody, Htag. fold fill in Hbody, Htag. fold P in Hbody, Htag.
    repeat split; [| | exact Hok].
    + destruct (is_cipher_none (cipher_type s)); [now left | right].
      destruct Hbody as (c & c' & Hc & Hcrypt & _).
      exists c. split; [exact Hc | congruence].
    + destruct (is_mac_none (mac_type s)); [now left | right]. congruence.
  - intros (Hc & Hm & Hok).
    destruct (snd (send_payload crypt digest payload (s, w))) as [[] | e] eqn:E;
      [reflexivity | exfalso].
    destruct (send_payload_failure_exact s w payload e E)
      as [(_ & Hn & Hnone) | [(_ & Hn & Hnone) | (_ & Hn)]].
    + destruct Hc as [Hc | (c & Hc & Hsome)]; [congruence |].
      apply Hsome. exact (Hnone c Hc).
    + destruct Hm as [Hm | Hm]; [congruence | exact (Hm Hnone)].
    + congruence.
Qed.

(** X6.  What a successful send has done.  When building a packet for a
    payload and sending it succeeds, the cipher, if one is installed, has a
    context and encrypted the framed packet; the MAC, if one is installed,
    digested the framed packet under the current sequence number; and the
    socket took the write. *)
Theorem send_success_requires (s : STREAM) w payload :
  cipher_keeps_length crypt ->
  mac_len_ok digest s ->
  snd (send_payload crypt digest payload (s, w)) = Ok tt ->
  let pad := pad_len_of payload (cipher_block_len s) in
  let fill := fst (pad_fill (is_cipher_none (cipher_type s)) w (Z.to_nat pad)) in
  let P := frame payload pad fill in
  (is_cipher_none (cipher_type s) = true
   \/ exists c, cipher_ctx s = Some c /\ crypt c P <> None)
  /\ (is_mac_none (mac_type s) = true
      \/ ssh_mac_compute digest (mac_ctx s) (seq_num s) P <> None)
  /\ net_wr_ok w = true.
Proof.
  intros Hcl Hmac Hok.
  exact (proj1 (send_payload_ok_iff s w payload Hcl Hmac) Hok).
Qed.

Lemma pad_fill_same_pool none (w1 w2 : WORLD) n :
  rand_pool w1 = rand_pool w2 ->
  fst (pad_fill none w1 n) = fst (pad_fill none w2 n).
Proof.
  intros H. unfold pad_fill, crypto_random_gen.
  destruct none; cbn [fst]; [reflexivity | now rewrite H].
Qed.

(** X7.  The octets a send puts on the socket depend on the payload, the
    keys, the sequence number and the random octets only, not on what the
    buffers of the stream held before: two streams that agree on [config]
    and on the cipher context, with generators that hand out the same
    octets and sockets in the same condition, both send or both fail, and
    when they send they write the same octets. *)
Theorem wire_ignores_stale_buffers (s1 s2 : STREAM) w1 w2 payload :
  cipher_keeps_length crypt ->
  mac_len_ok digest s1 ->
  config s1 = config s2 ->
  cipher_ctx s1 = cipher_ctx s2 ->
  rand_pool w1 = rand_pool w2 ->
  net_wr_ok w1 = net_wr_ok w2 ->
  let o1 := send_payload crypt digest payload (s1, w1) in
  let o2 := send_payload crypt digest payload (s2, w2) in
  (snd o1 = Ok tt <-> snd o2 = Ok tt)
  /\ (snd o1 = Ok tt ->
      skipn (length (net_tx w1)) (net_tx (snd (fst o1)))
      = skipn (length (net_tx w2)) (net_tx (snd (fst o2)))).
Proof.
  intros Hcl Hmac1 Hcfg Hctx Hpool Hok o1 o2.
  destruct (config_fields _ _ Hcfg) as (Hsq & Hct & Hcb & Hmt & Hml & Hmc).
  assert (Hmac2 : mac_len_ok digest s2).
  { unfold mac_len_ok in *. now rewrite <- Hmt, <- Hml, <- Hmc. }
  pose proof (send_payload_ok_iff s1 w1 payload Hcl Hmac1) as I1.
  pose proof (send_payload_ok_iff s2 w2 payload Hcl Hmac2) as I2.
  cbv zeta in I1, I2.
  rewrite <- Hct, <- Hcb, <- Hmt, <- Hmc, <- Hsq, <- Hctx, <- Hok in I2.
  rewrite <- (pad_fill_same_pool _ w1 w2 _ Hpool) in I2.
  assert (Hiff : snd o1 = Ok tt <-> snd o2 = Ok tt).
  { unfold o1, o2. rewrite I1, I2. reflexivity. }
  split; [exact Hiff |].
  intros H1. pose proof (proj1 Hiff H1) as H2. unfold o1, o2 in *.
  destruct (send_payload crypt digest payload (s1, w1)) as [[s1' w1'] r1] eqn:E1.
  destruct (send_payload crypt digest payload (s2, w2)) as [[s2' w2'] r2] eqn:E2.
  cbn [fst snd] in *. subst r1 r2.
  destruct (send_payload_ok crypt digest s1 w1 s1' w1' payload Hcl Hmac1 E1)
    as (b1 & t1 & Hb1 & Ht1 & _ & _ & _ & _ & _ & _ & Htx1 & _).
  destruct (send_payload_ok crypt digest s2 w2 s2' w2' payload Hcl Hmac2 E2)
    as (b2 & t2 & Hb2 & Ht2 & _ & _ & _ & _ & _ & _ & Htx2 & _).
  rewrite <- Hct, <- Hcb, <- Hctx in Hb2.
  rewrite <- Hct, <- Hcb, <- Hmt, <- Hmc, <- Hsq in Ht2.
  rewrite <- (pad_fill_same_pool _ w1 w2 _ Hpool) in Hb2, Ht2.
  rewrite Htx1, Htx2, !skipn_app_exact by reflexivity.
  assert (Hb : b1 = b2).
  { destruct (is_cipher_none (cipher_type s1)).
    - destruct Hb1 as [-> _]. destruct Hb2 as [-> _]. reflexivity.
    - destruct Hb1 as (c & c' & Hc & Hcr & _).
      destruct Hb2 as (d & d' & Hd & Hdr & _). congruence. }
  assert (Ht : t1 = t2).
  { destruct (is_mac_none (mac_type s1)); congruence. }
  now rewrite Hb, Ht.
Qed.

(* ------------------------------------------------------------------ *)
(** ** The size of what is sent *)

Lemma pad_len_of_bounds payload cbl :
  0 <= cbl <= 252 ->
  Z.of_nat (length payload) + 260 < 4294967296 ->
  let block := Z.max cbl 8 in
  4 <= pad_len_of payload cbl < block + 4
  /\ (Z.of_nat (length payload) + 5 + pad_len_of payload cbl) mod block = 0.
Proof.
  intros Hcbl Hlen block. unfold pad_len_of.
  rewrite (u32_small (Z.of_nat (5 + length payload))) by lia.
  rewrite (u8_small cbl) by lia.
  destruct (calc_pad_len_is_least (Z.of_nat (5 + length payload)) cbl
              ltac:(lia) Hcbl) as (Hr & Hm & _).
  fold block in Hr, Hm. split; [exact Hr |].
  replace (Z.of_nat (length payload) + 5) with (Z.of_nat (5 + length payload))
    by lia.
  exact Hm.
Qed.

(** X8.  A packet that was sent takes, before its MAC, between
    [payload_len + 9] and [payload_len + 8 + block] octets on the socket, a
    multiple of the block length [max(cipher_block_len, 8)]; with a block
    length of 8, or of 16 and more, that is at least 16 octets.  The MAC
    adds [mac_len] octets. *)
Theorem sent_packet_size (s : STREAM) w s' w' payload :
  cipher_keeps_length crypt ->
  mac_len_ok digest s ->
  0 <= cipher_block_len s <= 252 ->
  Z.of_nat (length payload) + 260 < 4294967296 ->
  send_payload crypt digest payload (s, w) = ((s', w'), Ok tt) ->
  let block := Z.max (cipher_block_len s) 8 in
  let n := Z.of_nat (length payload) in
  exists wire,
    net_tx w' = net_tx w ++ wire
    /\ let packet := Z.of_nat (length wire) - mac_len s in
       n + 9 <= packet < n + 9 + block
       /\ packet mod block = 0
       /\ (block = 8 \/ 16 <= block -> 16 <= packet).
Proof.
  intros Hcl Hmac Hcbl Hlen Hsend block n.
  destruct (send_payload_ok crypt digest s w s' w' payload Hcl Hmac Hsend)
    as (body & tag & _ & _ & _ & _ & Hlb & Hlt & _ & _ & Htx & _).
  destruct (pad_len_of_bounds payload (cipher_block_len s) Hcbl Hlen)
    as (Hr & Hm).
  fold block in Hr, Hm. fold n in Hm.
  rewrite frame_length, pad_fill_length in Hlb.
  destruct Hmac as (Hml & _).
  exists (body ++ tag). split; [exact Htx |].
  cbv zeta. rewrite length_app, Hlb, Hlt.
  replace (Z.of_nat (5 + length payload
                     + Z.to_nat (pad_len_of payload (cipher_block_len s))
                     + Z.to_nat (mac_len s)) - mac_len s)
    with (n + 5 + pad_len_of payload (cipher_block_len s)) by (unfold n; lia).
  split; [lia |]. split; [exact Hm |].
  intros Hb.
  assert (Hblock : 8 <= block) by (unfold block; lia).
  apply Z.mod_divide in Hm; [| lia]. destruct Hm as [k Hk].
  assert (Hk1 : 1 <= k) by nia.
  destruct Hb as [Hb | Hb]; [| nia].
  assert (Hk2 : 2 <= k) by nia. nia.
Qed.

(* ------------------------------------------------------------------ *)
(** ** What a successful receive implies *)

Lemma contents_length (b : SSH_BUFFER) :
  (len b <= length (data b))%nat -> length (contents b) = len b.
Proof. intros H. unfold contents. rewrite length_firstn. lia. Qed.

Lemma stream_recv_data_short (s : STREAM) w r p n :
  r <> NET_BUFFER ->
  (len (net_buffer s) <= length (data (net_buffer s)))%nat ->
  (length (pending s w) < n)%nat ->
  exists st', stream_recv_data r p n (s, w) = (st', Err ERR_IO).
Proof.
  intros Hr Hnb Hn.
  unfold pending in Hn. rewrite length_app, contents_length in Hn by exact Hnb.
  unfold stream_recv_data, buf_remove_data, ssh_buf_remove_data,
    net_read_all, ssh_net_read_all.
  destruct r; [ | | congruence]; mrun.
  - destruct (Nat.ltb_spec 0 (len (net_buffer s))) as [Hpos | Hzero]; mrun.
    + cbn [Nat.add].
      rewrite (proj2 (Nat.leb_le _ _) (Nat.le_min_l _ _)). mrun.
      rewrite Nat.min_l by lia.
      destruct (Nat.ltb_spec 0 (n - len (net_buffer s))) as [Hmore | Hdone];
        [| lia]; mrun.
      rewrite (proj2 (Nat.leb_gt _ _)) by lia. eexists. reflexivity.
    + destruct (Nat.ltb_spec 0 n) as [Hmore | Hdone]; [| lia]; mrun.
      rewrite (proj2 (Nat.leb_gt _ _)) by lia. eexists. reflexivity.
  - destruct (Nat.ltb_spec 0 (len (net_buffer s))) as [Hpos | Hzero]; mrun.
    + cbn [Nat.add].
      rewrite (proj2 (Nat.leb_le _ _) (Nat.le_min_l _ _)). mrun.
      rewrite Nat.min_l by lia.
      destruct (Nat.ltb_spec 0 (n - len (net_buffer s))) as [Hmore | Hdone];
        [| lia]; mrun.
      rewrite (proj2 (Nat.leb_gt _ _)) by lia. eexists. reflexivity.
    + destruct (Nat.ltb_spec 0 n) as [Hmore | Hdone]; [| lia]; mrun.
      rewrite (proj2 (Nat.leb_gt _ _)) by lia. eexists. reflexivity.
Qed.

Lemma recv_first_block_short (r : STREAM) wr :
  let fbl := Z.to_nat (u32 (recv_block_len (cipher_block_len r))) in
  (len (net_buffer r) <= length (data (net_buffer r)))%nat ->
  (length (pending r wr) < fbl)%nat ->
  exists st', recv_first_block crypt (r, wr) = (st', Err ERR_IO).
Proof.
  intros fbl Hnb Hlen.
  unfold recv_first_block. mrun.
  fold (recv_block_len (cipher_block_len r)). fold fbl.
  destruct (is_cipher_none (cipher_type r)); mrun;
    set (sa := mkstream _ _ _ _ _ _ _ _ _ _).
  - destruct (stream_recv_data_short sa wr PACK 0 fbl) as [st' Hrun];
      [discriminate | exact Hnb | exact Hlen |].
    rewrite Hrun. eexists. reflexivity.
  - destruct (stream_recv_data_short sa wr PACK_ENC 0 fbl) as [st' Hrun];
      [discriminate | exact Hnb | exact Hlen |].
    rewrite Hrun. eexists. reflexivity.
Qed.

Lemma recv_first_block_cipher_inv (r : STREAM) wr st1 :
  let fbl := Z.to_nat (u32 (recv_block_len (cipher_block_len r))) in
  is_cipher_none (cipher_type r) = false ->
  (len (net_buffer r) <= length (data (net_buffer r)))%nat ->
  (fbl <= length (pending r wr))%nat ->
  recv_first_block crypt (r, wr) = (st1, Ok tt) ->
  exists d d1 out,
    cipher_ctx r = Some d
    /\ crypt d (firstn fbl (pending r wr)) = Some (d1, out).
Proof.
  intros fbl Hnone Hnb Hlen.
  unfold recv_first_block. mrun. rewrite Hnone. mrun.
  fold (recv_block_len (cipher_block_len r)). fold fbl.
  set (sa := mkstream _ _ _ _ _ _ _ _ _ _).
  destruct (stream_recv_data_ok sa wr PACK_ENC 0 fbl) as
    (s1 & w1 & Hrun & Hbuf & Hpend & Hnb1 & Hcfg & Hctx & _ & _);
    [discriminate | exact Hnb | exact Hlen | cbn; lia |].
  rewrite Hrun.
  change (pending sa wr) with (pending r wr) in *.
  cbn [buf_at] in Hbuf. subst sa.
  cbn [pack_enc data len firstn app Nat.add cipher_ctx] in Hbuf, Hctx.
  rewrite poke_whole in Hbuf by (rewrite length_firstn; lia).
  unfold cipher_crypt, contents. mrun.
  rewrite Hctx, Hbuf. cbn [data len].
  rewrite firstn_all2 by (rewrite length_firstn; lia).
  destruct (cipher_ctx r) as [d |]; [| intros E; discriminate E].
  destruct (crypt d (firstn fbl (pending r wr))) as [[d1 out] |] eqn:Hcrypt;
    [| intros E; discriminate E].
  intros _. now exists d, d1, out.
Qed.

Lemma recv_remainder_short (s : STREAM) w :
  let fbl := u32 (recv_block_len (cipher_block_len s)) in
  let pack_len := ssh_buf_get_u32 (data (pack s)) in
  let rem := Z.to_nat (u32 (pack_len + mac_len s - fbl + 4)) in
  pack_len <> 0 -> pack_len <= 65536 ->
  (len (net_buffer s) <= length (data (net_buffer s)))%nat ->
  (length (pending s w) < rem)%nat ->
  exists st', recv_remainder (s, w) = (st', Err ERR_IO).
Proof.
  intros fbl pack_len rem Hnz Hmax Hnb Hrem.
  unfold recv_remainder. mrun.
  fold (recv_block_len (cipher_block_len s)). fold fbl. fold pack_len.
  destruct (Z.eqb_spec pack_len 0) as [Hz | _]; [contradiction |].
  destruct (Z.ltb_spec 65536 pack_len) as [Hbig | _]; [lia |].
  cbn [orb]. mrun. fold rem.
  set (read_pack := if is_cipher_none (cipher_type s) then PACK else PACK_ENC).
  assert (Hrp : read_pack <> NET_BUFFER)
    by (unfold read_pack; destruct (is_cipher_none _); discriminate).
  clearbody read_pack.
  set (b := buf_at read_pack s) in *.
  set (sa := buf_set read_pack (mkbuf (firstn (len b) (data b) ++ repeat 0 rem)
                                  (len b + rem)) s).
  assert (Hpsa : pending sa w = pending s w)
    by (unfold sa; now rewrite pending_buf_set).
  destruct (stream_recv_data_short sa w read_pack (len b) rem) as [st' Hrun].
  - exact Hrp.
  - unfold sa. now rewrite net_buffer_buf_set.
  - now rewrite Hpsa.
  - rewrite Hrun. eexists. reflexivity.
Qed.

Lemma decrypt_remainder_inv (s : STREAM) w pack_len st' :
  let fbl := u32 (recv_block_len (cipher_block_len s)) in
  let rem := u32 (pack_len + mac_len s - fbl + 4) in
  let n := Z.to_nat (u32 (rem - mac_len s)) in
  let input := firstn n (skipn (Z.to_nat fbl) (data (pack_enc s))) in
  is_cipher_none (cipher_type s) = false ->
  decrypt_remainder crypt pack_len (s, w) = (st', Ok tt) ->
  exists d1 d2 out, cipher_ctx s = Some d1 /\ crypt d1 input = Some (d2, out).
Proof.
  intros fbl rem n input Hnone.
  unfold decrypt_remainder, cipher_crypt. mrun. rewrite Hnone. mrun.
  fold (recv_block_len (cipher_block_len s)). fold fbl. fold rem. fold n.
  fold input.
  destruct (cipher_ctx s) as [d1 |]; [| intros E; discriminate E].
  destruct (crypt d1 input) as [[d2 out] |] eqn:Hcrypt;
    [| intros E; discriminate E].
  intros _. now exists d1, d2, out.
Qed.

Lemma verify_read_packet_inv (s : STREAM) w st' :
  verify_read_packet digest (s, w) = (st', Ok tt) ->
  let pad := u8 (nth 4 (data (pack s)) 0) in
  let block := u8 (recv_block_len (cipher_block_len s)) in
  st' = (s, w)
  /\ 4 <= pad <= Z.of_nat (len (pack s)) - 5
  /\ Z.of_nat (len (pack s)) mod block = 0
  /\ (is_mac_none (mac_type s) = false ->
      exists dg,
        ssh_mac_compute digest (mac_ctx s) (seq_num s) (contents (pack s)) = Some dg
        /\ memcmp dg (skipn (len (pack s)) (data (pack s)))
             (Z.to_nat (mac_len s)) = 0).
Proof.
  intros H pad block. revert H.
  unfold verify_read_packet, mac_compute. mrun. fold pad.
  destruct (Z.ltb_spec pad 4) as [Hlo | Hlo]; cbn [orb];
    [intros E; discriminate E |].
  destruct (Z.ltb_spec (Z.of_nat (len (pack s)) - 5) pad) as [Hhi | Hhi];
    [intros E; discriminate E |].
  unfold recv_block_len in block.
  assert (Hb : u8 (if negb (cipher_block_len s =? 0)
                   then cipher_block_len s else 8) = block).
  { unfold block. now destruct (cipher_block_len s =? 0). }
  rewrite Hb. clearbody block.
  destruct (Z.eqb_spec (Z.of_nat (len (pack s)) mod block) 0) as [Hm | Hm];
    cbn [negb]; [| intros E; discriminate E].
  destruct (is_mac_none (mac_type s)); cbn [negb].
  - intros E. inversion E. repeat split; try assumption. discriminate.
  - mrun.
    destruct (ssh_mac_compute digest (mac_ctx s) (seq_num s) (contents (pack s)))
      as [dg |]; mrun; [| intros E; discriminate E].
    destruct (Z.eqb_spec (memcmp dg (skipn (len (pack s)) (data (pack s)))
                            (Z.to_nat (mac_len s))) 0) as [Hc | Hc];
      cbn [negb]; mrun; [| intros E; discriminate E].
    intros E. inversion E. repeat split; try assumption.
    intros _. now exists dg.
Qed.

Lemma split_three (l : list Z) a b :
  l = firstn a l ++ firstn b (skipn a l) ++ skipn (b + a) l.
Proof.
  rewrite <- skipn_skipn, firstn_skipn, firstn_skipn. reflexivity.
Qed.

Lemma ssh_buf_get_u32_app (a b : list Z) :
  (4 <= length a)%nat -> ssh_buf_get_u32 (a ++ b) = ssh_buf_get_u32 a.
Proof.
  intros H. rewrite <- (ssh_buf_get_u32_firstn (a ++ b) (length a)) by exact H.
  now rewrite firstn_app_exact.
Qed.

Lemma nth_app_left (a b : list Z) i :
  (i < length a)%nat -> nth i (a ++ b) 0 = nth i a 0.
Proof. intros H. now apply app_nth1. Qed.

(** The steps of [ssh_stream_recv_packet] after a first block that was
    read: what they establish when the receive succeeds. *)
Lemma recv_rest_inv (s1 : STREAM) w1 r' wr' :
  recv_rest crypt digest (s1, w1) = ((r', wr'), Ok tt) ->
  let pack_len := ssh_buf_get_u32 (data (pack s1)) in
  exists s3 w3 s4,
    recv_remainder (s1, w1) = ((s3, w3), Ok tt)
    /\ decrypt_remainder crypt pack_len (s3, w3) = ((s4, wr'), Ok tt)
    /\ verify_read_packet digest (s4, wr') = ((s4, wr'), Ok tt)
    /\ r' = set_seq_num (u32 (seq_num s4 + 1)) s4
    /\ len (pack s4) = Z.to_nat (u32 (pack_len + 4))
    /\ pack_len <> 0 /\ pack_len <= 65536
    /\ config s4 = config s1.
Proof.
  intros H pack_len. unfold recv_rest in H.
  rewrite (bind_exec _ _ _ _ _ (eq_refl : get_stream (s1, w1) = ((s1, w1), Ok s1)))
    in H.
  cbv zeta in H. fold pack_len in H.
  apply bind_ok in H. destruct H as ([] & [s3 w3] & Hrem & H).
  apply bind_ok in H. destruct H as ([] & [s4 w4] & Hdec & H).
  apply bind_ok in H. destruct H as ([] & st5 & Hver & H).
  destruct (verify_read_packet_inv _ _ _ Hver) as (-> & _).
  unfold upd_stream in H. cbn [fst snd] in H. inversion H; subst r' wr'.
  destruct (recv_len_before_verify crypt (s1, w1) (s3, w3) (s4, w4) Hrem Hdec)
    as (Hlen & Hnz & Hmax).
  pose proof (keeps_recv_remainder (s1, w1)) as K1. rewrite Hrem in K1.
  pose proof (keeps_decrypt_remainder crypt pack_len (s3, w3)) as K2.
  rewrite Hdec in K2. cbn [fst] in *.
  exists s3, w3, s4. repeat split; try assumption. congruence.
Qed.

Lemma recv_ok_inv_plain (r : STREAM) wr r' wr' :
  is_cipher_none (cipher_type r) = true ->
  block_len_ok r ->
  0 <= mac_len r < 2147483648 ->
  (len (net_buffer r) <= length (data (net_buffer r)))%nat ->
  ssh_stream_recv_packet crypt digest (r, wr) = ((r', wr'), Ok tt) ->
  let block := recv_block_len (cipher_block_len r) in
  exists body tag,
    pending r wr = body ++ tag ++ pending r' wr'
    /\ length tag = Z.to_nat (mac_len r)
    /\ pack r' = mkbuf (body ++ tag) (length body)
    /\ cipher_ctx r' = cipher_ctx r
    /\ Z.of_nat (length body) = ssh_buf_get_u32 body + 4
    /\ 1 <= ssh_buf_get_u32 body <= 65536
    /\ Z.of_nat (length body) mod block = 0
    /\ 4 <= u8 (nth 4 body 0) <= ssh_buf_get_u32 body - 1
    /\ (is_mac_none (mac_type r) = false ->
        exists dg,
          ssh_mac_compute digest (mac_ctx r) (seq_num r) body = Some dg
          /\ memcmp dg tag (Z.to_nat (mac_len r)) = 0)
    /\ config r' = config (set_seq_num (u32 (seq_num r + 1)) r)
    /\ (len (net_buffer r') <= length (data (net_buffer r')))%nat.
Proof.
  intros Hnone Hblk Hml Hnb Hrecv block.
  pose proof (recv_block_len_range r Hblk) as Hb. fold block in Hb.
  assert (Hu32 : u32 block = block) by (apply u32_small; lia).
  assert (Hu8 : u8 block = block) by (apply u8_small; lia).
  set (fbl := Z.to_nat block).
  set (pend := pending r wr) in *.
  unfold ssh_stream_recv_packet in Hrecv.
  apply bind_ok in Hrecv. destruct Hrecv as ([] & [s1 w1] & Hfb & Hrest).
  (* the first block *)
  assert (Hlen1 : (fbl <= length pend)%nat).
  { destruct (Nat.le_gt_cases fbl (length pend)) as [H | H]; [exact H |].
    destruct (recv_first_block_short r wr Hnb) as [st' E].
    - fold block. rewrite Hu32. exact H.
    - rewrite E in Hfb. discriminate Hfb. }
  destruct (recv_first_block_plain crypt r wr Hnone Hnb) as
    (s1' & w1' & Hrun1 & Hpack1 & Hpend1 & Hnb1 & Hcfg1 & Hctx1).
  { fold block. rewrite Hu32. exact Hlen1. }
  rewrite Hfb in Hrun1. inversion Hrun1; subst s1' w1'. clear Hrun1.
  fold block in Hpack1, Hpend1. rewrite Hu32 in Hpack1, Hpend1.
  fold fbl in Hpack1, Hpend1. fold pend in Hpack1, Hpend1.
  destruct (config_fields _ _ Hcfg1) as (Hsq1 & Hct1 & Hcb1 & Hmt1 & Hml1 & Hmc1).
  (* the rest *)
  destruct (recv_rest_inv s1 w1 r' wr' Hrest) as
    (s3 & w3 & s4 & Hrem & Hdec & Hver & -> & Hlen4 & Hnz & Hmax & Hcfg4).
  set (pack_len := ssh_buf_get_u32 (data (pack s1))) in *.
  destruct (config_fields _ _ Hcfg4) as (Hsq4 & Hct4 & Hcb4 & Hmt4 & Hml4 & Hmc4).
  destruct (verify_read_packet_inv _ _ _ Hver) as (_ & Hpad & Hmod & Hmac).
  rewrite Hcb4, Hcb1 in Hmod. fold block in Hmod. rewrite Hu8 in Hmod.
  assert (Hpl_pos : 0 <= pack_len).
  { unfold pack_len, ssh_buf_get_u32.
    pose proof (u8_range (nth 0 (data (pack s1)) 0)).
    pose proof (u8_range (nth 1 (data (pack s1)) 0)).
    pose proof (u8_range (nth 2 (data (pack s1)) 0)).
    pose proof (u8_range (nth 3 (data (pack s1)) 0)). lia. }
  assert (Htot : Z.to_nat (u32 (pack_len + 4)) = Z.to_nat (pack_len + 4))
    by (rewrite u32_small by lia; reflexivity).
  rewrite Htot in Hlen4.
  rewrite Hlen4, Z2Nat.id in Hmod, Hpad by lia.
  assert (Hge : block <= pack_len + 4) by (apply block_divides_length; lia).
  set (T := Z.to_nat (pack_len + 4)) in *.
  set (m := Z.to_nat (mac_len r)).
  assert (Hremz : Z.to_nat (u32 (pack_len + mac_len s1 - u32 (recv_block_len
                    (cipher_block_len s1)) + 4)) = (T - fbl + m)%nat).
  { rewrite Hml1, Hcb1. fold block. rewrite Hu32, u32_small by lia.
    unfold T, fbl, m. lia. }
  assert (Hlen3 : (T - fbl + m <= length (pending s1 w1))%nat).
  { destruct (Nat.le_gt_cases (T - fbl + m) (length (pending s1 w1)))
      as [H | H]; [exact H |].
    destruct (recv_remainder_short s1 w1) as [st' E];
      [exact Hnz | exact Hmax | exact Hnb1 | | rewrite E in Hrem; discriminate Hrem].
    fold pack_len. rewrite Hremz. exact H. }
  destruct (recv_remainder_ok s1 w1) as
    (s3' & w3' & Hrun3 & Hbuf3 & Hpend3 & Hnb3 & Hcfg3 & Hctx3 & _).
  { exact Hnz. } { exact Hmax. } { exact Hnb1. }
  { fold pack_len. rewrite Hremz. exact Hlen3. }
  { rewrite Hct1, Hnone. cbn [buf_at]. rewrite Hpack1. cbn [data len].
    rewrite length_firstn. lia. }
  rewrite Hrem in Hrun3. inversion Hrun3; subst s3' w3'. clear Hrun3.
  fold pack_len in Hbuf3, Hpend3. rewrite Hremz, Htot in Hbuf3.
  rewrite Hremz in Hpend3. fold T in Hbuf3.
  rewrite Hct1, Hnone in Hbuf3. cbn [buf_at] in Hbuf3.
  rewrite Hpack1, Hpend1 in Hbuf3. cbn [data] in Hbuf3.
  rewrite Hpend1, skipn_skipn in Hpend3.
  rewrite firstn_firstn_skipn in Hbuf3.
  assert (HfT : (fbl <= T)%nat) by (unfold fbl, T; lia).
  replace (fbl + (T - fbl + m))%nat with (T + m)%nat in Hbuf3 by lia.
  replace (T - fbl + m + fbl)%nat with (m + T)%nat in Hpend3 by lia.
  rewrite Hpend1, length_skipn in Hlen3.
  (* no cipher: nothing to decrypt *)
  assert (Hn3 : is_cipher_none (cipher_type s3) = true)
    by (destruct (config_fields _ _ Hcfg3) as (_ & Hct3 & _); congruence).
  rewrite (decrypt_remainder_plain crypt s3 w3 pack_len Hn3) in Hdec.
  inversion Hdec; subst s4 wr'. clear Hdec.
  set (body := firstn T pend). set (tag := firstn m (skipn T pend)).
  assert (Hlb : length body = T) by (unfold body; rewrite length_firstn; lia).
  assert (Hlt : length tag = m)
    by (unfold tag; rewrite length_firstn, length_skipn; lia).
  assert (Hdata : firstn (T + m) pend = body ++ tag)
    by (symmetry; apply firstn_firstn_skipn).
  rewrite Hdata in Hbuf3.
  assert (Hpl : ssh_buf_get_u32 body = pack_len).
  { unfold body, pack_len. rewrite Hpack1. cbn [data].
    rewrite !ssh_buf_get_u32_firstn by (unfold fbl, T; lia). reflexivity. }
  exists body, tag.
  rewrite Hbuf3 in Hpad. cbn [data len] in Hpad.
  assert (Hmac' : is_mac_none (mac_type r) = false ->
            exists dg,
              ssh_mac_compute digest (mac_ctx r) (seq_num r) body = Some dg
              /\ memcmp dg tag (Z.to_nat (mac_len r)) = 0).
  { intros Hmn. destruct Hmac as (dg & Hdg & Hcmp); [congruence |].
    unfold contents in Hdg. rewrite Hbuf3 in Hdg, Hcmp.
    cbn [data len] in Hdg, Hcmp. rewrite <- Hlb in Hdg, Hcmp.
    rewrite firstn_app_exact in Hdg by reflexivity.
    rewrite skipn_app_exact in Hcmp by reflexivity.
    exists dg. split; congruence. }
  rewrite nth_app_left in Hpad by (rewrite Hlb; unfold T; lia).
  rewrite Hpl, Hlb.
  cbn [set_seq_num pack cipher_ctx net_buffer].
  unfold pending. cbn [set_seq_num net_buffer]. fold (pending s3 w3).
  repeat split.
  - rewrite Hpend3. apply split_three.
  - exact Hlt.
  - exact Hbuf3.
  - congruence.
  - unfold T. lia.
  - lia.
  - lia.
  - unfold T. rewrite Z2Nat.id by lia. exact Hmod.
  - lia.
  - lia.
  - exact Hmac'.
  - unfold config in *. cbn [set_seq_num seq_num cipher_type cipher_block_len
      mac_type mac_len mac_ctx]. congruence.
  - exact Hnb3.
Qed.

Lemma recv_ok_inv_cipher (r : STREAM) wr r' wr' :
  is_cipher_none (cipher_type r) = false ->
  cipher_keeps_length crypt ->
  block_len_ok r ->
  0 <= mac_len r < 2147483648 ->
  (len (net_buffer r) <= length (data (net_buffer r)))%nat ->
  ssh_stream_recv_packet crypt digest (r, wr) = ((r', wr'), Ok tt) ->
  let block := recv_block_len (cipher_block_len r) in
  let fbl := Z.to_nat block in
  exists body tag plain d d1 d2,
    pending r wr = body ++ tag ++ pending r' wr'
    /\ length tag = Z.to_nat (mac_len r)
    /\ length plain = length body
    /\ pack r' = mkbuf (plain ++ tag) (length plain)
    /\ cipher_ctx r = Some d
    /\ crypt d (firstn fbl body) = Some (d1, firstn fbl plain)
    /\ crypt d1 (skipn fbl body) = Some (d2, skipn fbl plain)
    /\ cipher_ctx r' = Some d2
    /\ Z.of_nat (length plain) = ssh_buf_get_u32 plain + 4
    /\ 1 <= ssh_buf_get_u32 plain <= 65536
    /\ Z.of_nat (length plain) mod block = 0
    /\ 4 <= u8 (nth 4 plain 0) <= ssh_buf_get_u32 plain - 1
    /\ (is_mac_none (mac_type r) = false ->
        exists dg,
          ssh_mac_compute digest (mac_ctx r) (seq_num r) plain = Some dg
          /\ memcmp dg tag (Z.to_nat (mac_len r)) = 0)
    /\ config r' = config (set_seq_num (u32 (seq_num r + 1)) r)
    /\ (len (net_buffer r') <= length (data (net_buffer r')))%nat.
Proof.
  intros Hnone Hcl Hblk Hml Hnb Hrecv block fbl.
  pose proof (recv_block_len_range r Hblk) as Hb. fold block in Hb.
  assert (Hu32 : u32 block = block) by (apply u32_small; lia).
  assert (Hu8 : u8 block = block) by (apply u8_small; lia).
  set (pend := pending r wr) in *.
  unfold ssh_stream_recv_packet in Hrecv.
  apply bind_ok in Hrecv. destruct Hrecv as ([] & [s1 w1] & Hfb & Hrest).
  (* the first block *)
  assert (Hlen1 : (fbl <= length pend)%nat).
  { destruct (Nat.le_gt_cases fbl (length pend)) as [H | H]; [exact H |].
    destruct (recv_first_block_short r wr Hnb) as [st' E].
    - fold block. rewrite Hu32. exact H.
    - rewrite E in Hfb. discriminate Hfb. }
  destruct (recv_first_block_cipher_inv r wr (s1, w1) Hnone Hnb) as
    (d & d1 & out & Hd & Hc1); [fold block; now rewrite Hu32 | exact Hfb |].
  fold block in Hc1. rewrite Hu32 in Hc1. fold fbl in Hc1. fold pend in Hc1.
  assert (Hlo : length out = fbl)
    by (rewrite (Hcl _ _ _ _ Hc1), length_firstn; lia).
  destruct (recv_first_block_cipher crypt r wr d d1 out Hnone Hnb) as
    (s1' & w1' & Hrun1 & Hpack1 & Henc1 & Hpend1 & Hnb1 & Hcfg1 & Hctx1).
  { fold block. rewrite Hu32. exact Hlen1. }
  { exact Hd. }
  { fold block. rewrite Hu32. exact Hc1. }
  { fold block. rewrite Hu32. exact Hlo. }
  rewrite Hfb in Hrun1. inversion Hrun1; subst s1' w1'. clear Hrun1.
  fold block in Hpack1, Henc1, Hpend1. rewrite Hu32 in Hpack1, Henc1, Hpend1.
  fold fbl in Hpack1, Henc1, Hpend1. fold pend in Henc1, Hpend1.
  destruct (config_fields _ _ Hcfg1) as (Hsq1 & Hct1 & Hcb1 & Hmt1 & Hml1 & Hmc1).
  (* the rest *)
  destruct (recv_rest_inv s1 w1 r' wr' Hrest) as
    (s3 & w3 & s4 & Hrem & Hdec & Hver & -> & Hlen4 & Hnz & Hmax & Hcfg4).
  set (pack_len := ssh_buf_get_u32 (data (pack s1))) in *.
  destruct (config_fields _ _ Hcfg4) as (Hsq4 & Hct4 & Hcb4 & Hmt4 & Hml4 & Hmc4).
  destruct (verify_read_packet_inv _ _ _ Hver) as (_ & Hpad & Hmod & Hmac).
  rewrite Hcb4, Hcb1 in Hmod. fold block in Hmod. rewrite Hu8 in Hmod.
  assert (Hpl_pos : 0 <= pack_len).
  { unfold pack_len, ssh_buf_get_u32.
    pose proof (u8_range (nth 0 (data (pack s1)) 0)).
    pose proof (u8_range (nth 1 (data (pack s1)) 0)).
    pose proof (u8_range (nth 2 (data (pack s1)) 0)).
    pose proof (u8_range (nth 3 (data (pack s1)) 0)). lia. }
  assert (Htot : Z.to_nat (u32 (pack_len + 4)) = Z.to_nat (pack_len + 4))
    by (rewrite u32_small by lia; reflexivity).
  rewrite Htot in Hlen4.
  rewrite Hlen4, Z2Nat.id in Hmod, Hpad by lia.
  assert (Hge : block <= pack_len + 4) by (apply block_divides_length; lia).
  set (T := Z.to_nat (pack_len + 4)) in *.
  set (m := Z.to_nat (mac_len r)).
  assert (Hfblz : Z.to_nat (u32 (recv_block_len (cipher_block_len s1))) = fbl)
    by (rewrite Hcb1; fold block; now rewrite Hu32).
  assert (Hremz : u32 (pack_len + mac_len s1 - u32 (recv_block_len
                    (cipher_block_len s1)) + 4) = Z.of_nat (T - fbl + m)).
  { rewrite Hml1, Hcb1. fold block. rewrite Hu32, u32_small by lia.
    unfold T, fbl, m. lia. }
  assert (Hlen3 : (T - fbl + m <= length (pending s1 w1))%nat).
  { destruct (Nat.le_gt_cases (T - fbl + m) (length (pending s1 w1)))
      as [H | H]; [exact H |].
    destruct (recv_remainder_short s1 w1) as [st' E];
      [exact Hnz | exact Hmax | exact Hnb1 | | rewrite E in Hrem; discriminate Hrem].
    fold pack_len. rewrite Hremz, Nat2Z.id. exact H. }
  destruct (recv_remainder_ok s1 w1) as
    (s3' & w3' & Hrun3 & Hbuf3 & Hpend3 & Hnb3 & Hcfg3 & Hctx3 & Hoth3).
  { exact Hnz. } { exact Hmax. } { exact Hnb1. }
  { fold pack_len. rewrite Hremz, Nat2Z.id. exact Hlen3. }
  { rewrite Hct1, Hnone. cbn [buf_at]. rewrite Henc1. cbn [data len].
    rewrite length_firstn. lia. }
  rewrite Hrem in Hrun3. inversion Hrun3; subst s3' w3'. clear Hrun3.
  fold pack_len in Hbuf3, Hpend3. rewrite Hremz, Nat2Z.id, Htot in Hbuf3.
  rewrite Hremz, Nat2Z.id in Hpend3. fold T in Hbuf3.
  rewrite Hct1, Hnone in Hbuf3, Hoth3. cbn [buf_at] in Hbuf3.
  specialize (Hoth3 PACK ltac:(discriminate) ltac:(discriminate)).
  cbn [buf_at] in Hoth3.
  rewrite Henc1, Hpend1 in Hbuf3. cbn [data] in Hbuf3.
  rewrite Hpend1, skipn_skipn in Hpend3.
  rewrite firstn_firstn_skipn in Hbuf3.
  assert (HfT : (fbl <= T)%nat) by (unfold fbl, T; lia).
  replace (fbl + (T - fbl + m))%nat with (T + m)%nat in Hbuf3 by lia.
  replace (T - fbl + m + fbl)%nat with (m + T)%nat in Hpend3 by lia.
  rewrite Hpend1, length_skipn in Hlen3.
  set (body := firstn T pend). set (tag := firstn m (skipn T pend)).
  assert (Hlb : length body = T) by (unfold body; rewrite length_firstn; lia).
  assert (Hlt : length tag = m)
    by (unfold tag; rewrite length_firstn, length_skipn; lia).
  assert (Hdata : firstn (T + m) pend = body ++ tag)
    by (symmetry; apply firstn_firstn_skipn).
  rewrite Hdata in Hbuf3.
  assert (Hhead : firstn fbl pend = firstn fbl body).
  { unfold body. rewrite firstn_firstn. f_equal. lia. }
  rewrite Hhead in Hc1.
  (* the rest is decrypted *)
  destruct (config_fields _ _ Hcfg3) as (Hsq3 & Hct3 & Hcb3 & Hmt3 & Hml3 & Hmc3).
  assert (Hn3 : is_cipher_none (cipher_type s3) = false) by congruence.
  pose proof (decrypt_remainder_inv s3 w3 pack_len _ Hn3 Hdec) as Hinv.
  cbv zeta in Hinv. rewrite Hcb3, Hml3, Hremz, Hfblz in Hinv.
  replace (u32 (Z.of_nat (T - fbl + m) - mac_len s1)) with (Z.of_nat (T - fbl))
    in Hinv by (rewrite u32_small by lia; lia).
  rewrite Nat2Z.id, Hbuf3 in Hinv. cbn [data] in Hinv.
  assert (Htail : firstn (T - fbl) (skipn fbl (body ++ tag)) = skipn fbl body).
  { rewrite skipn_app, (proj2 (Nat.sub_0_le fbl (length body))) by lia.
    cbn [skipn]. apply firstn_app_exact. rewrite length_skipn. lia. }
  rewrite Htail in Hinv.
  destruct Hinv as (d1' & d2 & out2 & Hd1' & Hc2).
  assert (d1' = d1) by congruence. subst d1'.
  assert (Hlo2 : length out2 = (T - fbl)%nat)
    by (rewrite (Hcl _ _ _ _ Hc2), length_skipn; lia).
  pose proof (decrypt_remainder_cipher crypt s3 w3 pack_len d1 d2 out2) as Hfw.
  cbv zeta in Hfw. rewrite Hcb3, Hml3, Hremz, Hfblz, Htot in Hfw.
  replace (u32 (Z.of_nat (T - fbl + m) - mac_len s1)) with (Z.of_nat (T - fbl))
    in Hfw by (rewrite u32_small by lia; lia).
  rewrite Nat2Z.id, Hbuf3, Hoth3, Hpack1 in Hfw. cbn [data len] in Hfw.
  rewrite Htail in Hfw. fold T in Hfw.
  rewrite (skipn_app_exact body tag T (eq_sym Hlb)) in Hfw.
  replace (Z.to_nat (mac_len s1)) with (length tag) in Hfw by (rewrite Hlt; unfold m; congruence).
  rewrite firstn_all in Hfw.
  destruct Hfw as (s4' & Hrun4 & Hpack4 & Hcfg4' & Hnb4 & Hctx4);
    [exact Hn3 | congruence | exact Hc2 | exact Hlo2 | exact Hlo | lia |].
  rewrite Hdec in Hrun4. inversion Hrun4; subst s4' wr'. clear Hrun4.
  set (plain := out ++ out2).
  assert (Hlp : length plain = T) by (unfold plain; rewrite length_app; lia).
  rewrite app_assoc in Hpack4. fold plain in Hpack4.
  assert (Hpl : ssh_buf_get_u32 plain = pack_len).
  { unfold plain, pack_len. rewrite Hpack1. cbn [data].
    apply ssh_buf_get_u32_app. unfold fbl in Hlo. lia. }
  rewrite Hpack4 in Hpad. cbn [data] in Hpad.
  rewrite nth_app_left in Hpad by (rewrite Hlp; unfold T; lia).
  assert (Hmac' : is_mac_none (mac_type r) = false ->
            exists dg,
              ssh_mac_compute digest (mac_ctx r) (seq_num r) plain = Some dg
              /\ memcmp dg tag (Z.to_nat (mac_len r)) = 0).
  { intros Hmn. destruct Hmac as (dg & Hdg & Hcmp); [congruence |].
    unfold contents in Hdg. rewrite Hpack4 in Hdg, Hcmp.
    cbn [data len] in Hdg, Hcmp. rewrite <- Hlp in Hdg, Hcmp.
    rewrite firstn_app_exact in Hdg by reflexivity.
    rewrite skipn_app_exact in Hcmp by reflexivity.
    exists dg. split; congruence. }
  exists body, tag, plain, d, d1, d2.
  rewrite Hpl, Hlp, Hlb.
  cbn [set_seq_num pack cipher_ctx net_buffer].
  unfold pending. cbn [set_seq_num net_buffer]. rewrite Hnb4.
  fold (pending s3 w3).
  repeat split.
  - rewrite Hpend3. apply split_three.
  - exact Hlt.
  - exact Hpack4.
  - exact Hd.
  - unfold plain. rewrite firstn_app_exact by (symmetry; exact Hlo). exact Hc1.
  - unfold plain. rewrite skipn_app_exact by (symmetry; exact Hlo). exact Hc2.
  - exact Hctx4.
  - unfold T. lia.
  - lia.
  - lia.
  - unfold T. rewrite Z2Nat.id by lia. exact Hmod.
  - lia.
  - lia.
  - exact Hmac'.
  - unfold config in *. cbn [set_seq_num seq_num cipher_type cipher_block_len
      mac_type mac_len mac_ctx]. congruence.
  - exact Hnb3.
Qed.

(** ** Before keys are installed *)


Lemma memcmp_eq (a b : list Z) n :
  length a = n -> length b = n -> memcmp a b n = 0 -> a = b.
Proof.
  revert a b. induction n as [| n IH]; intros a b Ha Hb H.
  - destruct a, b; try discriminate. reflexivity.
  - destruct a as [| x a], b as [| y b]; try discriminate.
    cbn [memcmp hd tl] in H.
    destruct (Z.eqb_spec x y) as [-> | Hne]; [| lia].
    f_equal. apply IH; auto.
Qed.

(** X9.  A packet is accepted only if it is authentic: when a MAC is
    installed and [ssh_stream_recv_packet] succeeds, the [mac_len] octets
    that followed the packet on the wire are the MAC of the plaintext
    packet now in [pack], computed under the sequence number the receiver
    had before the call. *)
Theorem recv_accepts_only_authentic (r : STREAM) wr r' wr' :
  cipher_keeps_length crypt ->
  block_len_ok r ->
  mac_len_ok digest r ->
  net_buffer_ok r ->
  is_mac_none (mac_type r) = false ->
  ssh_stream_recv_packet crypt digest (r, wr) = ((r', wr'), Ok tt) ->
  exists body tag,
    pending r wr = body ++ tag ++ pending r' wr'
    /\ length body = len (pack r')
    /\ length tag = Z.to_nat (mac_len r)
    /\ ssh_mac_compute digest (mac_ctx r) (seq_num r) (contents (pack r'))
       = Some tag.
Proof.
  intros Hcl Hblk Hmac Hnb Hmn Hrecv.
  pose proof Hmac as (Hml & _ & _).
  destruct (is_cipher_none (cipher_type r)) eqn:Hnone.
  - destruct (recv_ok_inv_plain r wr r' wr' Hnone Hblk Hml Hnb Hrecv)
      as (body & tag & Hpend & Hlt & Hpack & _ & _ & _ & _ & _ & Hm & _).
    destruct (Hm Hmn) as (dg & Hdg & Hcmp).
    assert (dg = tag).
    { apply (memcmp_eq dg tag (Z.to_nat (mac_len r))); auto.
      eapply ssh_mac_compute_length; eauto. }
    subst dg. exists body, tag. rewrite Hpack. unfold contents. cbn [data len].
    rewrite firstn_app_exact by reflexivity. now repeat split.
  - destruct (recv_ok_inv_cipher r wr r' wr' Hnone Hcl Hblk Hml Hnb Hrecv)
      as (body & tag & plain & d & d1 & d2 & Hpend & Hlt & Hlp & Hpack & _ & _
          & _ & _ & _ & _ & _ & _ & Hm & _).
    destruct (Hm Hmn) as (dg & Hdg & Hcmp).
    assert (dg = tag).
    { apply (memcmp_eq dg tag (Z.to_nat (mac_len r))); auto.
      eapply ssh_mac_compute_length; eauto. }
    subst dg. exists body, tag. rewrite Hpack. unfold contents. cbn [data len].
    rewrite firstn_app_exact by reflexivity. now repeat split.
Qed.

(** X10.  A successful receive takes exactly one packet off the input: the
    [4 + pack_len + mac_len] octets at the head of what was pending
    (read-ahead buffer first, then socket), where [pack_len] is the length
    field of the packet now in [pack]; what follows them is still
    pending, in order. *)
Theorem recv_consumes_one_packet (r : STREAM) wr r' wr' :
  cipher_keeps_length crypt ->
  block_len_ok r ->
  0 <= mac_len r < 2147483648 ->
  net_buffer_ok r ->
  ssh_stream_recv_packet crypt digest (r, wr) = ((r', wr'), Ok tt) ->
  let pack_len := ssh_buf_get_u32 (data (pack r')) in
  exists taken,
    pending r wr = taken ++ pending r' wr'
    /\ Z.of_nat (length taken) = 4 + pack_len + mac_len r
    /\ Z.of_nat (len (pack r')) = pack_len + 4
    /\ net_buffer_ok r'.
Proof.
  intros Hcl Hblk Hml Hnb Hrecv pack_len. subst pack_len.
  destruct (is_cipher_none (cipher_type r)) eqn:Hnone.
  - destruct (recv_ok_inv_plain r wr r' wr' Hnone Hblk Hml Hnb Hrecv)
      as (body & tag & Hpend & Hlt & Hpack & _ & Hlen & Hrange & _ & _ & _ & _
          & Hnb').
    exists (body ++ tag). rewrite Hpack. cbn [data len].
    rewrite ssh_buf_get_u32_app by lia.
    rewrite <- app_assoc, length_app. repeat split; try assumption; lia.
  - destruct (recv_ok_inv_cipher r wr r' wr' Hnone Hcl Hblk Hml Hnb Hrecv)
      as (body & tag & plain & d & d1 & d2 & Hpend & Hlt & Hlp & Hpack & _ & _
          & _ & _ & Hlen & Hrange & _ & _ & _ & _ & Hnb').
    exists (body ++ tag). rewrite Hpack. cbn [data len].
    rewrite ssh_buf_get_u32_app by lia.
    rewrite <- app_assoc, length_app. repeat split; try assumption; lia.
Qed.

Lemma recv_ok_shape (r : STREAM) wr r' wr' :
  cipher_keeps_length crypt ->
  block_len_ok r ->
  0 <= mac_len r < 2147483648 ->
  net_buffer_ok r ->
  ssh_stream_recv_packet crypt digest (r, wr) = ((r', wr'), Ok tt) ->
  exists plain tag,
    pack r' = mkbuf (plain ++ tag) (length plain)
    /\ Z.of_nat (length plain) = ssh_buf_get_u32 plain + 4
    /\ 1 <= ssh_buf_get_u32 plain <= 65536
    /\ 4 <= u8 (nth 4 plain 0) <= ssh_buf_get_u32 plain - 1.
Proof.
  intros Hcl Hblk Hml Hnb Hrecv.
  destruct (is_cipher_none (cipher_type r)) eqn:Hnone.
  - destruct (recv_ok_inv_plain r wr r' wr' Hnone Hblk Hml Hnb Hrecv)
      as (body & tag & _ & _ & Hpack & _ & Hlen & Hrange & _ & Hpad & _).
    now exists body, tag.
  - destruct (recv_ok_inv_cipher r wr r' wr' Hnone Hcl Hblk Hml Hnb Hrecv)
      as (body & tag & plain & d & d1 & d2 & _ & _ & _ & Hpack & _ & _
          & _ & _ & Hlen & Hrange & _ & Hpad & _).
    now exists plain, tag.
Qed.

(** X11.  The packet a successful receive leaves in [pack] is well formed:
    its padding length is between 4 and [pack_len - 1]; it is the 5 header
    octets, then the payload that [recv_payload] exposes, of
    [pack_len - pad_len - 1] octets, then [pad_len] octets of padding. *)
Theorem recv_packet_layout (r : STREAM) wr r' wr' :
  cipher_keeps_length crypt ->
  block_len_ok r ->
  0 <= mac_len r < 2147483648 ->
  net_buffer_ok r ->
  ssh_stream_recv_packet crypt digest (r, wr) = ((r', wr'), Ok tt) ->
  let pack_len := ssh_buf_get_u32 (data (pack r')) in
  let pad_len := u8 (nth 4 (data (pack r')) 0) in
  4 <= pad_len <= pack_len - 1
  /\ Z.of_nat (length (recv_payload r')) = pack_len - pad_len - 1
  /\ exists padding,
       contents (pack r')
       = firstn 5 (data (pack r')) ++ recv_payload r' ++ padding
       /\ Z.of_nat (length padding) = pad_len.
Proof.
  intros Hcl Hblk Hml Hnb Hrecv pack_len pad_len.
  destruct (recv_ok_shape r wr r' wr' Hcl Hblk Hml Hnb Hrecv)
    as (plain & tag & Hpack & Hlen & Hrange & Hpad).
  unfold recv_payload, contents. subst pack_len pad_len.
  rewrite Hpack. cbn [data len].
  rewrite ssh_buf_get_u32_app, nth_app_left by lia.
  set (pack_len := ssh_buf_get_u32 plain) in *.
  set (pad_len := u8 (nth 4 plain 0)) in *.
  set (k := (Z.to_nat (pack_len + 4 - pad_len) - 5)%nat).
  assert (Hk : (k <= length plain - 5)%nat) by (unfold k; lia).
  rewrite firstn_app_exact by reflexivity.
  assert (Hsk : skipn 5 (plain ++ tag) = skipn 5 plain ++ tag).
  { rewrite skipn_app. replace (5 - length plain)%nat with 0%nat by lia.
    now rewrite skipn_O. }
  assert (Hfk : firstn k (skipn 5 plain ++ tag) = firstn k (skipn 5 plain)).
  { apply firstn_app_short. rewrite length_skipn. lia. }
  assert (Hf5 : firstn 5 (plain ++ tag) = firstn 5 plain).
  { apply firstn_app_short. lia. }
  rewrite Hsk, Hfk, Hf5.
  split; [exact Hpad |]. split.
  - rewrite length_firstn, length_skipn. unfold k. lia.
  - exists (skipn k (skipn 5 plain)). split.
    + now rewrite firstn_skipn, firstn_skipn.
    + rewrite !length_skipn. unfold k. lia.
Qed.

(* ------------------------------------------------------------------ *)
(** ** A forged MAC *)

Lemma memcmp_neq (a b : list Z) n :
  length a = n -> length b = n -> a <> b -> memcmp a b n <> 0.
Proof. intros Ha Hb Hne H. apply Hne. exact (memcmp_eq a b n Ha Hb H). Qed.

Lemma verify_read_packet_bad_mac (s : STREAM) w payload pad fill tag tag' :
  let P := frame payload pad fill in
  pack s = mkbuf (P ++ tag') (length P) ->
  length fill = Z.to_nat pad ->
  4 <= pad <= 255 ->
  Z.of_nat (length P) mod u8 (recv_block_len (cipher_block_len s)) = 0 ->
  is_mac_none (mac_type s) = false ->
  ssh_mac_compute digest (mac_ctx s) (seq_num s) P = Some tag ->
  length tag = Z.to_nat (mac_len s) ->
  length tag' = Z.to_nat (mac_len s) ->
  tag' <> tag ->
  verify_read_packet digest (s, w) = ((s, w), Err ERR_BAD_MAC).
Proof.
  intros P Hpack Hfill Hpad Hmod Hmn Hmac Hlt Hlt' Hne.
  assert (HlenP : length P = (5 + length payload + Z.to_nat pad)%nat)
    by (unfold P; rewrite frame_length; lia).
  assert (Hn4 : u8 (nth 4 (P ++ tag') 0) = pad)
    by (unfold P; rewrite frame_nth4_app; apply u8_small; lia).
  assert (Hblk : (if negb (cipher_block_len s =? 0) then cipher_block_len s else 8)
                 = recv_block_len (cipher_block_len s))
    by (unfold recv_block_len; now destruct (cipher_block_len s =? 0)).
  clearbody P.
  unfold verify_read_packet, mac_compute, contents. mrun.
  rewrite Hpack. cbn [data len].
  rewrite !Hn4, Hblk, Hmod.
  rewrite (proj2 (Z.ltb_ge pad 4)) by lia.
  rewrite (proj2 (Z.ltb_ge (Z.of_nat (length P) - 5) pad)) by lia.
  cbn [orb Z.eqb negb].
  rewrite Hmn. mrun.
  rewrite (firstn_app_exact P tag') by reflexivity.
  rewrite Hmac. mrun.
  rewrite (skipn_app_exact P tag') by reflexivity.
  destruct (Z.eqb_spec (memcmp tag tag' (Z.to_nat (mac_len s))) 0) as [E | _];
    [| reflexivity].
  exfalso. apply (memcmp_neq tag tag' _ Hlt Hlt'); [| exact E].
  intros ->. now apply Hne.
Qed.

(** X24.  A forged MAC is rejected.  When a packet is sent on a stream with
    a MAC installed and the receiver, in the matching state, is handed the
    octets written with the [mac_len] octets after the packet replaced by
    any others, [ssh_stream_recv_packet] fails with the MAC error and the
    receiver's sequence number stays what it was. *)
Theorem forged_mac_is_rejected (snd_s rcv_s : STREAM) w wr payload s' w'
    tag' rest :
  cipher_keeps_length crypt ->
  mac_len_ok digest snd_s ->
  block_len_ok snd_s ->
  streams_match crypt snd_s rcv_s ->
  net_buffer_ok rcv_s ->
  1 + Z.of_nat (length payload) + pad_len_of payload (cipher_block_len snd_s)
    <= 65536 ->
  is_mac_none (mac_type snd_s) = false ->
  send_payload crypt digest payload (snd_s, w) = ((s', w'), Ok tt) ->
  let wire := skipn (length (net_tx w)) (net_tx w') in
  let n := (length wire - Z.to_nat (mac_len snd_s))%nat in
  length tag' = Z.to_nat (mac_len snd_s) ->
  tag' <> skipn n wire ->
  pending rcv_s wr = firstn n wire ++ tag' ++ rest ->
  exists st',
    ssh_stream_recv_packet crypt digest (rcv_s, wr) = (st', Err ERR_BAD_MAC)
    /\ seq_num (fst st') = seq_num rcv_s.
Proof.
  intros Hcl Hmac Hblk [Hcfg Hmatch] Hnb Hmax Hmn Hsend wire n Hlt' Hne Hpend.
  destruct (send_payload_ok crypt digest snd_s w s' w' payload Hcl Hmac Hsend)
    as (body & tag & Hbody & Htag & _ & _ & Hlb & Hlt & _ & _ & Htx & _).
  set (pad := pad_len_of payload (cipher_block_len snd_s)) in *.
  set (fill := fst (pad_fill (is_cipher_none (cipher_type snd_s)) w (Z.to_nat pad))) in *.
  assert (Hfill : length fill = Z.to_nat pad) by apply pad_fill_length.
  pose proof (calc_pad_len_range (u32 (Z.of_nat (5 + length payload)))
                (u8 (cipher_block_len snd_s))) as Hpr.
  fold (pad_len_of payload (cipher_block_len snd_s)) in Hpr. fold pad in Hpr.
  assert (Hcbl : 0 <= cipher_block_len snd_s <= 252)
    by (destruct Hblk as [H | H]; lia).
  destruct (pad_len_of_spec payload (cipher_block_len snd_s) Hcbl ltac:(lia))
    as (_ & Hrange & Hmod).
  fold pad in Hrange, Hmod.
  destruct (config_fields _ _ Hcfg) as (Hsq & Hct & Hcb & Hmt & Hmlen & Hmc).
  assert (Hblk_r : block_len_ok rcv_s) by (unfold block_len_ok; now rewrite Hcb).
  assert (Hwire : wire = body ++ tag)
    by (unfold wire; rewrite Htx; now apply skipn_app_exact).
  assert (Hn : n = length body)
    by (unfold n; rewrite Hwire, length_app, Hlt; lia).
  rewrite Hn, Hwire in Hne, Hpend.
  rewrite (skipn_app_exact body tag) in Hne by reflexivity.
  rewrite (firstn_app_exact body tag) in Hpend by reflexivity.
  rewrite Hmn in Htag.
  pose proof Hmac as (Hml & _ & _).
  pose proof (recv_block_len_range snd_s Hblk) as Hb.
  assert (HmodP : Z.of_nat (length (frame payload pad fill))
                  mod recv_block_len (cipher_block_len rcv_s) = 0).
  { rewrite frame_length, Hfill, Hcb, (recv_block_len_max snd_s Hblk).
    replace (Z.of_nat (5 + length payload + Z.to_nat pad))
      with (Z.of_nat (length payload) + 5 + pad) by lia.
    exact Hmod. }
  destruct (recv_until_verify crypt rcv_s wr payload pad fill body tag' rest)
    as (s3 & w3 & Hpack3 & Hpend3 & Hcfg3 & Hk); try assumption.
  - now rewrite Hmlen.
  - now rewrite Hmlen.
  - rewrite Hct. destruct (is_cipher_none (cipher_type snd_s)) eqn:Hnone.
    + apply Hbody.
    + destruct Hbody as (c & c' & Hc & Hcrypt & _).
      rewrite Hcb.
      apply (Hmatch eq_refl c _ c' body Hc); [| exact Hcrypt].
      pose proof (block_divides_length
                    (Z.of_nat (length (frame payload pad fill)))
                    (recv_block_len (cipher_block_len snd_s))) as Hd.
      rewrite frame_length, Hfill in *.
      rewrite (recv_block_len_max snd_s Hblk) in *.
      replace (Z.of_nat (5 + length payload + Z.to_nat pad))
        with (Z.of_nat (length payload) + 5 + pad) in Hd by lia.
      specialize (Hd ltac:(lia) ltac:(lia) Hmod). lia.
  - destruct (config_fields _ _ Hcfg3) as (Hsq3 & _ & Hcb3 & Hmt3 & Hml3 & Hmc3).
    assert (Hver : verify_read_packet digest (s3, w3)
                   = ((s3, w3), Err ERR_BAD_MAC)).
    { apply (verify_read_packet_bad_mac s3 w3 payload pad fill tag tag');
        try assumption.
      - rewrite Hcb3, Hcb. rewrite Hcb in HmodP.
        rewrite u8_small by lia. exact HmodP.
      - now rewrite Hmt3, Hmt.
      - now rewrite Hmc3, Hsq3, Hmc, Hsq.
      - now rewrite Hml3, Hmlen.
      - now rewrite Hml3, Hmlen. }
    exists (s3, w3). split; [| cbn [fst]; exact Hsq3].
    unfold ssh_stream_recv_packet, recv_rest. cbv zeta.
    rewrite Hk. apply bind_exec_err. exact Hver.
Qed.

(** ** What a failed receive tells *)

(** [ssh_buf_remove_data] in [stream_recv_data] takes no more than the
    read-ahead buffer holds: its failure branch is never taken. *)
Lemma stream_recv_data_no_buffer_error r p n (st st' : STATE) :
  stream_recv_data r p n st <> (st', Err ERR_BUFFER).
Proof.
  destruct st as [s w].
  unfold stream_recv_data, buf_remove_data, ssh_buf_remove_data,
    net_read_all, ssh_net_read_all.
  destruct r; mrun;
    (destruct (Nat.ltb_spec 0 (len (net_buffer s))) as [Hpos | Hzero]; mrun;
     [ cbn [Nat.add];
       rewrite (proj2 (Nat.leb_le _ _) (Nat.le_min_l _ _)); mrun;
       match goal with
       | |- context [(0 <? ?k)%nat] => destruct (0 <? k)%nat
       end; mrun;
       [ match goal with
         | |- context [(?a <=? ?b)%nat] => destruct (a <=? b)%nat
         end; mrun; intros E; discriminate E
       | intros E; discriminate E ]
     | match goal with
       | |- context [(0 <? ?k)%nat] => destruct (0 <? k)%nat
       end; mrun;
       [ match goal with
         | |- context [(?a <=? ?b)%nat] => destruct (a <=? b)%nat
         end; mrun; intros E; discriminate E
       | intros E; discriminate E ] ]).
Qed.

Lemma never_stream_recv_data_buffer r p n :
  never_fails_with ERR_BUFFER (stream_recv_data r p n : ACTION _).
Proof. intros st st'. apply stream_recv_data_no_buffer_error. Qed.

Lemma never_stream_recv_data_other e r p n :
  e <> ERR_IO -> never_fails_with e (stream_recv_data r p n : ACTION _).
Proof.
  intros He. destruct e; try congruence;
    try (apply never_stream_recv_data; discriminate).
  apply never_stream_recv_data_buffer.
Qed.

(** The parts of a receive and the errors they cannot return. *)
Lemma never_recv_first_block e :
  e <> ERR_IO -> e <> ERR_CIPHER ->
  never_fails_with e (recv_first_block crypt : ACTION _).
Proof.
  intros H1 H2. unfold recv_first_block.
  no_err_with ltac:(apply never_stream_recv_data_other; assumption).
Qed.

Lemma never_recv_remainder e :
  e <> ERR_IO -> e <> ERR_PACKET_SIZE ->
  never_fails_with e (recv_remainder : ACTION _).
Proof.
  intros H1 H2. unfold recv_remainder.
  repeat first
    [ apply never_stream_recv_data_other; assumption
    | apply never_fail; congruence
    | apply never_bind; [| intros ?]
    | apply never_ret | apply never_get | apply never_upd
    | apply never_buf_get_write_pointer
    | match goal with
      | |- never_fails_with _ (if ?b then _ else _) => destruct b
      end
    | progress cbv zeta
    | progress unfold buf_set_len ].
Qed.

Lemma never_verify_read_packet e :
  e <> ERR_PAD_LENGTH -> e <> ERR_PAD_BLOCK -> e <> ERR_MAC ->
  e <> ERR_BAD_MAC ->
  never_fails_with e (verify_read_packet digest : ACTION _).
Proof.
  intros H1 H2 H3 H4. unfold verify_read_packet.
  repeat first
    [ apply never_fail; congruence
    | apply never_mac_compute; assumption
    | apply never_bind; [| intros ?]
    | apply never_ret | apply never_get | apply never_upd
    | match goal with
      | |- never_fails_with _ (if ?b then _ else _) => destruct b
      end
    | progress cbv zeta ].
Qed.

(** Without a cipher nothing is decrypted, without a MAC nothing is
    verified. *)
Lemma recv_first_block_plain_error (s : STREAM) w st' :
  is_cipher_none (cipher_type s) = true ->
  recv_first_block crypt (s, w) <> (st', Err ERR_CIPHER).
Proof.
  intros Hnone. unfold recv_first_block.
  rewrite (bind_exec get_stream _ (s, w) (s, w) s eq_refl).
  cbv zeta. rewrite Hnone. cbn [negb].
  match goal with
  | |- ?m (s, w) <> _ =>
      enough (Hn : never_fails_with ERR_CIPHER (m : ACTION unit))
        by apply Hn
  end.
  no_err_with ltac:(apply never_stream_recv_data_other; discriminate).
Qed.

Lemma decrypt_remainder_plain_error (s : STREAM) w pack_len st' e :
  is_cipher_none (cipher_type s) = true ->
  decrypt_remainder crypt pack_len (s, w) <> (st', Err e).
Proof.
  intros Hnone. unfold decrypt_remainder.
  rewrite (bind_exec get_stream _ (s, w) (s, w) s eq_refl).
  cbv zeta. rewrite Hnone. cbn [negb]. intros E. discriminate E.
Qed.

Lemma verify_read_packet_no_mac_error (s : STREAM) w st' e :
  is_mac_none (mac_type s) = true ->
  verify_read_packet digest (s, w) = (st', Err e) ->
  e = ERR_PAD_LENGTH \/ e = ERR_PAD_BLOCK.
Proof.
  intros Hnone. unfold verify_read_packet.
  rewrite (bind_exec get_stream _ (s, w) (s, w) s eq_refl).
  cbv zeta. rewrite Hnone. cbn [negb].
  repeat match goal with
         | |- context [if ?b then _ else _] => destruct b
         end;
    intros E; inversion E; auto.
Qed.

(** How a receive that fails went: the part that failed and the state it
    failed in, which has the configuration the stream had. *)
Lemma recv_failure_cases (s : STREAM) w st' e :
  ssh_stream_recv_packet crypt digest (s, w) = (st', Err e) ->
  recv_first_block crypt (s, w) = (st', Err e)
  \/ exists s1 w1,
       config s1 = config s
       /\ (recv_remainder (s1, w1) = (st', Err e)
           \/ (exists pack_len,
                  decrypt_remainder crypt pack_len (s1, w1) = (st', Err e))
           \/ verify_read_packet digest (s1, w1) = (st', Err e)).
Proof.
  unfold ssh_stream_recv_packet, recv_rest. intros H.
  pose proof (keeps_recv_first_block crypt (s, w)) as K1.
  destruct (recv_first_block crypt (s, w)) as [[s1 w1] [[] | e1]] eqn:E1.
  2: { rewrite (bind_exec_err _ _ _ _ _ E1) in H. left. exact H. }
  rewrite (bind_exec _ _ _ _ _ E1) in H. cbn [fst] in K1.
  rewrite (bind_exec get_stream _ (s1, w1) (s1, w1) s1 eq_refl) in H.
  cbv zeta in H. right.
  pose proof (keeps_recv_remainder (s1, w1)) as K2.
  destruct (recv_remainder (s1, w1)) as [[s2 w2] [[] | e2]] eqn:E2.
  2: { rewrite (bind_exec_err _ _ _ _ _ E2) in H.
       exists s1, w1. split; [exact K1 |]. left. rewrite E2. exact H. }
  rewrite (bind_exec _ _ _ _ _ E2) in H. cbn [fst] in K2.
  set (pack_len := ssh_buf_get_u32 (data (pack s1))) in *.
  pose proof (keeps_decrypt_remainder crypt pack_len (s2, w2)) as K3.
  destruct (decrypt_remainder crypt pack_len (s2, w2))
    as [[s3 w3] [[] | e3]] eqn:E3.
  2: { rewrite (bind_exec_err _ _ _ _ _ E3) in H.
       exists s2, w2. split; [congruence |]. right. left.
       exists pack_len. rewrite E3. exact H. }
  rewrite (bind_exec _ _ _ _ _ E3) in H. cbn [fst] in K3.
  destruct (verify_read_packet digest (s3, w3)) as [[s4 w4] [[] | e4]] eqn:E4.
  - rewrite (bind_exec _ _ _ _ _ E4) in H. discriminate H.
  - rewrite (bind_exec_err _ _ _ _ _ E4) in H.
    exists s3, w3. split; [congruence |]. right. right. rewrite E4. exact H.
Qed.

(** X25.  What a failed receive tells.  On a stream with a block length
    of 0 or 8..252: when [ssh_stream_recv_packet] fails in the cipher, a
    cipher is installed; when it fails in the MAC, computed or compared, a
    MAC is installed; and it never fails in [ssh_buf_remove_data], whose
    failure branch in [stream_recv_data] is never taken. *)
Theorem recv_error_attribution (st : STATE) e :
  block_len_ok (fst st) ->
  snd (ssh_stream_recv_packet crypt digest st) = Err e ->
  (e = ERR_CIPHER -> is_cipher_none (cipher_type (fst st)) = false)
  /\ (e = ERR_MAC \/ e = ERR_BAD_MAC ->
      is_mac_none (mac_type (fst st)) = false)
  /\ e <> ERR_BUFFER.
Proof.
  destruct st as [s w]. cbn [fst]. intros _.
  destruct (ssh_stream_recv_packet crypt digest (s, w)) as [st' r] eqn:Hrecv.
  cbn [snd]. intros ->.
  split; [| split].
  - intros ->. destruct (is_cipher_none (cipher_type s)) eqn:Hnone;
      [exfalso | reflexivity].
    destruct (recv_failure_cases s w st' _ Hrecv)
      as [H | (s1 & w1 & Hcfg & [H | [[pl H] | H]])].
    + exact (recv_first_block_plain_error s w st' Hnone H).
    + refine (never_recv_remainder ERR_CIPHER _ _ _ _ H); discriminate.
    + destruct (config_fields _ _ Hcfg) as (_ & Hct & _).
      refine (decrypt_remainder_plain_error s1 w1 pl st' _ _ H).
      now rewrite Hct.
    + refine (never_verify_read_packet ERR_CIPHER _ _ _ _ _ _ H);
        discriminate.
  - intros He. destruct (is_mac_none (mac_type s)) eqn:Hnone;
      [exfalso | reflexivity].
    destruct (recv_failure_cases s w st' _ Hrecv)
      as [H | (s1 & w1 & Hcfg & [H | [[pl H] | H]])].
    + refine (never_recv_first_block e _ _ _ _ H);
        destruct He as [-> | ->]; discriminate.
    + refine (never_recv_remainder e _ _ _ _ H);
        destruct He as [-> | ->]; discriminate.
    + refine (never_decrypt_remainder crypt e pl _ _ _ H);
        destruct He as [-> | ->]; discriminate.
    + destruct (config_fields _ _ Hcfg) as (_ & _ & _ & Hmt & _).
      destruct (verify_read_packet_no_mac_error s1 w1 st' e
                  ltac:(now rewrite Hmt) H) as [-> | ->];
        destruct He as [E | E]; discriminate E.
  - intros ->.
    destruct (recv_failure_cases s w st' _ Hrecv)
      as [H | (s1 & w1 & Hcfg & [H | [[pl H] | H]])].
    + refine (never_recv_first_block ERR_BUFFER _ _ _ _ H); discriminate.
    + refine (never_recv_remainder ERR_BUFFER _ _ _ _ H); discriminate.
    + refine (never_decrypt_remainder crypt ERR_BUFFER pl _ _ _ H);
        discriminate.
    + refine (never_verify_read_packet ERR_BUFFER _ _ _ _ _ _ H);
        discriminate.
Qed.

(** ** Input that ends early *)

Lemma recv_first_block_facts (r : STREAM) wr s1 w1 :
  cipher_keeps_length crypt ->
  block_len_ok r ->
  net_buffer_ok r ->
  recv_first_block crypt (r, wr) = ((s1, w1), Ok tt) ->
  let fbl := Z.to_nat (recv_block_len (cipher_block_len r)) in
  (fbl <= length (pending r wr))%nat
  /\ pending s1 w1 = skipn fbl (pending r wr)
  /\ net_buffer_ok s1
  /\ config s1 = config r.
Proof.
  intros Hcl Hblk Hnb Hfb fbl.
  pose proof (recv_block_len_range r Hblk) as Hb.
  assert (Hu32 : u32 (recv_block_len (cipher_block_len r))
                 = recv_block_len (cipher_block_len r))
    by (apply u32_small; lia).
  assert (Hlen1 : (fbl <= length (pending r wr))%nat).
  { destruct (Nat.le_gt_cases fbl (length (pending r wr))) as [H | H];
      [exact H |].
    destruct (recv_first_block_short r wr Hnb) as [st' E].
    - rewrite Hu32. exact H.
    - rewrite E in Hfb. discriminate Hfb. }
  split; [exact Hlen1 |].
  destruct (is_cipher_none (cipher_type r)) eqn:Hnone.
  - destruct (recv_first_block_plain crypt r wr Hnone Hnb) as
      (s1' & w1' & Hrun1 & _ & Hpend1 & Hnb1 & Hcfg1 & _).
    { rewrite Hu32. exact Hlen1. }
    rewrite Hfb in Hrun1. inversion Hrun1; subst s1' w1'.
    rewrite Hu32 in Hpend1. now repeat split.
  - destruct (recv_first_block_cipher_inv r wr (s1, w1) Hnone Hnb) as
      (d & d1 & out & Hd & Hc1); [now rewrite Hu32 | exact Hfb |].
    destruct (recv_first_block_cipher crypt r wr d d1 out Hnone Hnb) as
      (s1' & w1' & Hrun1 & _ & _ & Hpend1 & Hnb1 & Hcfg1 & _).
    { rewrite Hu32. exact Hlen1. }
    { exact Hd. }
    { exact Hc1. }
    { rewrite (Hcl _ _ _ _ Hc1), length_firstn, Hu32. fold fbl. lia. }
    rewrite Hfb in Hrun1. inversion Hrun1; subst s1' w1'.
    rewrite Hu32 in Hpend1. now repeat split.
Qed.

(** Receiving from input that ends too early. *)
Lemma recv_short_input (r : STREAM) wr :
  cipher_keeps_length crypt ->
  block_len_ok r ->
  net_buffer_ok r ->
  let block := recv_block_len (cipher_block_len r) in
  let outcome := snd (ssh_stream_recv_packet crypt digest (r, wr)) in
  (Z.of_nat (length (pending r wr)) < block -> outcome = Err ERR_IO)
  /\ (forall s1 w1,
        recv_first_block crypt (r, wr) = ((s1, w1), Ok tt) ->
        let pack_len := ssh_buf_get_u32 (data (pack s1)) in
        let remainder_len := u32 (pack_len + mac_len r - block + 4) in
        1 <= pack_len <= 65536 ->
        Z.of_nat (length (pending r wr)) < block + remainder_len ->
        outcome = Err ERR_IO).
Proof.
  intros Hcl Hblk Hnb block outcome. subst outcome.
  pose proof (recv_block_len_range r Hblk) as Hb. fold block in Hb.
  assert (Hu32 : u32 block = block) by (apply u32_small; lia).
  split.
  - intros Hshort.
    destruct (recv_first_block_short r wr Hnb) as [st' E].
    + fold block. rewrite Hu32. lia.
    + unfold ssh_stream_recv_packet.
      now rewrite (bind_exec_err _ _ _ _ _ E).
  - intros s1 w1 Hfb pack_len remainder_len Hrange Hshort.
    destruct (recv_first_block_facts r wr s1 w1 Hcl Hblk Hnb Hfb)
      as (Hlen1 & Hpend1 & Hnb1 & Hcfg1).
    fold block in Hlen1, Hpend1.
    destruct (config_fields _ _ Hcfg1) as (_ & _ & Hcb1 & _ & Hml1 & _).
    destruct (recv_remainder_short s1 w1) as [st' E];
      [fold pack_len; lia | fold pack_len; lia | exact Hnb1 | |].
    + fold pack_len. rewrite Hml1, Hcb1. fold block. rewrite Hu32.
      fold remainder_len. rewrite Hpend1, length_skipn.
      assert (0 <= remainder_len)
        by (unfold remainder_len, u32; apply Z.mod_pos_bound; lia).
      lia.
    + unfold ssh_stream_recv_packet, recv_rest.
      rewrite (bind_exec _ _ _ _ _ Hfb).
      rewrite (bind_exec _ _ _ _ _
                 (eq_refl : get_stream (s1, w1) = ((s1, w1), Ok s1))).
      cbv zeta. now rewrite (bind_exec_err _ _ _ _ _ E).
Qed.

(** X12.  Input that ends before the packet does gives the I/O error: when
    fewer octets are pending than the first block, and, once the first
    block is read and [pack_len] is in 1..65536, when fewer are pending
    than the first block and the
    [remainder_len = pack_len + mac_len - first_block_len + 4] (a
    [uint32_t]) octets the code asks for next. *)
Theorem recv_truncated_input (r : STREAM) wr :
  cipher_keeps_length crypt ->
  block_len_ok r ->
  net_buffer_ok r ->
  let block := recv_block_len (cipher_block_len r) in
  let outcome := snd (ssh_stream_recv_packet crypt digest (r, wr)) in
  (Z.of_nat (length (pending r wr)) < block -> outcome = Err ERR_IO)
  /\ (forall s1 w1,
        recv_first_block crypt (r, wr) = ((s1, w1), Ok tt) ->
        let pack_len := ssh_buf_get_u32 (data (pack s1)) in
        let remainder_len := u32 (pack_len + mac_len r - block + 4) in
        1 <= pack_len <= 65536 ->
        Z.of_nat (length (pending r wr)) < block + remainder_len ->
        outcome = Err ERR_IO).
Proof. exact (recv_short_input r wr). Qed.

(** X13.  The size check does not catch a length field that is too small
    for the first block: with [1 <= pack_len] and
    [pack_len + 4 + mac_len < first_block_len] the [uint32_t] remainder
    wraps, the code asks for [2^32 - (first_block_len - pack_len - 4 -
    mac_len)] more octets (their allocation is taken to succeed), and the
    receive ends with the I/O error, not the packet-size error, unless
    4 GiB of input are pending. *)
Theorem recv_short_length_wraps (r : STREAM) wr s1 w1 :
  cipher_keeps_length crypt ->
  block_len_ok r ->
  0 <= mac_len r ->
  net_buffer_ok r ->
  recv_first_block crypt (r, wr) = ((s1, w1), Ok tt) ->
  let block := recv_block_len (cipher_block_len r) in
  let pack_len := ssh_buf_get_u32 (data (pack s1)) in
  1 <= pack_len ->
  pack_len + 4 + mac_len r < block ->
  u32 (pack_len + mac_len r - block + 4)
  = 4294967296 - (block - pack_len - 4 - mac_len r)
  /\ (Z.of_nat (length (pending r wr)) < 4294967296 ->
      snd (ssh_stream_recv_packet crypt digest (r, wr)) = Err ERR_IO).
Proof.
  intros Hcl Hblk Hml Hnb Hfb block pack_len Hpos Hsmall.
  pose proof (recv_block_len_range r Hblk) as Hb. fold block in Hb.
  assert (Hrem : u32 (pack_len + mac_len r - block + 4)
                 = 4294967296 - (block - pack_len - 4 - mac_len r)).
  { unfold u32.
    replace (pack_len + mac_len r - block + 4)
      with ((4294967296 - (block - pack_len - 4 - mac_len r))
            + (-1) * 4294967296) by lia.
    rewrite Z.mod_add by lia. apply Z.mod_small. lia. }
  split; [exact Hrem |].
  intros Hshort.
  destruct (recv_short_input r wr Hcl Hblk Hnb) as (_ & H).
  apply (H s1 w1 Hfb).
  - fold pack_len. lia.
  - fold pack_len. fold block. rewrite Hrem. lia.
Qed.

(* ------------------------------------------------------------------ *)
(** ** Packets one after another *)

Lemma mac_len_ok_config (a b : STREAM) :
  config a = config b -> mac_len_ok digest a -> mac_len_ok digest b.
Proof.
  intros H. destruct (config_fields _ _ H) as (_ & _ & _ & Hmt & Hml & Hmc).
  unfold mac_len_ok. now rewrite Hmt, Hml, Hmc.
Qed.

Lemma config_set_seq_num (a b : STREAM) n :
  config a = config b -> config (set_seq_num n a) = config (set_seq_num n b).
Proof.
  intros H. destruct (config_fields _ _ H) as (_ & Hct & Hcb & Hmt & Hml & Hmc).
  unfold config. cbn [set_seq_num seq_num cipher_type cipher_block_len mac_type
    mac_len mac_ctx]. congruence.
Qed.

Lemma send_all_tx (payloads : list (list Z)) (s : STREAM) w s' w' :
  cipher_keeps_length crypt ->
  mac_len_ok digest s ->
  send_all crypt digest payloads (s, w) = ((s', w'), Ok tt) ->
  exists wire, net_tx w' = net_tx w ++ wire.
Proof.
  intros Hcl. revert s w. induction payloads as [| p ps IH]; intros s w Hmac H.
  - inversion H; subst. exists []. now rewrite app_nil_r.
  - cbn [send_all] in H. apply bind_ok in H.
    destruct H as ([] & [s1 w1] & Hsend & Hrest).
    destruct (send_payload_ok crypt digest s w s1 w1 p Hcl Hmac Hsend)
      as (body & tag & _ & _ & _ & _ & _ & _ & Hcfg & _ & Htx & _).
    destruct (IH s1 w1) as [wire Hw]; [| exact Hrest |].
    + apply (mac_len_ok_config (set_seq_num (u32 (seq_num s + 1)) s)); [easy |].
      exact Hmac.
    + exists ((body ++ tag) ++ wire). now rewrite Hw, Htx, <- !app_assoc.
Qed.

Lemma app_eq_length (a a' b b' : list Z) :
  a ++ b = a' ++ b' -> length b = length b' -> a = a' /\ b = b'.
Proof.
  intros H Hl.
  assert (Hla : length a = length a').
  { apply (f_equal (@length Z)) in H. rewrite !length_app in H. lia. }
  split.
  - apply (f_equal (firstn (length a))) in H.
    rewrite firstn_app_exact in H by reflexivity.
    rewrite Hla, firstn_app_exact in H by reflexivity. exact H.
  - apply (f_equal (skipn (length a))) in H.
    rewrite skipn_app_exact in H by reflexivity.
    rewrite Hla, skipn_app_exact in H by reflexivity. exact H.
Qed.

Lemma in_step_matching (R : CIPHER_CTX -> CIPHER_CTX -> Prop) (s r : STREAM) :
  cipher_in_step crypt (Z.to_nat (recv_block_len (cipher_block_len s))) R ->
  streams_in_step R s r ->
  streams_match crypt s r.
Proof.
  intros Hstep [Hcfg Hctx]. split; [exact Hcfg |].
  intros Hnone e plain e' c He Hlen Hcrypt.
  destruct (Hctx Hnone) as (e0 & d & He0 & Hd & HR).
  assert (e0 = e) by congruence. subst e0.
  destruct (Hstep e d plain e' c HR Hlen Hcrypt) as (d1 & d2 & H1 & H2 & _).
  now exists d, d1, d2.
Qed.

(** One packet from a sender to a receiver in step with it: the receive
    succeeds, exposes the payload, leaves what followed the packet
    pending, and the two streams are in step again. *)
Lemma packet_keeps_in_step (R : CIPHER_CTX -> CIPHER_CTX -> Prop)
    (s r : STREAM) w wr payload s1 w1 rest :
  cipher_keeps_length crypt ->
  mac_len_ok digest s ->
  block_len_ok s ->
  cipher_in_step crypt (Z.to_nat (recv_block_len (cipher_block_len s))) R ->
  streams_in_step R s r ->
  net_buffer_ok r ->
  1 + Z.of_nat (length payload) + pad_len_of payload (cipher_block_len s)
    <= 65536 ->
  send_payload crypt digest payload (s, w) = ((s1, w1), Ok tt) ->
  pending r wr = skipn (length (net_tx w)) (net_tx w1) ++ rest ->
  exists r1 wr1,
    ssh_stream_recv_packet crypt digest (r, wr) = ((r1, wr1), Ok tt)
    /\ recv_payload r1 = payload
    /\ pending r1 wr1 = rest
    /\ streams_in_step R s1 r1
    /\ net_buffer_ok r1
    /\ config s1 = config (set_seq_num (u32 (seq_num s + 1)) s).
Proof.
  intros Hcl Hmac Hblk Hstep Hin Hnb Hmax Hsend Hpend.
  pose proof (in_step_matching R s r Hstep Hin) as Hmatch.
  destruct (roundtrip_general crypt digest s r w wr payload s1 w1 rest
              Hcl Hmac Hblk Hmatch Hnb Hmax Hsend Hpend)
    as (r1 & wr1 & Hrecv & Hpay & Hrest & _).
  destruct Hin as [Hcfg Hctx].
  destruct (config_fields _ _ Hcfg) as (Hsq & Hct & Hcb & Hmt & Hml & Hmc).
  assert (Hblk_r : block_len_ok r) by (unfold block_len_ok; now rewrite Hcb).
  pose proof Hmac as (Hmlr & _ & _). rewrite <- Hml in Hmlr.
  destruct (send_payload_ok crypt digest s w s1 w1 payload Hcl Hmac Hsend)
    as (body & tag & Hbody & _ & _ & _ & Hlb & Hlt & Hcfg1 & _ & Htx & _).
  rewrite Htx, skipn_app_exact in Hpend by reflexivity.
  exists r1, wr1. split; [exact Hrecv |]. split; [exact Hpay |].
  split; [exact Hrest |].
  destruct (is_cipher_none (cipher_type s)) eqn:Hnone.
  - rewrite <- Hct in Hnone.
    destruct (recv_ok_inv_plain r wr r1 wr1 Hnone Hblk_r Hmlr Hnb Hrecv)
      as (_ & _ & _ & _ & _ & _ & _ & _ & _ & _ & _ & Hcfgr & Hnb1).
    split; [| split; [exact Hnb1 | exact Hcfg1]].
    split.
    + rewrite Hcfgr, Hcfg1, Hsq. now apply config_set_seq_num.
    + destruct (config_fields _ _ Hcfg1) as (_ & Hct1 & _).
      cbn [set_seq_num cipher_type] in Hct1. rewrite Hct1, <- Hct, Hnone.
      discriminate.
  - assert (Hnone_r : is_cipher_none (cipher_type r) = false) by congruence.
    destruct (recv_ok_inv_cipher r wr r1 wr1 Hnone_r Hcl Hblk_r Hmlr Hnb Hrecv)
      as (body' & tag' & plain' & d & d1 & d2 & Hpend' & Hlt' & Hlp' & _ & Hd
          & Hc1 & Hc2 & Hctx1 & _ & _ & _ & _ & _ & Hcfgr & Hnb1).
    split; [| split; [exact Hnb1 | exact Hcfg1]].
    split; [rewrite Hcfgr, Hcfg1, Hsq; now apply config_set_seq_num |].
    intros _.
    destruct Hbody as (c & c' & Hc & Hcrypt & Hc').
    destruct (Hctx eq_refl) as (e0 & d0 & He0 & Hd0 & HR).
    assert (e0 = c) by congruence. assert (d0 = d) by congruence. subst e0 d0.
    (* the ciphertext the receiver worked on is the one that was sent *)
    rewrite Hrest, Hpend in Hpend'.
    rewrite (app_assoc body' tag' rest) in Hpend'. apply app_inv_tail in Hpend'.
    destruct (app_eq_length _ _ _ _ Hpend') as [Hb _];
      [rewrite Hlt, Hlt'; now rewrite Hml |].
    subst body'.
    rewrite Hcb in Hc1, Hc2.
    set (fbl := Z.to_nat (recv_block_len (cipher_block_len s))) in *.
    set (pad := pad_len_of payload (cipher_block_len s)) in *.
    set (P := frame payload pad (fst (pad_fill false w (Z.to_nat pad)))) in *.
    assert (HfP : (fbl <= length P)%nat).
    { pose proof (calc_pad_len_range (u32 (Z.of_nat (5 + length payload)))
                    (u8 (cipher_block_len s))) as Hpr.
      fold (pad_len_of payload (cipher_block_len s)) in Hpr. fold pad in Hpr.
      assert (Hcbl : 0 <= cipher_block_len s <= 252)
        by (destruct Hblk as [H | H]; lia).
      destruct (pad_len_of_spec payload (cipher_block_len s) Hcbl ltac:(lia))
        as (_ & Hrange & Hmod).
      fold pad in Hrange, Hmod.
      rewrite <- (recv_block_len_max s Hblk) in Hmod.
      pose proof (recv_block_len_range s Hblk) as Hb.
      assert (Hpos : 0 < Z.of_nat (length payload) + 5 + pad) by lia.
      pose proof (block_divides_length _ _ (proj1 Hb) Hpos Hmod) as Hge.
      unfold P. rewrite frame_length, pad_fill_length. unfold fbl. lia. }
    destruct (Hstep c d P c' body HR HfP Hcrypt) as (d1s & d2s & H1s & H2s & HRs).
    assert (d1s = d1) by congruence. subst d1s.
    assert (d2s = d2) by congruence. subst d2s.
    exists c', d2. now repeat split.
Qed.

Lemma packets_in_order_general (R : CIPHER_CTX -> CIPHER_CTX -> Prop)
    (payloads : list (list Z)) :
  cipher_keeps_length crypt ->
  forall (s r : STREAM) w wr s' w' rest,
    mac_len_ok digest s ->
    block_len_ok s ->
    cipher_in_step crypt (Z.to_nat (recv_block_len (cipher_block_len s))) R ->
    streams_in_step R s r ->
    net_buffer_ok r ->
    Forall (fun payload =>
              1 + Z.of_nat (length payload)
              + pad_len_of payload (cipher_block_len s) <= 65536) payloads ->
    send_all crypt digest payloads (s, w) = ((s', w'), Ok tt) ->
    pending r wr = skipn (length (net_tx w)) (net_tx w') ++ rest ->
    exists r' wr',
      recv_all crypt digest (length payloads) (r, wr) = ((r', wr'), Ok payloads)
      /\ pending r' wr' = rest
      /\ streams_in_step R s' r'
      /\ u32 (seq_num s') = u32 (seq_num s + Z.of_nat (length payloads)).
Proof.
  intros Hcl. induction payloads as [| p ps IH];
    intros s r w wr s' w' rest Hmac Hblk Hstep Hin Hnb Hall Hsend Hpend.
  - inversion Hsend; subst s' w'. rewrite skipn_all in Hpend.
    cbn [app] in Hpend. exists r, wr. cbn [recv_all length].
    split; [reflexivity |]. split; [exact Hpend |]. split; [exact Hin |].
    now rewrite Z.add_0_r.
  - cbn [send_all] in Hsend. apply bind_ok in Hsend.
    destruct Hsend as ([] & [s1 w1] & Hsend1 & Hrest).
    inversion Hall as [| p0 ps0 Hp Hps]; subst p0 ps0.
    destruct (send_payload_ok crypt digest s w s1 w1 p Hcl Hmac Hsend1)
      as (body & tag & _ & _ & _ & _ & _ & _ & Hcfg1 & _ & Htx1 & _).
    assert (Hmac1 : mac_len_ok digest s1).
    { apply (mac_len_ok_config (set_seq_num (u32 (seq_num s + 1)) s));
        [easy | exact Hmac]. }
    destruct (send_all_tx ps s1 w1 s' w' Hcl Hmac1 Hrest) as [wires Hw].
    destruct (config_fields _ _ Hcfg1) as (Hsq1 & _ & Hcb1 & _).
    cbn [set_seq_num seq_num cipher_block_len] in Hsq1, Hcb1.
    destruct (packet_keeps_in_step R s r w wr p s1 w1 (wires ++ rest)
                Hcl Hmac Hblk Hstep Hin Hnb Hp Hsend1)
      as (r1 & wr1 & Hrecv & Hpay & Hpend1 & Hin1 & Hnb1 & _).
    { rewrite Hpend, Hw, Htx1.
      rewrite <- (app_assoc (net_tx w)).
      rewrite !skipn_app_exact by reflexivity.
      now rewrite <- !app_assoc. }
    destruct (IH s1 r1 w1 wr1 s' w' rest) as
      (r' & wr' & Hrun & Hpend' & Hin' & Hsq'); try assumption.
    + unfold block_len_ok. now rewrite Hcb1.
    + now rewrite Hcb1.
    + now rewrite Hcb1.
    + rewrite Hpend1, Hw. now rewrite skipn_app_exact by reflexivity.
    + exists r', wr'. cbn [recv_all length].
      rewrite (bind_exec _ _ _ _ _ Hrecv).
      rewrite (bind_exec _ _ _ _ _
                 (eq_refl : get_stream (r1, wr1) = ((r1, wr1), Ok r1))).
      rewrite (bind_exec _ _ _ _ _ Hrun). unfold ret. rewrite Hpay.
      split; [reflexivity |]. split; [exact Hpend' |]. split; [exact Hin' |].
      rewrite Hsq', Hsq1. unfold u32.
      rewrite Zplus_mod_idemp_l. f_equal. lia.
Qed.

(** X14.  Packets arrive in order.  A sender and a receiver in step (same
    [config], cipher contexts that stay in step) on which a list of
    payloads, each within the receiver's size bound, is sent one packet
    after the other: the receiver, handed the octets written, receives as
    many packets, exposes the payloads in the order sent, leaves what
    followed them pending, and both streams have counted the packets
    (modulo 2^32) and are in step again. *)
Theorem packets_arrive_in_order (R : CIPHER_CTX -> CIPHER_CTX -> Prop)
    (payloads : list (list Z)) (s r : STREAM) w wr s' w' rest :
  cipher_keeps_length crypt ->
  mac_len_ok digest s ->
  block_len_ok s ->
  cipher_in_step crypt (Z.to_nat (recv_block_len (cipher_block_len s))) R ->
  streams_in_step R s r ->
  net_buffer_ok r ->
  Forall (fun payload =>
            1 + Z.of_nat (length payload)
            + pad_len_of payload (cipher_block_len s) <= 65536) payloads ->
  send_all crypt digest payloads (s, w) = ((s', w'), Ok tt) ->
  pending r wr = skipn (length (net_tx w)) (net_tx w') ++ rest ->
  exists r' wr',
    recv_all crypt digest (length payloads) (r, wr) = ((r', wr'), Ok payloads)
    /\ pending r' wr' = rest
    /\ streams_in_step R s' r'
    /\ u32 (seq_num s') = u32 (seq_num s + Z.of_nat (length payloads)).
Proof.
  intros Hcl. now apply packets_in_order_general.
Qed.

(* ------------------------------------------------------------------ *)
(** ** Installing keys *)

Section KeyInstall.

Variable SSH_CIPHER_DIRECTION : Type.
Variable ssh_cipher_get_block_len : SSH_CIPHER_TYPE -> Z.
Variable ssh_cipher_new :
  SSH_CIPHER_TYPE -> SSH_CIPHER_DIRECTION -> list Z -> list Z -> option CIPHER_CTX.
Variable ssh_mac_get_len : SSH_MAC_TYPE -> Z.
Variable ssh_mac_new : SSH_MAC_TYPE -> list Z -> option MAC_CTX.

(** X15.  Installing keys touches nothing but its own three fields:
    whether they succeed or fail, [ssh_stream_set_cipher] and
    [ssh_stream_set_mac] keep the sequence number and the three buffers
    (unread read-ahead input included); the first keeps the MAC type,
    length and context, the second the cipher type, block length and
    context. *)
Theorem key_install_keeps_the_rest (s : STREAM) ctype dir iv key mtype mkey :
  let sc := fst (ssh_stream_set_cipher ssh_cipher_get_block_len ssh_cipher_new
                   ctype dir iv key s) in
  let sm := fst (ssh_stream_set_mac ssh_mac_get_len ssh_mac_new mtype mkey s) in
  (seq_num sc = seq_num s
   /\ pack sc = pack s /\ pack_enc sc = pack_enc s /\ net_buffer sc = net_buffer s
   /\ mac_type sc = mac_type s /\ mac_len sc = mac_len s /\ mac_ctx sc = mac_ctx s)
  /\ (seq_num sm = seq_num s
      /\ pack sm = pack s /\ pack_enc sm = pack_enc s
      /\ net_buffer sm = net_buffer s
      /\ cipher_type sm = cipher_type s
      /\ cipher_block_len sm = cipher_block_len s
      /\ cipher_ctx sm = cipher_ctx s).
Proof.
  unfold ssh_stream_set_cipher, ssh_stream_set_mac. cbv zeta.
  destruct (ssh_cipher_get_block_len ctype <? 0);
    [| destruct (ssh_cipher_new ctype dir iv key)];
    (destruct (ssh_mac_get_len mtype <? 0);
     [| destruct (ssh_mac_new mtype mkey)]);
    cbn; repeat split.
Qed.

(** X16.  [ssh_stream_set_cipher] returns 0 exactly when the block length
    of the algorithm is known (not negative) and the context is made, and
    then the stream has the new type, block length and context.  When the
    block length is unknown the stream is untouched; when the context
    cannot be made the stream keeps the type and block length it had but
    has lost its context.  [ssh_stream_set_mac] does the same with the MAC
    length and the MAC context. *)
Theorem key_install_outcome (s : STREAM) ctype dir iv key mtype mkey :
  let out := ssh_stream_set_cipher ssh_cipher_get_block_len ssh_cipher_new
               ctype dir iv key s in
  let block := ssh_cipher_get_block_len ctype in
  let outm := ssh_stream_set_mac ssh_mac_get_len ssh_mac_new mtype mkey s in
  let mlen := ssh_mac_get_len mtype in
  ((snd out = 0 \/ snd out = -1)
   /\ (snd out = 0 <->
       0 <= block /\ ssh_cipher_new ctype dir iv key <> None)
   /\ (snd out = 0 ->
       cipher_type (fst out) = ctype
       /\ cipher_block_len (fst out) = block
       /\ cipher_ctx (fst out) = ssh_cipher_new ctype dir iv key)
   /\ (block < 0 -> fst out = s)
   /\ (0 <= block -> ssh_cipher_new ctype dir iv key = None ->
       cipher_type (fst out) = cipher_type s
       /\ cipher_block_len (fst out) = cipher_block_len s
       /\ cipher_ctx (fst out) = None))
  /\ ((snd outm = 0 \/ snd outm = -1)
      /\ (snd outm = 0 <-> 0 <= mlen /\ ssh_mac_new mtype mkey <> None)
      /\ (snd outm = 0 ->
          mac_type (fst outm) = mtype
          /\ mac_len (fst outm) = mlen
          /\ mac_ctx (fst outm) = ssh_mac_new mtype mkey)
      /\ (mlen < 0 -> fst outm = s)
      /\ (0 <= mlen -> ssh_mac_new mtype mkey = None ->
          mac_type (fst outm) = mac_type s
          /\ mac_len (fst outm) = mac_len s
          /\ mac_ctx (fst outm) = None)).
Proof.
  unfold ssh_stream_set_cipher, ssh_stream_set_mac. cbv zeta. split.
  - destruct (Z.ltb_spec (ssh_cipher_get_block_len ctype) 0) as [Hneg | Hpos].
    + cbn [fst snd]. intuition (try congruence; try lia).
    + destruct (ssh_cipher_new ctype dir iv key) as [c |]; cbn;
        intuition (try congruence; try lia).
  - destruct (Z.ltb_spec (ssh_mac_get_len mtype) 0) as [Hneg | Hpos].
    + cbn [fst snd]. intuition (try congruence; try lia).
    + destruct (ssh_mac_new mtype mkey) as [c |]; cbn;
        intuition (try congruence; try lia).
Qed.

(** X17.  The two installations commute: cipher first or MAC first, the
    stream is the same afterwards and each call returns what it returns
    in the other order. *)
Theorem set_cipher_set_mac_commute (s : STREAM) ctype dir iv key mtype mkey :
  let c1 := ssh_stream_set_cipher ssh_cipher_get_block_len ssh_cipher_new
              ctype dir iv key s in
  let m1 := ssh_stream_set_mac ssh_mac_get_len ssh_mac_new
              mtype mkey (fst c1) in
  let m2 := ssh_stream_set_mac ssh_mac_get_len ssh_mac_new mtype mkey s in
  let c2 := ssh_stream_set_cipher ssh_cipher_get_block_len ssh_cipher_new
              ctype dir iv key (fst m2) in
  fst m1 = fst c2 /\ snd c1 = snd c2 /\ snd m1 = snd m2.
Proof.
  unfold ssh_stream_set_cipher, ssh_stream_set_mac. cbv zeta.
  destruct (ssh_cipher_get_block_len ctype <? 0);
    [| destruct (ssh_cipher_new ctype dir iv key)];
    (destruct (ssh_mac_get_len mtype <? 0);
     [| destruct (ssh_mac_new mtype mkey)]);
    cbn; repeat split.
Qed.

(** X18.  Keys installed, packets flow.  When a sender and a receiver at
    the same sequence number install the same cipher (one to encrypt, one
    to decrypt) and the same MAC with [ssh_stream_set_cipher] and
    [ssh_stream_set_mac], all four calls returning 0, and the collaborators
    keep their contracts (block length 0 or 8..252, contexts made from the
    same key and IV in step, MACs of the announced length), then every
    list of payloads within the size bound that is sent arrives, in
    order. *)
Theorem keyed_packets_arrive_in_order (R : CIPHER_CTX -> CIPHER_CTX -> Prop)
    (s0 s1 s r0 r1 r : STREAM) ctype enc dec iv key mtype mkey
    (payloads : list (list Z)) w wr s' w' rest :
  ssh_stream_set_cipher ssh_cipher_get_block_len ssh_cipher_new
    ctype enc iv key s0 = (s1, 0) ->
  ssh_stream_set_mac ssh_mac_get_len ssh_mac_new mtype mkey s1 = (s, 0) ->
  ssh_stream_set_cipher ssh_cipher_get_block_len ssh_cipher_new
    ctype dec iv key r0 = (r1, 0) ->
  ssh_stream_set_mac ssh_mac_get_len ssh_mac_new mtype mkey r1 = (r, 0) ->
  seq_num r0 = seq_num s0 ->
  net_buffer_ok r0 ->
  cipher_keeps_length crypt ->
  let block := ssh_cipher_get_block_len ctype in
  let mlen := ssh_mac_get_len mtype in
  (block = 0 \/ 8 <= block <= 252) ->
  cipher_in_step crypt (Z.to_nat (recv_block_len block)) R ->
  (forall e d,
      ssh_cipher_new ctype enc iv key = Some e ->
      ssh_cipher_new ctype dec iv key = Some d -> R e d) ->
  mlen < 2147483648 ->
  (is_mac_none mtype = true -> mlen = 0) ->
  (forall c x m,
      ssh_mac_new mtype mkey = Some c -> digest c x = Some m ->
      length m = Z.to_nat mlen) ->
  Forall (fun payload =>
            1 + Z.of_nat (length payload) + pad_len_of payload block <= 65536)
    payloads ->
  send_all crypt digest payloads (s, w) = ((s', w'), Ok tt) ->
  pending r wr = skipn (length (net_tx w)) (net_tx w') ++ rest ->
  exists r' wr',
    recv_all crypt digest (length payloads) (r, wr) = ((r', wr'), Ok payloads)
    /\ pending r' wr' = rest
    /\ u32 (seq_num s') = u32 (seq_num s0 + Z.of_nat (length payloads))
    /\ seq_num r' = seq_num s'.
Proof.
  intros Hsc Hsm Hrc Hrm Hseq Hnb Hcl block mlen Hblk Hstep HR Hmlt Hm0 Hmd
    Hall Hsend Hpend.
  unfold ssh_stream_set_cipher in Hsc, Hrc. cbv zeta in Hsc, Hrc.
  fold block in Hsc, Hrc.
  destruct (Z.ltb_spec block 0) as [Hneg | Hpos];
    [inversion Hsc |].
  destruct (ssh_cipher_new ctype enc iv key) as [e |] eqn:He;
    [| inversion Hsc].
  destruct (ssh_cipher_new ctype dec iv key) as [d |] eqn:Hd;
    [| inversion Hrc].
  inversion Hsc; subst s1. inversion Hrc; subst r1. clear Hsc Hrc.
  unfold ssh_stream_set_mac in Hsm, Hrm. cbv zeta in Hsm, Hrm.
  fold mlen in Hsm, Hrm.
  destruct (Z.ltb_spec mlen 0) as [Hmneg | Hmpos];
    [inversion Hsm |].
  destruct (ssh_mac_new mtype mkey) as [c |] eqn:Hc;
    [| inversion Hsm].
  inversion Hsm; subst s. inversion Hrm; subst r. clear Hsm Hrm.
  cbn [seq_num pack pack_enc net_buffer cipher_type cipher_block_len cipher_ctx
       mac_type mac_len mac_ctx] in *.
  match type of Hsend with
  | send_all _ _ _ (?x, _) = _ => set (s := x) in *
  end.
  match type of Hpend with
  | pending ?x _ = _ => set (r := x) in *
  end.
  destruct (packets_in_order_general R payloads Hcl s r w wr s' w' rest)
    as (r' & wr' & Hrun & Hrest & [Hcfg _] & Hsq); try assumption.
  - unfold mac_len_ok, s. cbn [mac_len mac_type mac_ctx].
    split; [split; [exact Hmpos | exact Hmlt] |]. split; [exact Hm0 |].
    intros c0 x m H0. inversion H0; subst c0. now apply Hmd.
  - split.
    + unfold config, r, s. cbn [seq_num cipher_type cipher_block_len mac_type
        mac_len mac_ctx]. now rewrite Hseq.
    + intros _. exists e, d. repeat split. now apply HR.
  - exists r', wr'. repeat split; try assumption.
    now apply config_seq_num.
Qed.

End KeyInstall.

End StreamProperties.

(* ------------------------------------------------------------------ *)
(** * Further properties of ssh/kex_dh.c *)

Lemma ssh_buf_append_data_contents (b : SSH_BUFFER) bytes :
  (len b <= length (data b))%nat ->
  contents (ssh_buf_append_data b bytes) = contents b ++ bytes
  /\ (len (ssh_buf_append_data b bytes)
      <= length (data (ssh_buf_append_data b bytes)))%nat.
Proof.
  intros H. unfold ssh_buf_append_data, ssh_buf_get_write_pointer, contents.
  cbn [data len].
  assert (Hl : length (firstn (len b) (data b)) = len b)
    by (rewrite length_firstn; lia).
  set (a := firstn (len b) (data b)) in *.
  replace (poke (len b) bytes (a ++ repeat 0 (length bytes)))
    with (a ++ bytes)
    by (rewrite <- Hl; symmetry; apply poke_end; now rewrite repeat_length).
  split.
  - apply firstn_all2. rewrite length_app, Hl. lia.
  - rewrite length_app, Hl. lia.
Qed.

Lemma ssh_buf_write_string_contents (b : SSH_BUFFER) bytes :
  (len b <= length (data b))%nat ->
  contents (ssh_buf_write_string b bytes) = contents b ++ KexDh.ssh_string bytes
  /\ (len (ssh_buf_write_string b bytes)
      <= length (data (ssh_buf_write_string b bytes)))%nat.
Proof.
  intros H. unfold ssh_buf_write_string, ssh_buf_write_data, ssh_buf_write_u32.
  destruct (ssh_buf_append_data_contents b
              (ssh_buf_set_u32 (Z.of_nat (length bytes))) H) as [H1 H2].
  destruct (ssh_buf_append_data_contents _ bytes H2) as [H3 H4].
  split; [| exact H4].
  rewrite H3, H1. unfold KexDh.ssh_string. now rewrite <- app_assoc.
Qed.

Section KexTable.

Import KexDhRun.
Import String.

(** X19 (the DH group table).  [kex_dh_get_algo] knows the two groups of
    the table and nothing else: for diffie-hellman-group1-sha1 and
    diffie-hellman-group14-sha1 it returns the entry of the table with that
    type, whose generator is 2 and whose modulus has 256 resp. 512
    hexadecimal digits (1024 resp. 2048 bits); for every other key exchange
    type it returns NULL. *)
Theorem kex_dh_get_algo_table (t : SSH_KEX_TYPE) :
  match kex_dh_get_algo t with
  | Some a =>
      type a = t /\ In a dh_algos /\ gen a = "2"%string
      /\ String.length (modulus a)
         = match t with SSH_KEX_DH_GROUP_1 => 256%nat | _ => 512%nat end
  | None => exists n, t = SSH_KEX_OTHER n
  end.
Proof.
  destruct t as [| | n].
  - vm_compute. repeat split; auto.
  - vm_compute. repeat split; auto.
  - cbn. now exists n.
Qed.

End KexTable.

Section KexRunProofs.

Import KexDhRun.

Context {ENV CRYPTO_DH SSH_BUF_READER SSH_HASH_TYPE SSH_PUBKEY_TYPE : Type}.
Context {collaborators :
           KEX_COLLABORATORS ENV CRYPTO_DH SSH_BUF_READER SSH_HASH_TYPE
             SSH_PUBKEY_TYPE}.

(** X20 (the KEXDH_INIT packet).  When the DH public value [e] is available
    and the connection hands out a packet buffer, the buffer handed to
    [ssh_conn_send_packet] holds what the buffer held before, followed by
    the octet 30 (SSH_MSG_KEXDH_INIT) and [e] as an SSH string (its length
    as a big-endian u32, then its octets); the result is 0 if the send
    returned a non-negative value and -1 otherwise. *)
Theorem kexdh_init_packet (dh : CRYPTO_DH) (conn c1 c2 : ENV)
    (e : list Z) (pack : SSH_BUFFER) :
  crypto_dh_get_pubkey dh conn = (c1, Some e) ->
  ssh_conn_new_packet c1 = (c2, Some pack) ->
  (len pack <= length (data pack))%nat ->
  exists sent,
    contents sent
    = contents pack ++ [30] ++ ssh_buf_set_u32 (Z.of_nat (length e)) ++ e
    /\ dh_kex_send_init_msg dh conn
       = (fst (ssh_conn_send_packet sent c2),
          if snd (ssh_conn_send_packet sent c2) <? 0 then -1 else 0).
Proof.
  intros Hpub Hnew Hwf. unfold dh_kex_send_init_msg. rewrite Hpub, Hnew.
  exists (ssh_buf_write_string (ssh_buf_write_u8 pack SSH_MSG_KEXDH_INIT) e).
  destruct (ssh_buf_append_data_contents pack [u8 SSH_MSG_KEXDH_INIT] Hwf)
    as [H1 H2].
  destruct (ssh_buf_write_string_contents
              (ssh_buf_write_u8 pack SSH_MSG_KEXDH_INIT) e H2) as [H3 _].
  split.
  - rewrite H3. unfold ssh_buf_write_u8. rewrite H1.
    rewrite <- app_assoc. reflexivity.
  - destruct (ssh_conn_send_packet _ c2) as [c3 rc]. cbn [fst snd].
    now destruct (rc <? 0).
Qed.

(** The KEXDH_INIT message is not sent when the public value or the packet
    buffer is missing. *)
Lemma dh_kex_send_init_msg_result (dh : CRYPTO_DH) (conn : ENV) :
  snd (dh_kex_send_init_msg dh conn) = 0 \/ snd (dh_kex_send_init_msg dh conn) = -1.
Proof.
  unfold dh_kex_send_init_msg.
  destruct (crypto_dh_get_pubkey dh conn) as [c1 [e |]]; [| now right].
  destruct (ssh_conn_new_packet c1) as [c2 [pack |]]; [| now right].
  destruct (ssh_conn_send_packet _ c2) as [c3 rc].
  destruct (rc <? 0); [now right | now left].
Qed.

(** Every way through [dh_kex_read_reply]: it returns -1, or it has read,
    computed and verified everything and returns what [ssh_kex_finish]
    returns. *)
Lemma dh_kex_read_reply_trace (dh : CRYPTO_DH) (conn : ENV)
    (kex : SSH_KEX SSH_HASH_TYPE SSH_PUBKEY_TYPE) :
  (exists c, dh_kex_read_reply dh conn kex = (c, -1))
  \/ exists K H c,
       reply_verified dh conn kex K H c
       /\ dh_kex_read_reply dh conn kex = ssh_kex_finish kex K H c.
Proof.
  unfold dh_kex_read_reply.
  destruct (ssh_conn_recv_packet_skip_ignore conn) as [c1 [pack |]] eqn:Hrecv;
    [| left; now eexists].
  destruct (ssh_packet_get_type pack =? SSH_MSG_KEXDH_REPLY) eqn:Hty;
    cbn [negb]; [| left; now eexists].
  apply Z.eqb_eq in Hty.
  destruct (ssh_buf_read_u8 pack) as [[t p1] |] eqn:Hu8;
    [| left; now eexists].
  destruct (ssh_buf_read_string p1) as [[K_S p2] |] eqn:Hks;
    [| left; now eexists].
  destruct (ssh_buf_read_string p2) as [[f p3] |] eqn:Hf;
    [| left; now eexists].
  destruct (ssh_buf_read_string p3) as [[sig p4] |] eqn:Hsig;
    [| left; now eexists].
  destruct (crypto_dh_compute_key dh f c1) as [c2 [K |]] eqn:HK;
    [| left; now eexists].
  destruct (crypto_dh_get_pubkey dh c2) as [c3 [e |]] eqn:He;
    [| left; now eexists].
  destruct (KexDh.dh_kex_hash _ _ _ K_S e f K _ _) as [H |] eqn:HH;
    [| left; now eexists].
  destruct (ssh_pubkey_verify_signature _ K_S sig H <? 0) eqn:Hver;
    [left; now eexists |].
  apply Z.ltb_ge in Hver.
  destruct (ssh_conn_check_server_identity K_S c3) as [c4 rc] eqn:Hid.
  destruct (rc <? 0) eqn:Hrc; [left; now eexists |].
  apply Z.ltb_ge in Hrc.
  right. exists K, H, c4. split; [| reflexivity].
  unfold reply_verified.
  exists c1, pack, t, p1, K_S, p2, f, p3, sig, p4, c2, c3, e, rc.
  repeat (split; [eassumption |]). exact Hrc.
Qed.

(** X21 (the checks behind a KEXDH_REPLY).  [dh_kex_read_reply] returns -1,
    or it returns what [ssh_kex_finish] returns for a shared secret [K] and
    an exchange hash [H] such that: the packet received is of type 31
    (SSH_MSG_KEXDH_REPLY) and holds the host key, the server's DH value and
    the signature; [K] is computed from that DH value, [H] is the exchange
    hash [dh_kex_hash] gives for these values, the signature verifies over
    [H] under the host key of the same packet, and the identity check of
    that host key passed.  [ssh_kex_finish] gets no other keys. *)
Theorem kexdh_reply_checks (dh : CRYPTO_DH) (conn : ENV)
    (kex : SSH_KEX SSH_HASH_TYPE SSH_PUBKEY_TYPE) :
  snd (dh_kex_read_reply dh conn kex) = -1
  \/ exists K H c,
       reply_verified dh conn kex K H c
       /\ dh_kex_read_reply dh conn kex = ssh_kex_finish kex K H c.
Proof.
  destruct (dh_kex_read_reply_trace dh conn kex) as [[c Hc] | Hok].
  - left. now rewrite Hc.
  - now right.
Qed.

(** X22 (the DH object and the result of a run).  [ssh_kex_dh_run] returns
    0 or -1.  For a key exchange type that is not in the table it returns
    -1 and leaves the connection as it is; when the DH object cannot be
    created it returns -1 with nothing sent or received.  Once the DH
    object exists it is freed on every path, as the last thing done. *)
Theorem kex_dh_run_outcome (conn : ENV)
    (kex : SSH_KEX SSH_HASH_TYPE SSH_PUBKEY_TYPE) :
  (snd (ssh_kex_dh_run conn kex) = 0 \/ snd (ssh_kex_dh_run conn kex) = -1)
  /\ (kex_dh_get_algo (kex_type kex) = None ->
      ssh_kex_dh_run conn kex = (conn, -1))
  /\ (forall dh_algo c0,
        kex_dh_get_algo (kex_type kex) = Some dh_algo ->
        crypto_dh_new (gen dh_algo) (modulus dh_algo) conn = (c0, None) ->
        ssh_kex_dh_run conn kex = (c0, -1))
  /\ (forall dh_algo c0 dh,
        kex_dh_get_algo (kex_type kex) = Some dh_algo ->
        crypto_dh_new (gen dh_algo) (modulus dh_algo) conn = (c0, Some dh) ->
        exists c, fst (ssh_kex_dh_run conn kex) = crypto_dh_free dh c).
Proof.
  unfold ssh_kex_dh_run.
  destruct (kex_dh_get_algo (kex_type kex)) as [algo |].
  2: { repeat split; try (now right); intros; discriminate. }
  destruct (crypto_dh_new (gen algo) (modulus algo) conn) as [c0 [dh |]] eqn:Hnew.
  2: { repeat split; try (now right).
       - intros E; discriminate E.
       - intros a c Ha Hc. injection Ha as <-. rewrite Hnew in Hc.
         now injection Hc as <-.
       - intros a c d Ha Hc. injection Ha as <-. rewrite Hnew in Hc.
         discriminate Hc. }
  assert (Hfree : forall out : ENV * Z,
             (snd out = 0 \/ snd out = -1)
             /\ (exists c, fst out = crypto_dh_free dh c) ->
             (snd out = 0 \/ snd out = -1)
             /\ (Some algo = None -> out = (conn, -1))
             /\ (forall dh_algo c1,
                   Some algo = Some dh_algo ->
                   crypto_dh_new (gen dh_algo) (modulus dh_algo) conn
                   = (c1, None) -> out = (c1, -1))
             /\ (forall dh_algo c1 dh1,
                   Some algo = Some dh_algo ->
                   crypto_dh_new (gen dh_algo) (modulus dh_algo) conn
                   = (c1, Some dh1) ->
                   exists c, fst out = crypto_dh_free dh1 c)).
  { intros out [Hrc Hc]. repeat split; [exact Hrc | | |].
    - intros E; discriminate E.
    - intros a c Ha Hn. injection Ha as <-. rewrite Hnew in Hn.
      discriminate Hn.
    - intros a c d Ha Hn. injection Ha as <-. rewrite Hnew in Hn.
      injection Hn as <- <-. exact Hc. }
  destruct (dh_kex_send_init_msg dh c0) as [c1 rc1].
  destruct (rc1 <? 0).
  { apply Hfree. split; [now right | now exists c1]. }
  destruct (dh_kex_read_reply dh c1 kex) as [c2 rc2].
  destruct (rc2 <? 0); apply Hfree.
  - split; [now right | now exists c2].
  - split; [now left | now exists c2].
Qed.

(** X23 (what a successful key exchange has checked).  When
    [ssh_kex_dh_run] returns 0, the key exchange type is one of the table,
    the DH object was created from the generator and modulus of that entry,
    the KEXDH_INIT message was sent, the reply passed every check of
    [dh_kex_read_reply] (type, fields, shared secret, exchange hash,
    signature over that hash, identity of the host key), [ssh_kex_finish]
    was given the shared secret and the exchange hash so obtained and
    returned a non-negative value, and the DH object was freed after it. *)
Theorem kex_dh_run_success (conn conn' : ENV)
    (kex : SSH_KEX SSH_HASH_TYPE SSH_PUBKEY_TYPE) :
  ssh_kex_dh_run conn kex = (conn', 0) ->
  exists dh_algo c0 dh c1 K H c2 c3 rc,
    kex_dh_get_algo (kex_type kex) = Some dh_algo
    /\ type dh_algo = kex_type kex
    /\ crypto_dh_new (gen dh_algo) (modulus dh_algo) conn = (c0, Some dh)
    /\ dh_kex_send_init_msg dh c0 = (c1, 0)
    /\ reply_verified dh c1 kex K H c2
    /\ ssh_kex_finish kex K H c2 = (c3, rc)
    /\ 0 <= rc
    /\ conn' = crypto_dh_free dh c3.
Proof.
  unfold ssh_kex_dh_run. intros Hrun.
  destruct (kex_dh_get_algo (kex_type kex)) as [algo |] eqn:Halgo;
    [| discriminate Hrun].
  assert (Hty : type algo = kex_type kex).
  { unfold kex_dh_get_algo in Halgo. apply find_some in Halgo.
    destruct Halgo as [_ Heq]. revert Heq.
    destruct (type algo), (kex_type kex); cbn; try discriminate; trivial.
    intros Heq. apply Nat.eqb_eq in Heq. now subst. }
  destruct (crypto_dh_new (gen algo) (modulus algo) conn) as [c0 [dh |]] eqn:Hnew;
    [| discriminate Hrun].
  pose proof (dh_kex_send_init_msg_result dh c0) as Hsent.
  destruct (dh_kex_send_init_msg dh c0) as [c1 rc1] eqn:Hsend. cbn [snd] in Hsent.
  destruct (rc1 <? 0) eqn:Hrc1; [discriminate Hrun |].
  apply Z.ltb_ge in Hrc1.
  assert (rc1 = 0) by lia. subst rc1.
  destruct (dh_kex_read_reply_trace dh c1 kex) as [[c Hc] | (K & H & c2 & Hver & Hfin)].
  - rewrite Hc in Hrun. cbn in Hrun. discriminate Hrun.
  - rewrite Hfin in Hrun.
    destruct (ssh_kex_finish kex K H c2) as [c3 rc] eqn:Hfinish.
    destruct (rc <? 0) eqn:Hrc; [discriminate Hrun |].
    apply Z.ltb_ge in Hrc. injection Hrun as <-.
    exists algo, c0, dh, c1, K, H, c2, c3, rc. repeat split; assumption || reflexivity.
Qed.

End KexRunProofs.

(* ------------------------------------------------------------------ *)
(** ** The scenarios of the stream properties, run *)

Lemma toy_block_len_ok seq key mkey : block_len_ok (toy_keyed seq key mkey).
Proof. right. cbn [toy_keyed cipher_block_len]. lia. Qed.

Lemma toy_net_buffer_ok seq key mkey : net_buffer_ok (toy_keyed seq key mkey).
Proof. unfold net_buffer_ok. cbn. lia. Qed.

Lemma toy_cipher_in_step n : cipher_in_step toy_crypt n eq.
Proof.
  intros e d plain e' c <- Hn Hc.
  destruct (toy_cipher_matching n e e plain e' c eq_refl Hn Hc)
    as (d & d1 & d2 & Hd & H1 & H2).
  injection Hd as <-. exists d1, d2. repeat split; try assumption.
  unfold toy_crypt in Hc, H1, H2.
  injection Hc as <- <-. injection H1 as <- _. injection H2 as <- _.
  rewrite length_firstn, length_skipn, toy_xor_length. lia.
Qed.

Lemma toy_streams_in_step seq key mkey :
  streams_in_step eq (toy_keyed seq key mkey) (toy_keyed seq key mkey).
Proof. split; [reflexivity |]. intros _. now exists key, key. Qed.

Lemma init_mac_len_ok : mac_len_ok toy_mac (ssh_stream_init : TOY_STREAM).
Proof.
  unfold mac_len_ok. cbn [ssh_stream_init mac_len mac_type mac_ctx].
  repeat split; try lia. intros c x m Hc. discriminate Hc.
Qed.

Lemma init_streams_match :
  streams_match toy_crypt (ssh_stream_init : TOY_STREAM) ssh_stream_init.
Proof. split; [reflexivity |]. intros H. discriminate H. Qed.

Lemma init_net_buffer_ok : net_buffer_ok (ssh_stream_init : TOY_STREAM).
Proof. unfold net_buffer_ok. cbn. lia. Qed.

(** A payload of 65528 octets has a packet_length of 65540, and a fresh
    stream sends it. *)
Lemma long_payload_pad (payload : list Z) :
  Z.of_nat (length payload) = 65528 -> pad_len_of payload 0 = 11.
Proof.
  intros Hlen. unfold pad_len_of.
  replace (Z.of_nat (5 + length payload)) with 65533 by lia.
  vm_compute. reflexivity.
Qed.

Lemma long_payload_sent (payload : list Z) :
  let sent := send_payload toy_crypt toy_mac payload
                (ssh_stream_init, quiet_world) in
  sent = (fst (fst sent), snd (fst sent), Ok tt).
Proof.
  intros sent.
  pose proof (send_payload_plain toy_crypt toy_mac
                (ssh_stream_init : TOY_STREAM) quiet_world payload
                eq_refl eq_refl eq_refl eq_refl) as Hsend.
  cbv zeta in Hsend. fold sent in Hsend.
  rewrite Hsend. reflexivity.
Qed.

Lemma fresh_receiver_pending (bytes : list Z) :
  pending (ssh_stream_init : TOY_STREAM) (incoming bytes)
  = skipn (length (net_tx quiet_world)) bytes ++ [].
Proof.
  unfold pending, contents.
  cbn [ssh_stream_init net_buffer ssh_buf_new len data incoming net_rx
       quiet_world net_tx length skipn].
  change (firstn 0 (@nil Z)) with (@nil Z). cbn [app].
  symmetry. apply app_nil_r.
Qed.

(** C1, witness: [hello] through the small cipher and MAC, sequence
    number 7 on both sides. *)
Lemma roundtrip_witness :
  let out := fst (ssh_stream_recv_packet toy_crypt toy_mac
                    (toy_keyed 7 3 9, incoming keyed_wire)) in
  recv_payload (fst out) = hello /\ pending (fst out) (snd out) = [].
Proof.
  intros out.
  assert (Hlen : Z.of_nat (length hello) + 260 < 4294967296)
    by (vm_compute; reflexivity).
  assert (Hsend : send_payload toy_crypt toy_mac hello
                    (toy_keyed 7 3 9, keyed_world)
                  = (fst (fst keyed_sent), snd (fst keyed_sent), Ok tt))
    by (vm_compute; reflexivity).
  assert (Hpend : pending (toy_keyed 7 3 9) (incoming keyed_wire)
                  = skipn (length (net_tx keyed_world))
                      (net_tx (snd (fst keyed_sent))) ++ [])
    by (vm_compute; reflexivity).
  assert (Hrecv : ssh_stream_recv_packet toy_crypt toy_mac
                    (toy_keyed 7 3 9, incoming keyed_wire)
                  = ((fst out, snd out), Ok tt))
    by (vm_compute; reflexivity).
  exact (roundtrip toy_crypt toy_mac (toy_keyed 7 3 9) (toy_keyed 7 3 9)
           keyed_world (incoming keyed_wire) hello
           (fst (fst keyed_sent)) (snd (fst keyed_sent)) []
           (fst out) (snd out)
           toy_crypt_keeps_length (toy_mac_len_ok 7 3 9)
           (toy_block_len_ok 7 3 9) (toy_streams_match 7 3 9)
           (toy_net_buffer_ok 7 3 9) Hlen Hsend Hpend Hrecv).
Defined.


(** X26, witness: [hello] through the small cipher and MAC, sequence
    number 7 on both sides. *)
Lemma roundtrip_within_bound_witness :
  exists r' wr',
    ssh_stream_recv_packet toy_crypt toy_mac
      (toy_keyed 7 3 9, incoming keyed_wire) = ((r', wr'), Ok tt)
    /\ recv_payload r' = hello
    /\ pending r' wr' = []
    /\ seq_num r' = u32 (seq_num (toy_keyed 7 3 9) + 1).
Proof.
  assert (Hmax : 1 + Z.of_nat (length hello)
                 + pad_len_of hello (cipher_block_len (toy_keyed 7 3 9))
                 <= 65536)
    by (vm_compute; discriminate).
  assert (Hsend : send_payload toy_crypt toy_mac hello
                    (toy_keyed 7 3 9, keyed_world)
                  = (fst (fst keyed_sent), snd (fst keyed_sent), Ok tt))
    by (vm_compute; reflexivity).
  assert (Hpend : pending (toy_keyed 7 3 9) (incoming keyed_wire)
                  = skipn (length (net_tx keyed_world))
                      (net_tx (snd (fst keyed_sent))) ++ [])
    by (vm_compute; reflexivity).
  exact (roundtrip_within_bound toy_crypt toy_mac (toy_keyed 7 3 9)
           (toy_keyed 7 3 9) keyed_world (incoming keyed_wire) hello
           (fst (fst keyed_sent)) (snd (fst keyed_sent)) []
           toy_crypt_keeps_length (toy_mac_len_ok 7 3 9)
           (toy_block_len_ok 7 3 9) (toy_streams_match 7 3 9)
           (toy_net_buffer_ok 7 3 9) Hmax Hsend Hpend).
Defined.

(** X27, witness: a payload of 65528 zero octets on two fresh streams: it
    is sent with packet_length 65540, and the receiver, handed the octets
    written, answers with the packet-size error. *)
Lemma oversized_packet_is_rejected_witness :
  exists st',
    ssh_stream_recv_packet toy_crypt toy_mac
      (ssh_stream_init, incoming (net_tx (snd (fst big_sent))))
    = (st', Err ERR_PACKET_SIZE)
    /\ seq_num (fst st') = seq_num (ssh_stream_init : TOY_STREAM).
Proof.
  assert (Hl : Z.of_nat (length big_payload) = 65528)
    by (unfold big_payload; rewrite repeat_length; lia).
  assert (Hblk : block_len_ok (ssh_stream_init : TOY_STREAM))
    by (left; reflexivity).
  assert (Hlen : Z.of_nat (length big_payload) + 260 < 4294967296)
    by (rewrite Hl; reflexivity).
  assert (Hbig : 65536 < 1 + Z.of_nat (length big_payload)
                         + pad_len_of big_payload
                             (cipher_block_len (ssh_stream_init : TOY_STREAM)))
    by (change (cipher_block_len (ssh_stream_init : TOY_STREAM)) with 0;
        rewrite (long_payload_pad big_payload Hl), Hl; reflexivity).
  exact (oversized_packet_is_rejected toy_crypt toy_mac
           ssh_stream_init ssh_stream_init quiet_world
           (incoming (net_tx (snd (fst big_sent)))) big_payload
           (fst (fst big_sent)) (snd (fst big_sent)) []
           toy_crypt_keeps_length init_mac_len_ok Hblk init_streams_match
           init_net_buffer_ok Hlen Hbig (long_payload_sent big_payload)
           (fresh_receiver_pending (net_tx (snd (fst big_sent))))).
Defined.

(** X5, witness: the packet for [hello] on a socket that refuses the
    write. *)
Lemma send_error_attribution_witness :
  snd (ssh_stream_send_packet toy_crypt toy_mac hello_on_closed_socket)
  = Err ERR_IO
  /\ net_wr_ok (snd hello_on_closed_socket) = false.
Proof.
  assert (Hfail : snd (ssh_stream_send_packet toy_crypt toy_mac
                         hello_on_closed_socket) = Err ERR_IO)
    by (vm_compute; reflexivity).
  split; [exact Hfail |].
  exact (proj2 (proj2 (send_error_attribution toy_crypt toy_mac
                         hello_on_closed_socket ERR_IO Hfail)) eq_refl).
Defined.

(** X6, witness: [hello] on the keyed stream. *)
Lemma send_success_requires_witness :
  let s := toy_keyed 7 3 9 in
  let P := frame hello (pad_len_of hello 16)
             (fst (pad_fill false keyed_world (Z.to_nat (pad_len_of hello 16)))) in
  (is_cipher_none (cipher_type s) = true
   \/ exists c, cipher_ctx s = Some c /\ toy_crypt c P <> None)
  /\ (is_mac_none (mac_type s) = true
      \/ ssh_mac_compute toy_mac (mac_ctx s) (seq_num s) P <> None)
  /\ net_wr_ok keyed_world = true.
Proof.
  assert (Hok : snd (send_payload toy_crypt toy_mac hello
                       (toy_keyed 7 3 9, keyed_world)) = Ok tt)
    by (vm_compute; reflexivity).
  exact (send_success_requires toy_crypt toy_mac (toy_keyed 7 3 9) keyed_world
           hello toy_crypt_keeps_length (toy_mac_len_ok 7 3 9) Hok).
Defined.

(** X7, witness: [hello] on the keyed stream and on the same stream with
    octets of earlier packets in its buffers and on its socket. *)
Lemma wire_ignores_stale_buffers_witness :
  let o1 := send_payload toy_crypt toy_mac hello (toy_keyed 7 3 9, keyed_world) in
  let o2 := send_payload toy_crypt toy_mac hello
              (toy_keyed_stale, keyed_world_used) in
  (snd o1 = Ok tt <-> snd o2 = Ok tt)
  /\ (snd o1 = Ok tt ->
      skipn (length (net_tx keyed_world)) (net_tx (snd (fst o1)))
      = skipn (length (net_tx keyed_world_used)) (net_tx (snd (fst o2)))).
Proof.
  assert (Hcfg : config (toy_keyed 7 3 9) = config toy_keyed_stale)
    by reflexivity.
  assert (Hctx : cipher_ctx (toy_keyed 7 3 9) = cipher_ctx toy_keyed_stale)
    by reflexivity.
  assert (Hpool : rand_pool keyed_world = rand_pool keyed_world_used)
    by reflexivity.
  assert (Hwr : net_wr_ok keyed_world = net_wr_ok keyed_world_used)
    by reflexivity.
  exact (wire_ignores_stale_buffers toy_crypt toy_mac (toy_keyed 7 3 9)
           toy_keyed_stale keyed_world keyed_world_used hello
           toy_crypt_keeps_length (toy_mac_len_ok 7 3 9) Hcfg Hctx Hpool Hwr).
Defined.

(** X8, witness: [hello] on the keyed stream takes 16 octets and 4 of
    MAC. *)
Lemma sent_packet_size_witness :
  exists wire,
    net_tx (snd (fst keyed_sent)) = net_tx keyed_world ++ wire
    /\ let packet := Z.of_nat (length wire) - 4 in
       6 + 9 <= packet < 6 + 9 + 16
       /\ packet mod 16 = 0
       /\ (16 = 8 \/ 16 <= 16 -> 16 <= packet).
Proof.
  assert (Hcbl : 0 <= cipher_block_len (toy_keyed 7 3 9) <= 252)
    by (vm_compute; split; discriminate).
  assert (Hlen : Z.of_nat (length hello) + 260 < 4294967296)
    by (vm_compute; reflexivity).
  assert (Hsend : send_payload toy_crypt toy_mac hello
                    (toy_keyed 7 3 9, keyed_world)
                  = (fst (fst keyed_sent), snd (fst keyed_sent), Ok tt))
    by (vm_compute; reflexivity).
  exact (sent_packet_size toy_crypt toy_mac (toy_keyed 7 3 9) keyed_world
           (fst (fst keyed_sent)) (snd (fst keyed_sent)) hello
           toy_crypt_keeps_length (toy_mac_len_ok 7 3 9) Hcbl Hlen Hsend).
Defined.

(** X9, witness: the keyed receiver is handed the packet for [hello]. *)
Lemma recv_accepts_only_authentic_witness :
  let r := toy_keyed 7 3 9 in
  let wr := incoming keyed_wire in
  let out := fst (ssh_stream_recv_packet toy_crypt toy_mac (r, wr)) in
  exists body tag,
    pending r wr = body ++ tag ++ pending (fst out) (snd out)
    /\ length body = len (pack (fst out))
    /\ length tag = Z.to_nat (mac_len r)
    /\ ssh_mac_compute toy_mac (mac_ctx r) (seq_num r) (contents (pack (fst out)))
       = Some tag.
Proof.
  intros r wr out.
  assert (Hmt : is_mac_none (mac_type r) = false) by reflexivity.
  assert (Hrecv : ssh_stream_recv_packet toy_crypt toy_mac (r, wr)
                  = ((fst out, snd out), Ok tt))
    by (vm_compute; reflexivity).
  exact (recv_accepts_only_authentic toy_crypt toy_mac r wr (fst out) (snd out)
           toy_crypt_keeps_length (toy_block_len_ok 7 3 9)
           (toy_mac_len_ok 7 3 9) (toy_net_buffer_ok 7 3 9) Hmt Hrecv).
Defined.

(** X10, witness: the keyed receiver is handed the packet for [hello]
    followed by three more octets. *)
Lemma recv_consumes_one_packet_witness :
  let r := toy_keyed 7 3 9 in
  let wr := incoming (keyed_wire ++ [1; 2; 3]) in
  let out := fst (ssh_stream_recv_packet toy_crypt toy_mac (r, wr)) in
  let pack_len := ssh_buf_get_u32 (data (pack (fst out))) in
  exists taken,
    pending r wr = taken ++ pending (fst out) (snd out)
    /\ Z.of_nat (length taken) = 4 + pack_len + mac_len r
    /\ Z.of_nat (len (pack (fst out))) = pack_len + 4
    /\ net_buffer_ok (fst out).
Proof.
  intros r wr out.
  assert (Hml : 0 <= mac_len r < 2147483648)
    by (vm_compute; split; [discriminate | reflexivity]).
  assert (Hrecv : ssh_stream_recv_packet toy_crypt toy_mac (r, wr)
                  = ((fst out, snd out), Ok tt))
    by (vm_compute; reflexivity).
  exact (recv_consumes_one_packet toy_crypt toy_mac r wr (fst out) (snd out)
           toy_crypt_keeps_length (toy_block_len_ok 7 3 9) Hml
           (toy_net_buffer_ok 7 3 9) Hrecv).
Defined.

(** X11, witness: the packet for [hello] as the keyed receiver holds it. *)
Lemma recv_packet_layout_witness :
  let r := toy_keyed 7 3 9 in
  let wr := incoming keyed_wire in
  let r' := fst (fst (ssh_stream_recv_packet toy_crypt toy_mac (r, wr))) in
  let pack_len := ssh_buf_get_u32 (data (pack r')) in
  let pad_len := u8 (nth 4 (data (pack r')) 0) in
  4 <= pad_len <= pack_len - 1
  /\ Z.of_nat (length (recv_payload r')) = pack_len - pad_len - 1
  /\ exists padding,
       contents (pack r')
       = firstn 5 (data (pack r')) ++ recv_payload r' ++ padding
       /\ Z.of_nat (length padding) = pad_len.
Proof.
  intros r wr r'.
  set (wr' := snd (fst (ssh_stream_recv_packet toy_crypt toy_mac (r, wr)))).
  assert (Hml : 0 <= mac_len r < 2147483648)
    by (vm_compute; split; [discriminate | reflexivity]).
  assert (Hrecv : ssh_stream_recv_packet toy_crypt toy_mac (r, wr)
                  = ((r', wr'), Ok tt))
    by (vm_compute; reflexivity).
  exact (recv_packet_layout toy_crypt toy_mac r wr r' wr'
           toy_crypt_keeps_length (toy_block_len_ok 7 3 9) Hml
           (toy_net_buffer_ok 7 3 9) Hrecv).
Defined.

(** X12, witness: the keyed receiver is handed the first 18 of the 20
    octets of the packet for [hello]: the first block arrives, the rest
    does not. *)
Lemma recv_truncated_input_witness :
  snd (ssh_stream_recv_packet toy_crypt toy_mac
         (toy_keyed 7 3 9, incoming (firstn 18 keyed_wire)))
  = Err ERR_IO.
Proof.
  set (r := toy_keyed 7 3 9).
  set (wr := incoming (firstn 18 keyed_wire)).
  set (st1 := fst (recv_first_block toy_crypt (r, wr))).
  assert (Hfirst : recv_first_block toy_crypt (r, wr)
                   = ((fst st1, snd st1), Ok tt))
    by (vm_compute; reflexivity).
  assert (Hsize : 1 <= ssh_buf_get_u32 (data (pack (fst st1))) <= 65536)
    by (vm_compute; split; discriminate).
  assert (Hshort : Z.of_nat (length (pending r wr))
                   < recv_block_len (cipher_block_len r)
                     + u32 (ssh_buf_get_u32 (data (pack (fst st1)))
                            + mac_len r
                            - recv_block_len (cipher_block_len r) + 4))
    by (vm_compute; reflexivity).
  exact (proj2 (recv_truncated_input toy_crypt toy_mac r wr
                  toy_crypt_keeps_length (toy_block_len_ok 7 3 9)
                  (toy_net_buffer_ok 7 3 9))
           (fst st1) (snd st1) Hfirst Hsize Hshort).
Defined.

(** X13, witness: a first block that announces [pack_len = 5] to the keyed
    receiver (block length 16, MAC length 4): 2^32 - 3 more octets are
    asked for. *)
Lemma recv_short_length_wraps_witness :
  let r := toy_keyed 7 3 9 in
  let wr := incoming short_length_wire in
  u32 (5 + mac_len r - 16 + 4) = 4294967296 - (16 - 5 - 4 - mac_len r)
  /\ snd (ssh_stream_recv_packet toy_crypt toy_mac (r, wr)) = Err ERR_IO.
Proof.
  intros r wr.
  set (st1 := fst (recv_first_block toy_crypt (r, wr))).
  assert (Hml : 0 <= mac_len r) by (vm_compute; discriminate).
  assert (Hfirst : recv_first_block toy_crypt (r, wr)
                   = ((fst st1, snd st1), Ok tt))
    by (vm_compute; reflexivity).
  assert (Hlow : 1 <= ssh_buf_get_u32 (data (pack (fst st1))))
    by (vm_compute; discriminate).
  assert (Hshort : ssh_buf_get_u32 (data (pack (fst st1))) + 4 + mac_len r
                   < recv_block_len (cipher_block_len r))
    by (vm_compute; reflexivity).
  assert (Hpend : Z.of_nat (length (pending r wr)) < 4294967296)
    by (vm_compute; reflexivity).
  pose proof (recv_short_length_wraps toy_crypt toy_mac r wr (fst st1) (snd st1)
                toy_crypt_keeps_length (toy_block_len_ok 7 3 9) Hml
                (toy_net_buffer_ok 7 3 9) Hfirst Hlow Hshort) as [Hwrap Hio].
  split; [exact Hwrap | exact (Hio Hpend)].
Defined.

(** X14, witness: [hello] and a second payload sent on the keyed stream
    and received by its peer. *)
Lemma packets_arrive_in_order_witness :
  let s := toy_keyed 7 3 9 in
  let wr := incoming (net_tx (snd (fst two_sent))) in
  exists r' wr',
    recv_all toy_crypt toy_mac (length two_payloads) (s, wr)
    = ((r', wr'), Ok two_payloads)
    /\ pending r' wr' = []
    /\ streams_in_step eq (fst (fst two_sent)) r'
    /\ u32 (seq_num (fst (fst two_sent)))
       = u32 (seq_num s + Z.of_nat (length two_payloads)).
Proof.
  intros s wr.
  assert (Hmax : Forall (fun payload =>
                           1 + Z.of_nat (length payload)
                           + pad_len_of payload (cipher_block_len s) <= 65536)
                   two_payloads)
    by (repeat constructor; vm_compute; discriminate).
  assert (Hsend : send_all toy_crypt toy_mac two_payloads (s, keyed_world)
                  = ((fst (fst two_sent), snd (fst two_sent)), Ok tt))
    by (vm_compute; reflexivity).
  assert (Hpend : pending s wr
                  = skipn (length (net_tx keyed_world))
                      (net_tx (snd (fst two_sent))) ++ [])
    by (vm_compute; reflexivity).
  exact (packets_arrive_in_order toy_crypt toy_mac eq two_payloads s s
           keyed_world wr (fst (fst two_sent)) (snd (fst two_sent)) []
           toy_crypt_keeps_length (toy_mac_len_ok 7 3 9)
           (toy_block_len_ok 7 3 9) (toy_cipher_in_step _)
           (toy_streams_in_step 7 3 9) (toy_net_buffer_ok 7 3 9)
           Hmax Hsend Hpend).
Defined.

(** X18, witness: both sides start from [ssh_stream_init], install the
    small cipher with key octet 3 and the small MAC with key octet 9, and
    exchange the two payloads. *)
Lemma keyed_packets_arrive_in_order_witness :
  let s1 := fst (ssh_stream_set_cipher toy_cipher_get_block_len toy_cipher_new
                   (SSH_CIPHER_ALGO 1) true [0] [3] ssh_stream_init) in
  let s := fst (ssh_stream_set_mac toy_mac_get_len toy_mac_new
                  (SSH_MAC_ALGO 1) [9] s1) in
  let r1 := fst (ssh_stream_set_cipher toy_cipher_get_block_len toy_cipher_new
                   (SSH_CIPHER_ALGO 1) false [0] [3] ssh_stream_init) in
  let r := fst (ssh_stream_set_mac toy_mac_get_len toy_mac_new
                  (SSH_MAC_ALGO 1) [9] r1) in
  let sent := send_all toy_crypt toy_mac two_payloads (s, keyed_world) in
  let wr := incoming (net_tx (snd (fst sent))) in
  exists r' wr',
    recv_all toy_crypt toy_mac (length two_payloads) (r, wr)
    = ((r', wr'), Ok two_payloads)
    /\ pending r' wr' = []
    /\ u32 (seq_num (fst (fst sent)))
       = u32 (seq_num (@ssh_stream_init Z Z) + Z.of_nat (length two_payloads))
    /\ seq_num r' = seq_num (fst (fst sent)).
Proof.
  intros s1 s r1 r sent wr.
  assert (Hsc : ssh_stream_set_cipher toy_cipher_get_block_len toy_cipher_new
                  (SSH_CIPHER_ALGO 1) true [0] [3] ssh_stream_init = (s1, 0))
    by reflexivity.
  assert (Hsm : ssh_stream_set_mac toy_mac_get_len toy_mac_new
                  (SSH_MAC_ALGO 1) [9] s1 = (s, 0))
    by reflexivity.
  assert (Hrc : ssh_stream_set_cipher toy_cipher_get_block_len toy_cipher_new
                  (SSH_CIPHER_ALGO 1) false [0] [3] ssh_stream_init = (r1, 0))
    by reflexivity.
  assert (Hrm : ssh_stream_set_mac toy_mac_get_len toy_mac_new
                  (SSH_MAC_ALGO 1) [9] r1 = (r, 0))
    by reflexivity.
  assert (Hseq : seq_num (@ssh_stream_init Z Z) = seq_num (@ssh_stream_init Z Z))
    by reflexivity.
  assert (Hnb : net_buffer_ok (@ssh_stream_init Z Z))
    by (unfold net_buffer_ok; cbn; lia).
  assert (Hblock : toy_cipher_get_block_len (SSH_CIPHER_ALGO 1) = 0
                   \/ 8 <= toy_cipher_get_block_len (SSH_CIPHER_ALGO 1) <= 252)
    by (right; unfold toy_cipher_get_block_len; lia).
  assert (Hnew : forall e d,
             toy_cipher_new (SSH_CIPHER_ALGO 1) true [0] [3] = Some e ->
             toy_cipher_new (SSH_CIPHER_ALGO 1) false [0] [3] = Some d ->
             e = d)
    by (intros e d He Hd; unfold toy_cipher_new in He, Hd; congruence).
  assert (Hmlen : toy_mac_get_len (SSH_MAC_ALGO 1) < 2147483648)
    by reflexivity.
  assert (Hnone : is_mac_none (SSH_MAC_ALGO 1) = true ->
                  toy_mac_get_len (SSH_MAC_ALGO 1) = 0)
    by (intros E; discriminate E).
  assert (Hdig : forall c x m,
             toy_mac_new (SSH_MAC_ALGO 1) [9] = Some c ->
             toy_mac c x = Some m ->
             length m = Z.to_nat (toy_mac_get_len (SSH_MAC_ALGO 1)))
    by (intros c x m _ Hm; unfold toy_mac in Hm; injection Hm as <-;
        reflexivity).
  assert (Hmax : Forall (fun payload =>
                           1 + Z.of_nat (length payload)
                           + pad_len_of payload
                               (toy_cipher_get_block_len (SSH_CIPHER_ALGO 1))
                           <= 65536)
                   two_payloads)
    by (repeat constructor; vm_compute; discriminate).
  assert (Hsend : send_all toy_crypt toy_mac two_payloads (s, keyed_world)
                  = ((fst (fst sent), snd (fst sent)), Ok tt))
    by (vm_compute; reflexivity).
  assert (Hpend : pending r wr
                  = skipn (length (net_tx keyed_world))
                      (net_tx (snd (fst sent))) ++ [])
    by (vm_compute; reflexivity).
  exact (keyed_packets_arrive_in_order toy_crypt toy_mac bool
           toy_cipher_get_block_len toy_cipher_new toy_mac_get_len toy_mac_new
           eq ssh_stream_init s1 s ssh_stream_init r1 r
           (SSH_CIPHER_ALGO 1) true false [0] [3] (SSH_MAC_ALGO 1) [9]
           two_payloads keyed_world wr (fst (fst sent)) (snd (fst sent)) []
           Hsc Hsm Hrc Hrm Hseq Hnb toy_crypt_keeps_length Hblock
           (toy_cipher_in_step _) Hnew Hmlen Hnone Hdig Hmax Hsend Hpend).
Defined.

(** X24, witness: the packet for [hello] on the keyed stream, the first
    octet of its MAC altered in transit. *)
Lemma forged_mac_is_rejected_witness :
  exists st',
    ssh_stream_recv_packet toy_crypt toy_mac
      (toy_keyed 7 3 9, incoming keyed_wire_forged_first)
    = (st', Err ERR_BAD_MAC)
    /\ seq_num (fst st') = seq_num (toy_keyed 7 3 9).
Proof.
  set (s := toy_keyed 7 3 9).
  set (wr := incoming keyed_wire_forged_first).
  set (wire := skipn (length (net_tx keyed_world)) (net_tx (snd (fst keyed_sent)))).
  set (n := (length wire - Z.to_nat (mac_len s))%nat).
  assert (Hmax : 1 + Z.of_nat (length hello)
                 + pad_len_of hello (cipher_block_len s) <= 65536)
    by (vm_compute; discriminate).
  assert (Hmn : is_mac_none (mac_type s) = false) by reflexivity.
  assert (Hsend : send_payload toy_crypt toy_mac hello (s, keyed_world)
                  = (fst (fst keyed_sent), snd (fst keyed_sent), Ok tt))
    by (vm_compute; reflexivity).
  assert (Hlt : length (skipn 16 keyed_wire_forged_first)
                = Z.to_nat (mac_len s))
    by (vm_compute; reflexivity).
  assert (Hne : skipn 16 keyed_wire_forged_first <> skipn n wire)
    by (intros E; vm_compute in E; discriminate E).
  assert (Hpend : pending s wr
                  = firstn n wire ++ skipn 16 keyed_wire_forged_first ++ [])
    by (vm_compute; reflexivity).
  exact (forged_mac_is_rejected toy_crypt toy_mac s s keyed_world wr hello
           (fst (fst keyed_sent)) (snd (fst keyed_sent))
           (skipn 16 keyed_wire_forged_first) []
           toy_crypt_keeps_length (toy_mac_len_ok 7 3 9)
           (toy_block_len_ok 7 3 9) (toy_streams_match 7 3 9)
           (toy_net_buffer_ok 7 3 9) Hmax Hmn Hsend Hlt Hne Hpend).
Defined.

(** X25, witness: the last bit of the payload of the packet for [hello]
    is flipped in transit; the keyed receiver fails with the MAC error, and
    it has a MAC installed. *)
Lemma recv_error_attribution_witness :
  let st := (toy_keyed 7 3 9, incoming keyed_wire_flipped) in
  snd (ssh_stream_recv_packet toy_crypt toy_mac st) = Err ERR_BAD_MAC
  /\ is_mac_none (mac_type (fst st)) = false.
Proof.
  intros st.
  assert (Hfail : snd (ssh_stream_recv_packet toy_crypt toy_mac st)
                  = Err ERR_BAD_MAC)
    by (vm_compute; reflexivity).
  split; [exact Hfail |].
  exact (proj1 (proj2 (recv_error_attribution toy_crypt toy_mac st ERR_BAD_MAC
                         (toy_block_len_ok 7 3 9) Hfail))
           (or_intror eq_refl)).
Defined.

Section ToyKexRun.

Import KexDhRun ToyKex.

(** X20, witness: the small key exchange sends [30], then [e = 2^5 mod 23
    = 9] as a string, after the five octets the packet buffer held. *)
Lemma kexdh_init_packet_witness :
  exists sent,
    contents sent = [0; 0; 0; 0; 0] ++ [30] ++ [0; 0; 0; 1] ++ [9]
    /\ dh_kex_send_init_msg 5 []
       = (fst (toy_send_packet sent []),
          if snd (toy_send_packet sent []) <? 0 then -1 else 0).
Proof.
  set (pack := mkbuf [0; 0; 0; 0; 0] 5).
  assert (Hpub : crypto_dh_get_pubkey 5 [] = ([], Some [9])) by reflexivity.
  assert (Hnew : ssh_conn_new_packet [] = ([], Some pack)) by reflexivity.
  assert (Hwf : (len pack <= length (data pack))%nat) by (cbn; lia).
  exact (kexdh_init_packet 5 [] [] [] [9] pack Hpub Hnew Hwf).
Defined.

(** X23, witness: the small key exchange, run from an empty environment,
    returns 0 with the KEXDH_INIT message handed to the connection. *)
Lemma kex_dh_run_success_witness :
  ssh_kex_dh_run [] toy_kex = ([0; 0; 0; 0; 0; 30; 0; 0; 0; 1; 9], 0)
  /\ exists dh_algo c0 dh c1 K H c2 c3 rc,
       kex_dh_get_algo (kex_type toy_kex) = Some dh_algo
       /\ type dh_algo = kex_type toy_kex
       /\ toy_dh_new (gen dh_algo) (modulus dh_algo) [] = (c0, Some dh)
       /\ dh_kex_send_init_msg dh c0 = (c1, 0)
       /\ reply_verified dh c1 toy_kex K H c2
       /\ toy_finish toy_kex K H c2 = (c3, rc)
       /\ 0 <= rc
       /\ [0; 0; 0; 0; 0; 30; 0; 0; 0; 1; 9] = toy_dh_free dh c3.
Proof.
  assert (Hrun : ssh_kex_dh_run [] toy_kex
                 = ([0; 0; 0; 0; 0; 30; 0; 0; 0; 1; 9], 0))
    by (vm_compute; reflexivity).
  split; [exact Hrun |].
  exact (kex_dh_run_success [] [0; 0; 0; 0; 0; 30; 0; 0; 0; 1; 9] toy_kex
           Hrun).
Defined.

End ToyKexRun.
